(** * A shallow embedding of the fabric-token-sdk zero-knowledge token core

    The development follows the Go sources:
    - the range proof of package [rangeproof] (Prover.Prove, Verifier.Verify,
      Prover.computeMembershipWitness), including the float64 [math.Pow]
      it uses to compute powers of the base;
    - the selective-disclosure signature proof of package [sigproof]
      (SigProver.Prove, SigVerifier.Verify);
    - the anonymous issuer verifier of package [anonym];
    - the ledger [Translator] of package [translator] (Write,
      CommitTokenRequest, the checks and the commit of actions);
    - [Request.prepareTransfer] / [Request.parseInputIDs] of package [token].

    Group elements of the prime-order groups are represented by their
    discrete logarithms modulo the group order [q]: a cyclic group of order
    [q] is isomorphic to Z/qZ, so additions and scalar multiplications of
    elements become additions and multiplications modulo [q]. *)

From Stdlib Require Import ZArith List Lia Bool.
From stdpp Require Import base gmap list strings pretty.

Open Scope Z_scope.

(** ** Go results: a value, an error, or a run-time panic *)

Inductive res (A : Type) : Type :=
| ROk (a : A)
| RErr (msg : string)
| RPanic.
Arguments ROk {A} a.
Arguments RErr {A} msg.
Arguments RPanic {A}.

Global Instance res_ret : MRet res := fun A a => ROk a.
Global Instance res_bind : MBind res := fun A B f m =>
  match m with
  | ROk a => f a
  | RErr e => RErr e
  | RPanic => RPanic
  end.

Definition is_ok {A} (r : res A) : bool :=
  match r with ROk _ => true | _ => false end.

Definition is_err {A} (r : res A) : bool :=
  match r with RErr _ => true | _ => false end.

(** Go slice indexing: out of range panics. *)
Definition nth_go {A} (l : list A) (i : nat) : res A :=
  match l !! i with Some a => ROk a | None => RPanic end.

(** ** float64 arithmetic used by [math.Pow]

    A finite non-negative float64 is [mant * 2^expo]. Products are rounded
    to 53 significant bits, to nearest with ties to even, as IEEE 754
    multiplication does; doubling and [Ldexp] are exact. *)
Module GoFloat.

Record f64 := F64 { mant : Z; expo : Z }.

Definition round53 (m e : Z) : f64 :=
  if m <? 2 ^ 53 then F64 m e
  else
    let s := Z.log2 m + 1 - 53 in
    let hi := Z.shiftr m s in
    let r := m - Z.shiftl hi s in
    let half := 2 ^ (s - 1) in
    let hi' := if (half <? r) || ((r =? half) && Z.odd hi) then hi + 1 else hi in
    F64 hi' (e + s).

Definition fmul (a b : f64) : f64 := round53 (mant a * mant b) (expo a + expo b).

(** [float64(n)] for a non-negative integer [n]. *)
Definition of_int (n : Z) : f64 := round53 n 0.

Definition is_one (x : f64) : bool :=
  if 0 <=? expo x then mant x * 2 ^ expo x =? 1 else mant x =? 2 ^ (- expo x).

(** [Frexp] of a positive float: [x = x1 * 2^xe] with [x1] in [0.5, 1). *)
Definition frexp (x : f64) : f64 * Z :=
  let k := Z.log2 (mant x) + 1 in (F64 (mant x) (- k), k + expo x).

(** [x < .5] *)
Definition lt_half (x : f64) : bool :=
  let e1 := expo x + 1 in
  if 0 <=? e1 then mant x * 2 ^ e1 <? 1 else mant x <? 2 ^ (- e1).

Definition ldexp (x : f64) (k : Z) : f64 := F64 (mant x) (expo x + k).

(** The repeated-squaring loop of Go's [math.pow]:
<<
	x1, xe := Frexp(x)
	for i := int64(yi); i != 0; i >>= 1 {
		if xe < -1<<12 || 1<<12 < xe { ae += xe; break }
		if i&1 == 1 { a1 *= x1; ae += xe }
		x1 *= x1
		xe <<= 1
		if x1 < .5 { x1 += x1; xe-- }
	}
>>
    [fuel] bounds the number of iterations (64 suffice for an int64 [i]). *)
Fixpoint pow_loop (fuel : nat) (i : Z) (a1 : f64) (ae : Z) (x1 : f64) (xe : Z)
  : f64 * Z :=
  match fuel with
  | O => (a1, ae)
  | S fuel' =>
      if i =? 0 then (a1, ae)
      else if (xe <? - 4096) || (4096 <? xe) then (a1, ae + xe)
      else
        let '(a1', ae') :=
          if Z.land i 1 =? 1 then (fmul a1 x1, ae + xe) else (a1, ae) in
        let x1' := fmul x1 x1 in
        let xe' := Z.shiftl xe 1 in
        let '(x1'', xe'') :=
          if lt_half x1' then (F64 (mant x1') (expo x1' + 1), xe' - 1)
          else (x1', xe') in
        pow_loop fuel' (Z.shiftr i 1) a1' ae' x1'' xe''
  end.

(** [math.Pow(x, y)] for a non-negative float [x] and a non-negative
    integer exponent [y] (the only case the range proof uses). *)
Definition Pow (x : f64) (y : Z) : f64 :=
  if (y =? 0) || is_one x then F64 1 0
  else if y =? 1 then x
  else if mant x =? 0 then F64 0 0
  else
    let '(x1, xe) := frexp x in
    let '(a1, ae) := pow_loop 64 y (F64 1 0) 0 x1 xe in
    ldexp a1 ae.

(** [int64(f)] truncates towards zero; an out-of-range value gives the
    amd64 "integer indefinite" value [-2^63]. *)
Definition to_int64 (x : f64) : Z :=
  let v := if 0 <=? expo x then mant x * 2 ^ expo x
           else Z.shiftr (mant x) (- expo x) in
  if 2 ^ 63 <=? v then - 2 ^ 63 else v.

End GoFloat.

(** [int64(math.Pow(float64(base), float64(j)))], as the range proof
    computes every power of the base. *)
Definition pow_int64 (base j : Z) : Z :=
  GoFloat.to_int64 (GoFloat.Pow (GoFloat.of_int base) j).

(** ** Digit decomposition of [Prover.computeMembershipWitness]
<<
		values := make([]int, p.Exponent)
		v := p.tokenWitness[k].Value.Int64()
		if v >= int64(math.Pow(float64(p.Base), float64(p.Exponent))) {
			return nil, errors.Errorf("can't compute range proof: value of token outside authorized range")
		}
		values[0] = int(v % int64(p.Base))
		for i := 0; i < p.Exponent-1; i++ {
			values[p.Exponent-1-i] = int(v / int64(math.Pow(float64(p.Base), float64(p.Exponent-1-i)))) // quotient
			v = v % int64(math.Pow(float64(p.Base), float64(p.Exponent-1-i)))                           // remainder
		}
>>
    The loop runs the index [j = Exponent-1-i] from [Exponent-1] down to 1;
    Go's [/] and [%] on int64 truncate ([Z.quot], [Z.rem]). *)
Fixpoint digits_loop (base : Z) (j : nat) (v : Z) (values : list Z) : res (list Z) :=
  match j with
  | O => ROk values
  | S j' =>
      let P := pow_int64 base (Z.of_nat j) in
      if P =? 0 then RPanic
      else digits_loop base j' (Z.rem v P) (<[j := Z.quot v P]> values)
  end.

Definition range_violation_msg : string :=
  "can't compute range proof: value of token outside authorized range".

Definition decompose (base : Z) (exponent : nat) (v : Z) : res (list Z) :=
  if pow_int64 base (Z.of_nat exponent) <=? v then RErr range_violation_msg
  else
    match exponent with
    | O => RPanic
    | S _ =>
        if base =? 0 then RPanic
        else digits_loop base (exponent - 1) v
               (<[0%nat := Z.rem v base]> (repeat 0 exponent))
    end.

(** [Σ values[i] * base^i]. *)
Fixpoint digits_value (base : Z) (values : list Z) : Z :=
  match values with
  | [] => 0
  | d :: ds => d + base * digits_value base ds
  end.

(** The powers [int64(math.Pow(base, j))] for [j <= exponent] are exact. *)
Definition pow_exact_b (base : Z) (exponent : nat) : bool :=
  forallb (fun j => pow_int64 base (Z.of_nat j) =? base ^ Z.of_nat j)
    (seq 0 (S exponent)).

(** The base-[base] digits of [v], least-significant first. *)
Definition digit (base v : Z) (i : nat) : Z := Z.rem (Z.quot v (base ^ Z.of_nat i)) base.

Definition digits (base v : Z) (n : nat) : list Z := digit base v <$> seq 0 n.

(** ** Group and field arithmetic of bn256

    [q] is [bn256.Order]. A G1, G2 or GT element is its discrete logarithm
    modulo [q]; [G1.Mul(s)] is multiplication by the scalar, [G1.Add] and
    [G1.Sub] are addition and subtraction, all modulo [q]; [bn256.ModAdd]
    and [bn256.ModMul] are the field operations. *)
Section Group.
Variable q : Z.
Definition gadd (a b : Z) : Z := (a + b) mod q.
Definition gsub (a b : Z) : Z := (a - b) mod q.
Definition gmul (g s : Z) : Z := (g * s) mod q.
Definition ModAdd (a b : Z) : Z := (a + b) mod q.
Definition ModMul (a b : Z) : Z := (a * b) mod q.

(** Modelled from the spec: [common.ComputePedersenCommitment] (package
    [common], not among the sources), [Σ generators[i]^scalars[i]], failing
    when the lengths differ (section 4.1). *)
Definition ComputePedersenCommitment (scalars gens : list Z) : res Z :=
  if Nat.eqb (length scalars) (length gens) then
    ROk (fold_left (fun acc gs => gadd acc (gmul gs.1 gs.2)) (zip gens scalars) 0)
  else RErr "can't compute Pedersen commitment: lengths differ".

(** Modelled from the spec: [common.SchnorrProver.Prove],
    [response_i = randomness_i + challenge * witness_i (mod order)]
    (section 4.1). *)
Definition SchnorrProve (chal : Z) (randomness witness : list Z) : res (list Z) :=
  if Nat.eqb (length randomness) (length witness) then
    ROk (zip_with (fun r w => ModAdd r (ModMul chal w)) randomness witness)
  else RErr "length of randomness does not match length of witness".

(** Modelled from the spec: [common.SchnorrVerifier.RecomputeCommitment],
    [Σ generators[i]^responses[i] - statement^challenge] (section 4.1). *)
Definition RecomputeCommitment (gens : list Z) (statement : Z) (proof : list Z)
    (chal : Z) : Z :=
  gsub (fold_left (fun acc gs => gadd acc (gmul gs.1 gs.2)) (zip gens proof) 0)
       (gmul statement chal).
End Group.

(** [Zr.Int64()] of a non-negative field element: the low 64 bits read as
    a two's complement int64 (what [big.Int.Int64] does). *)
Definition Int64 (x : Z) : Z :=
  let w := x mod 2 ^ 64 in if 2 ^ 63 <=? w then w - 2 ^ 64 else w.

(** ** The range proof (package [rangeproof]) *)
Module RangeProof.

(** The three Pedersen generators of the public parameters. *)
Record PedersenParams := { pp0 : Z; pp1 : Z; pp2 : Z }.
Definition pp_list (pp : PedersenParams) : list Z := [pp0 pp; pp1 pp; pp2 pp].
Definition pp_first2 (pp : PedersenParams) : list Z := [pp0 pp; pp1 pp].

(** A Pointcheval-Sanders signature [pssign.Signature] ([R], [S]). *)
Definition Signature := (Z * Z)%type.

Record TokenDataWitness := { Typ : string; Value : Z; BlindingFactor : Z }.

(** [sigproof.MembershipWitness]: signature, digit, blinding factor. *)
Definition MembershipWitness := (Signature * Z * Z)%type.

(** The cryptographic collaborators of the range proof:
    - [q]: [bn256.Order];
    - [hash_type]: [bn256.HashModOrder([]byte(type))];
    - [hash_bytes]: [sha256] followed by [bn256.NewZrFromBytes], applied to
      the concatenated encodings of the hashed elements;
    - [mem_prove], [mem_verify]: [sigproof.NewMembershipProver(w, com, P, Q,
      PK, pp[:2]).Prove()] and [sigproof.NewMembershipVerifier(com, P, Q,
      PK, pp[:2]).Verify(raw)] for the fixed public parameters. *)
Record Crypto := {
  q : Z;
  hash_type : string -> Z;
  hash_bytes : list Z -> Z;
  mem_prove : MembershipWitness -> Z -> res string;
  mem_verify : Z -> string -> res unit
}.

Record Verifier := {
  Token : list Z;
  Base : Z;
  Exponent : nat;
  PedersenParamsV : PedersenParams;
  Q : Z;
  P : Z;
  PK : list Z
}.

Record Prover := {
  verifier : Verifier;
  tokenWitness : list TokenDataWitness;
  Signatures : list Signature
}.

(** [NewProver]: the base is the number of digit signatures. *)
Definition NewProver (tw : list TokenDataWitness) (token : list Z)
    (signatures : list Signature) (exponent : nat) (pp : PedersenParams)
    (PK : list Z) (P Q : Z) : Prover :=
  {| verifier := {| Token := token; Base := Z.of_nat (length signatures);
                    Exponent := exponent; PedersenParamsV := pp;
                    Q := Q; P := P; PK := PK |};
     tokenWitness := tw; Signatures := signatures |}.

(** The randomness sampled during proving: the blinding factor of digit
    [i] of token [k], and the Schnorr randomness of [computeCommitment]. *)
Record Randomness := {
  rnd_bf : nat -> nat -> Z;
  rnd_type : Z;
  rnd_value : nat -> Z;
  rnd_tbf : nat -> Z;
  rnd_cbf : nat -> Z
}.

Record EqualityProofs := {
  EqType : Z;
  EqValue : list Z;
  EqTokenBlindingFactor : list Z;
  EqCommitmentBlindingFactor : list Z
}.

Record MembershipProof := { Commitments : list Z; SignatureProofs : list string }.

Record Proof := {
  Challenge : Z;
  EqualityProofsP : EqualityProofs;
  MembershipProofs : list MembershipProof
}.

Record Commitment := { ComToken : list Z; CommitmentToValue : list Z }.

Section Ops.
Variable cr : Crypto.

(** [NewToken] (package [anonym]): [pp[0]^H(type) * pp[1]^value * pp[2]^rand]. *)
Definition NewToken (value rand : Z) (ttype : string) (pp : PedersenParams) : Z :=
  gadd (q cr) (gadd (q cr) (gadd (q cr) 0 (gmul (q cr) (pp0 pp) (hash_type cr ttype)))
                           (gmul (q cr) (pp1 pp) value))
       (gmul (q cr) (pp2 pp) rand).

Definition sig_at (sigs : list Signature) (d : Z) : res Signature :=
  if d <? 0 then RPanic else nth_go sigs (Z.to_nat d).

(** The loop over the digits of one token in [computeMembershipWitness]:
<<
		p.commitmentBlindingFactor[k] = bn256.NewZr()
		for i := 0; i < p.Exponent; i++ {
			bf := bn256.RandModOrder(rand)
			coms[k][i], err = common.ComputePedersenCommitment([]*bn256.Zr{bn256.NewZrInt(values[i]), bf}, p.PedersenParams[:2])
			...
			p.membershipWitness[k][i] = sigproof.NewMembershipWitness(p.Signatures[values[i]], bn256.NewZrInt(values[i]), bf)
			pow := bn256.NewZrInt(int(math.Pow(float64(p.Base), float64(i))))
			p.commitmentBlindingFactor[k] = bn256.ModAdd(p.commitmentBlindingFactor[k], bn256.ModMul(bf, pow, bn256.Order), bn256.Order)
		}
>> *)
Fixpoint commit_digits (pp : PedersenParams) (sigs : list Signature) (base : Z)
    (bf : nat -> Z) (i : nat) (values : list Z) (cbf : Z)
    : res (list Z * list MembershipWitness * Z) :=
  match values with
  | [] => ROk ([], [], cbf)
  | d :: ds =>
      let b := bf i in
      com ← ComputePedersenCommitment (q cr) [d; b] (pp_first2 pp);
      sig ← sig_at sigs d;
      let pow := pow_int64 base (Z.of_nat i) in
      let cbf' := ModAdd (q cr) cbf (ModMul (q cr) b pow) in
      '(coms, ws, c) ← commit_digits pp sigs base bf (S i) ds cbf';
      ROk (com :: coms, (sig, d, b) :: ws, c)
  end.

(** The loop over the tokens of [computeMembershipWitness]; token [k]
    draws its digit blinding factors from [rnd_bf rnd k]. *)
Fixpoint membership_witness (pp : PedersenParams) (sigs : list Signature)
    (base : Z) (exponent : nat) (rnd : Randomness) (k : nat)
    (tw : list TokenDataWitness)
    : res (list (list Z) * list (list MembershipWitness) * list Z) :=
  match tw with
  | [] => ROk ([], [], [])
  | w :: tw' =>
      values ← decompose base exponent (Int64 (Value w));
      '(coms, ws, cbf) ← commit_digits pp sigs base (rnd_bf rnd k) 0 values 0;
      '(C, W, B) ← membership_witness pp sigs base exponent rnd (S k) tw';
      ROk (coms :: C, ws :: W, cbf :: B)
  end.

Definition computeMembershipWitness (p : Prover) (rnd : Randomness)
    : res (list (list Z) * list (list MembershipWitness) * list Z) :=
  membership_witness (PedersenParamsV (verifier p)) (Signatures p)
    (Base (verifier p)) (Exponent (verifier p)) rnd 0 (tokenWitness p).

(** The membership proofs of [Prove], one per digit of each token. *)
Definition prove_memberships (p : Prover) (coms : list (list Z))
    (mws : list (list MembershipWitness)) : res (list MembershipProof) :=
  mapM (fun k =>
    coms_k ← nth_go coms k;
    mws_k ← nth_go mws k;
    pairs ← mapM (fun i =>
      c ← nth_go coms_k i;
      w ← nth_go mws_k i;
      sp ← mem_prove cr w c;
      ROk (c, sp)) (seq 0 (Exponent (verifier p)));
    ROk {| Commitments := pairs.*1; SignatureProofs := pairs.*2 |})
    (seq 0 (length (Token (verifier p)))).

(** The randomness of [computeCommitment], one entry per token. *)
Definition rand_list (f : nat -> Z) (n : nat) : list Z := f <$> seq 0 n.

Definition computeCommitment (p : Prover) (rnd : Randomness) : res Commitment :=
  let V := verifier p in
  let pp := PedersenParamsV V in
  let n := length (Token V) in
  pairs ← mapM (fun i =>
    rv ← nth_go (rand_list (rnd_value rnd) n) i;
    rt ← nth_go (rand_list (rnd_tbf rnd) n) i;
    rc ← nth_go (rand_list (rnd_cbf rnd) n) i;
    let tok := gadd (q cr) (gadd (q cr) (gmul (q cr) (pp0 pp) (rnd_type rnd))
                                 (gmul (q cr) (pp1 pp) rv))
                    (gmul (q cr) (pp2 pp) rt) in
    let com := gadd (q cr) (gmul (q cr) (pp0 pp) rv) (gmul (q cr) (pp1 pp) rc) in
    ROk (tok, com)) (seq 0 (length (tokenWitness p)));
  ROk {| ComToken := pairs.*1; CommitmentToValue := pairs.*2 |}.

(** [computeChallenge]: sha256 over the G1 array [P, Token, commitment.Token,
    commitment.CommitmentToValue, PedersenParams], the G2 array [Q, PK] and
    the digit commitments. *)
Definition computeChallenge (V : Verifier) (c : Commitment)
    (comToValue : list (list Z)) : Z :=
  hash_bytes cr ([P V] ++ Token V ++ ComToken c ++ CommitmentToValue c
                 ++ pp_list (PedersenParamsV V) ++ [Q V] ++ PK V
                 ++ concat comToValue).

Definition triple (l : list Z) : res (Z * Z * Z) :=
  match l with [a; b; c] => ROk (a, b, c) | _ => RPanic end.

(** [Prover.Prove]. The proof is returned as a record: [json.Marshal] and
    the [json.Unmarshal] of [Verify] are taken to round-trip. *)
Definition Prove (p : Prover) (rnd : Randomness) : res Proof :=
  let V := verifier p in
  let n := length (Token V) in
  '(coms, mws, cbfs) ← computeMembershipWitness p rnd;
  mps ← prove_memberships p coms mws;
  com ← computeCommitment p rnd;
  let chal := computeChallenge V com coms in
  resps ← mapM (fun k =>
    rv ← nth_go (rand_list (rnd_value rnd) n) k;
    rt ← nth_go (rand_list (rnd_tbf rnd) n) k;
    rc ← nth_go (rand_list (rnd_cbf rnd) n) k;
    w ← nth_go (tokenWitness p) k;
    cbf ← nth_go cbfs k;
    proofs ← SchnorrProve (q cr) chal [rv; rt; rc] [Value w; BlindingFactor w; cbf];
    triple proofs) (seq 0 n);
  w0 ← nth_go (tokenWitness p) 0;
  let ty := ModAdd (q cr) (ModMul (q cr) chal (hash_type cr (Typ w0))) (rnd_type rnd) in
  ROk {| Challenge := chal;
         EqualityProofsP := {| EqType := ty;
                               EqValue := (fun t => t.1.1) <$> resps;
                               EqTokenBlindingFactor := (fun t => t.1.2) <$> resps;
                               EqCommitmentBlindingFactor := (fun t => t.2) <$> resps |};
         MembershipProofs := mps |}.

(** [Verifier.recomputeCommitments]. *)
Definition recomputeCommitments (V : Verifier) (p : Proof) : res Commitment :=
  let eq := EqualityProofsP p in
  let pp := PedersenParamsV V in
  toks ← mapM (fun j =>
    t ← nth_go (Token V) j;
    sv ← nth_go (EqValue eq) j;
    sb ← nth_go (EqTokenBlindingFactor eq) j;
    ROk (RecomputeCommitment (q cr) (pp_list pp) t [EqType eq; sv; sb] (Challenge p)))
    (seq 0 (length (Token V)));
  cvs ← mapM (fun j =>
    mp ← nth_go (MembershipProofs p) j;
    cs ← mapM (fun i =>
      c ← nth_go (Commitments mp) i;
      ROk (gmul (q cr) c (pow_int64 (Base V) (Z.of_nat i)))) (seq 0 (Exponent V));
    let com := fold_left (gadd (q cr)) cs 0 in
    sv ← nth_go (EqValue eq) j;
    sc ← nth_go (EqCommitmentBlindingFactor eq) j;
    ROk (RecomputeCommitment (q cr) (pp_first2 pp) com [sv; sc] (Challenge p)))
    (seq 0 (length (Token V)));
  ROk {| ComToken := toks; CommitmentToValue := cvs |}.

(** [Verifier.Verify] on the decoded proof. *)
Definition Verify (V : Verifier) (proof : Proof) : res unit :=
  if negb (Nat.eqb (length (MembershipProofs proof)) (length (Token V)))
  then RErr "failed to verify range proofz"
  else
    _ ← mapM (fun mp =>
      if negb (Nat.eqb (length (Commitments mp)) (length (SignatureProofs mp)))
      then RErr "failed to verify range proof"
      else mapM (fun cs => mem_verify cr cs.1 cs.2)
                (zip (Commitments mp) (SignatureProofs mp))) (MembershipProofs proof);
    com ← recomputeCommitments V proof;
    let coms := Commitments <$> MembershipProofs proof in
    let chal := computeChallenge V com coms in
    if chal =? Challenge proof then ROk tt else RErr "failed to verify range proof".

End Ops.

(** *** Definitions used to state and prove the range-proof properties *)

(** The Pedersen commitment [pp[0]^d * pp[1]^b] computed by
    [ComputePedersenCommitment] for a digit, and the signature
    [p.Signatures[d]] (total version). *)
Definition pcom (cr : Crypto) (pp : PedersenParams) (d b : Z) : Z :=
  gadd (q cr) (gadd (q cr) 0 (gmul (q cr) (pp0 pp) d)) (gmul (q cr) (pp1 pp) b).
Definition sig_nth (sigs : list Signature) (d : Z) : Signature := nth (Z.to_nat d) sigs (0, 0).

(** The digit commitments, membership witnesses and aggregated blinding
    factor that [computeMembershipWitness] computes for token [k]. *)
Definition coms_of cr pp B E (rnd : Randomness) (k : nat) (w : TokenDataWitness) : list Z :=
  (fun i => pcom cr pp (digit B (Value w) i) (rnd_bf rnd k i)) <$> seq 0 E.
Definition mws_of sigs B E (rnd : Randomness) (k : nat) (w : TokenDataWitness)
  : list MembershipWitness :=
  (fun i => (sig_nth sigs (digit B (Value w) i), digit B (Value w) i, rnd_bf rnd k i)) <$> seq 0 E.
Definition cbf_of cr B E (rnd : Randomness) (k : nat) : Z :=
  fold_left (fun acc j => ModAdd (q cr) acc (ModMul (q cr) (rnd_bf rnd k j) (pow_int64 B (Z.of_nat j))))
    (seq 0 E) 0.

(** A default witness, and the membership proof returned by [mem_prove]. *)
Definition dw : TokenDataWitness := {| Typ := ""; Value := 0; BlindingFactor := 0 |}.
Definition sp_of cr w c : string := match mem_prove cr w c with ROk s => s | _ => EmptyString end.

(** A small instance of the collaborators over the group of order 101. *)
Definition toy_crypto : Crypto := {|
  q := 101;
  hash_type := fun s => if String.eqb s "ABC" then 7 else 9;
  hash_bytes := fun l => fold_left (fun a x => (a * 13 + x) mod 101) l 5;
  mem_prove := fun _ _ => ROk "membership proof";
  mem_verify := fun _ _ => ROk tt |}.
Definition toy_pp : PedersenParams := {| pp0 := 3; pp1 := 5; pp2 := 11 |}.
Definition toy_sigs : list Signature := [(1, 1); (2, 2); (3, 3)].
Definition toy_rnd : Randomness := {|
  rnd_bf := fun k i => Z.of_nat (3 * k + i + 1); rnd_type := 17;
  rnd_value := fun i => Z.of_nat (i + 20); rnd_tbf := fun i => Z.of_nat (i + 40);
  rnd_cbf := fun i => Z.of_nat (i + 60) |}.
Definition toy_prover cr (tw : list TokenDataWitness) (E : nat) : Prover :=
  NewProver tw ((fun w => NewToken cr (Value w) (BlindingFactor w) (Typ w) toy_pp) <$> tw)
    toy_sigs E toy_pp [4; 5] 2 1.

(** Prove succeeds and Verify accepts the proof it produced. *)
Definition roundtrip cr (p : Prover) (rnd : Randomness) : Prop :=
  exists proof, Prove cr p rnd = ROk proof /\ Verify cr (verifier p) proof = ROk tt.

(** The membership proof of [sigproof] is complete: for a digit [d] whose
    signature is available and its Pedersen commitment [c], proving succeeds
    and the proof verifies. *)
Definition mem_complete cr (sigs : list Signature) (pp : PedersenParams) : Prop :=
  forall d b c sig, 0 <= d -> sigs !! Z.to_nat d = Some sig ->
    ComputePedersenCommitment (q cr) [d; b] (pp_first2 pp) = ROk c ->
    exists sp, mem_prove cr (sig, d, b) c = ROk sp /\ mem_verify cr c sp = ROk tt.

End RangeProof.

(** [Σ_(i in l) f i]. *)
Definition zsum (f : nat -> Z) (l : list nat) : Z := fold_right (fun i acc => f i + acc) 0 l.

(** Equality modulo [n] is a congruence for [+], [-] and [*]; [mod_norm]
    turns a goal [X mod n = Y mod n] into the same goal with every inner
    reduction modulo [n] removed. *)
#[local] Instance eqm_equiv n : Equivalence (Zdiv.eqm n) := Zdiv.eqm_setoid n.
#[local] Instance eqm_add n : Proper (Zdiv.eqm n ==> Zdiv.eqm n ==> Zdiv.eqm n) Z.add := Zdiv.Zplus_eqm n.
#[local] Instance eqm_sub n : Proper (Zdiv.eqm n ==> Zdiv.eqm n ==> Zdiv.eqm n) Z.sub := Zdiv.Zminus_eqm n.
#[local] Instance eqm_mul n : Proper (Zdiv.eqm n ==> Zdiv.eqm n ==> Zdiv.eqm n) Z.mul := Zdiv.Zmult_eqm n.

Ltac mod_norm :=
  lazymatch goal with
  | |- ?X mod ?n = ?Y mod ?n =>
      change (Zdiv.eqm n X Y); rewrite ?(Zdiv.Zmod_eqm n); unfold Zdiv.eqm
  end.

(** ** The selective-disclosure signature proof (package [sigproof]) *)
Module Sigproof.

(** A Pointcheval-Sanders signature ([R], [S]). *)
Definition Signature := (Z * Z)%type.

Record SigProof := {
  Challenge : Z;
  Hidden : list Z;
  Hash : Z;
  SigSignature : Signature;
  SigBlindingFactor : Z;
  ComBlindingFactor : Z;
  Commitment : Z
}.

(** [POK]: the proof of knowledge of a signature checked by
    [POKVerifier.RecomputeCommitment]; an entry of [Messages] that the
    verifier did not fill is a nil [*bn256.Zr] ([None]). *)
Record POK := {
  PChallenge : Z;
  PSignature : Signature;
  Messages : list (option Z);
  PHash : Z;
  PBlindingFactor : Z
}.

(** The collaborators of packages [bn256] and [pssign]:
    - [q]: [bn256.Order];
    - [randomize]: [Signature.Randomize] followed by [sig.Copy];
    - [pairing t R Q P']: [FinalExp(Pairing(t, R, Q, P'))];
    - [hash_challenge g1 g2 gt sig]: [HashModOrder] of the bytes of the G1
      array, the G2 array, the GT element and the serialized signature;
    - [serialize]: [Signature.Serialize];
    - [pok_recompute]: [POKVerifier.RecomputeCommitment] for the fixed
      [P], [Q] and [PK]. *)
Record Crypto := {
  q : Z;
  randomize : Signature -> res Signature;
  pairing : Z -> Z -> Z -> Z -> Z;
  hash_challenge : list Z -> list Z -> Z -> string -> Z;
  serialize : Signature -> res string;
  pok_recompute : POK -> res Z
}.

Record SigVerifier := {
  P : Z;
  Q : Z;
  PK : list Z;
  HiddenIndices : list Z;
  DisclosedIndices : list Z;
  Disclosed : list Z;
  PedersenParams : list Z;
  CommitmentToMessages : Z
}.

Record SigWitness := {
  hidden : list Z;
  hash : Z;
  signature : Signature;
  comBlindingFactor : Z
}.

Record SigProver := { verifier : SigVerifier; witness : SigWitness }.

(** The randomness of [Prove]: [sigbf] is the witness blinding factor drawn
    by [obfuscateSignature], the others are [SigRandomness]. *)
Record SigRandomness := {
  r_hidden : nat -> Z;
  r_hash : Z;
  r_com : Z;
  r_sig : Z;
  sigbf : Z
}.

Record SigCommitment := { ComToMessages : Z; SigGT : Z }.

(** Go slice indexing with an [int] index. *)
Definition nth_goZ {A} (l : list A) (i : Z) : res A :=
  if i <? 0 then RPanic else nth_go l (Z.to_nat i).

(** [l[i] = x]: out of range panics. *)
Definition set_go {A} (l : list A) (i : Z) (x : A) : res (list A) :=
  if (0 <=? i) && (i <? Z.of_nat (length l)) then ROk (<[Z.to_nat i := x]> l) else RPanic.

(** [Σ_i gens[i]^xs[i]] for [i] ranging over [xs], indexing [gens]. *)
Fixpoint sum_terms (q : Z) (gens : list Z) (off : Z) (idx : list Z) (xs : list Z) : res Z :=
  match idx, xs with
  | i :: idx', x :: xs' =>
      g ← nth_goZ gens (i + off);
      rest ← sum_terms q gens off idx' xs';
      ROk (gadd q (gmul q g x) rest)
  | _ :: _, [] => RPanic
  | [], _ => ROk 0
  end.

(** [for i, index := range indices { proof[index] = f(i) }]. *)
Fixpoint fill (indices : list Z) (val : nat -> res Z) (i : nat) (acc : list (option Z))
  : res (list (option Z)) :=
  match indices with
  | [] => ROk acc
  | index :: indices' =>
      x ← val i;
      acc' ← set_go acc index (Some x);
      fill indices' val (S i) acc'
  end.

Section Ops.
Variable cr : Crypto.

Definition obfuscateSignature (p : SigProver) (bf : Z) : res Signature :=
  sig ← randomize cr (signature (witness p));
  ROk (sig.1, gadd (q cr) sig.2 (gmul (q cr) (P (verifier p)) bf)).

Definition computeCommitment (p : SigProver) (rnd : SigRandomness) : res SigCommitment :=
  let v := verifier p in
  let n := length (hidden (witness p)) in
  if negb (Nat.eqb (length (PedersenParams v)) (length (HiddenIndices v) + 1)) then
    RErr "size of witness does not match length of Pedersen Parameters"
  else if negb (Nat.eqb (length (PK v))
                        (length (HiddenIndices v) + length (DisclosedIndices v) + 2)) then
    RErr "size of signature public key does not mathc the size of the witness"
  else
    let rh := r_hidden rnd <$> seq 0 n in
    g ← nth_go (PedersenParams v) n;
    coms ← sum_terms (q cr) (PedersenParams v) 0 (Z.of_nat <$> seq 0 n) rh;
    let com := gadd (q cr) (gmul (q cr) g (r_com rnd)) coms in
    h ← nth_go (PK v) (length (Disclosed v) + n + 1);
    ts ← sum_terms (q cr) (PK v) 1 (HiddenIndices v) rh;
    let t := gadd (q cr) (gmul (q cr) h (r_hash rnd)) ts in
    ROk {| ComToMessages := com;
           SigGT := pairing cr t (signature (witness p)).1 (Q v) (gmul (q cr) (P v) (r_sig rnd)) |}.

Definition computeChallenge (v : SigVerifier) (comToMessages : Z) (sig : Signature)
    (com : SigCommitment) : res Z :=
  match serialize cr sig with
  | ROk bytes =>
      ROk (hash_challenge cr (PedersenParams v ++ [comToMessages; ComToMessages com; P v])
                          (PK v ++ [Q v]) (SigGT com) bytes)
  | RErr _ => RErr "failed to compute challenge: error while serializing Pointcheval-Sanders signature"
  | RPanic => RPanic
  end.

(** [SigProver.Prove]. *)
Definition Prove (p : SigProver) (rnd : SigRandomness) : res SigProof :=
  let v := verifier p in
  let w := witness p in
  let n := length (hidden w) in
  if negb (Nat.eqb (length (HiddenIndices v)) n) then RErr "witness is not of the right size"
  else if negb (Nat.eqb (length (DisclosedIndices v)) (length (Disclosed v))) then
    RErr "witness is not of the right size"
  else
    sig ← obfuscateSignature p (sigbf rnd);
    com ← computeCommitment p rnd;
    chal ← computeChallenge v (CommitmentToMessages v) sig com;
    proofs ← SchnorrProve (q cr) chal
               ((r_hidden rnd <$> seq 0 n) ++ [r_com rnd; r_sig rnd; r_hash rnd])
               (hidden w ++ [comBlindingFactor w; sigbf rnd; hash w]);
    cb ← nth_go proofs n;
    sb ← nth_go proofs (n + 1);
    hb ← nth_go proofs (n + 2);
    ROk {| Challenge := chal; Hidden := take n proofs; Hash := hb; SigSignature := sig;
           SigBlindingFactor := sb; ComBlindingFactor := cb;
           Commitment := CommitmentToMessages v |}.

(** [SigVerifier.recomputeCommitments]. *)
Definition recomputeCommitments (v : SigVerifier) (p : SigProof) : res SigCommitment :=
  if negb (Z.of_nat (length (Hidden p)) + Z.of_nat (length (Disclosed v))
           =? Z.of_nat (length (PK v)) - 2) then
    RErr "length of signature public key does not match number of signed messages"
  else
    let cm := RecomputeCommitment (q cr) (PedersenParams v) (CommitmentToMessages v)
                (Hidden p ++ [ComBlindingFactor p]) (Challenge p) in
    let proof0 := repeat None (length (PK v) - 2) in
    proof1 ← fill (HiddenIndices v) (fun i => nth_go (Hidden p) i) 0 proof0;
    proof2 ← fill (DisclosedIndices v)
               (fun i => d ← nth_go (Disclosed v) i; ROk (ModMul (q cr) d (Challenge p))) 0 proof1;
    match pok_recompute cr {| PChallenge := Challenge p; PSignature := SigSignature p;
                              Messages := proof2; PHash := Hash p;
                              PBlindingFactor := SigBlindingFactor p |} with
    | ROk s => ROk {| ComToMessages := cm; SigGT := s |}
    | RErr e => RErr ("failed to verify signature proof: " ++ e)
    | RPanic => RPanic
    end.

(** [SigVerifier.Verify]:
<<
	com, err := v.recomputeCommitments(p)
	if err != nil {
		return nil
	}
	chal, err := v.computeChallenge(p.Commitment, p.Signature, com)
	if err != nil {
		return nil
	}
	if chal.Cmp(p.Challenge) != 0 {
		return errors.Errorf("invalid signature proof")
	}
	return nil
>> *)
Definition Verify (v : SigVerifier) (p : SigProof) : res unit :=
  match recomputeCommitments v p with
  | RErr _ => ROk tt
  | RPanic => RPanic
  | ROk com =>
      match computeChallenge v (Commitment p) (SigSignature p) com with
      | RErr _ => ROk tt
      | RPanic => RPanic
      | ROk chal => if chal =? Challenge p then ROk tt else RErr "invalid signature proof"
      end
  end.

End Ops.

(** An instance where randomization and serialization succeed. *)
Definition toy_sig_crypto : Crypto := {|
  q := 101;
  randomize := fun s => ROk s;
  pairing := fun a b c d => (a + b + c + d) mod 101;
  hash_challenge := fun g1 g2 gt _ => (fold_left Z.add g1 0 + fold_left Z.add g2 0 + gt) mod 101;
  serialize := fun _ => ROk "sig";
  pok_recompute := fun _ => ROk 0 |}.

End Sigproof.

(** ** The anonymous issuer verifier (package [anonym]) *)
Module Anonym.

Record Authorization := { AType : Z; AToken : Z }.

Record Verifier := {
  PedersenParams : list Z;
  Issuers : list Z;
  Auth : Authorization;
  BitLength : Z
}.

Record Signature := { AuthorizationCorrectness : string; TypeCorrectness : string }.

(** The collaborators:
    - [q]: [bn256.Order];
    - [deserialize]: [json.Unmarshal] into a [Signature];
    - [o2omp_verify coms msg gens bitLength proof]:
      [o2omp.NewVerifier(coms, msg, gens, bitLength).Verify(proof)];
    - [tc_verify type token msg pp proof]:
      [NewTypeCorrectnessVerifier(type, token, msg, pp).Verify(proof)]. *)
Record Crypto := {
  q : Z;
  deserialize : string -> res Signature;
  o2omp_verify : list Z -> string -> list Z -> Z -> string -> res unit;
  tc_verify : Z -> Z -> string -> list Z -> string -> res unit
}.

(** [commitments[k] = Auth.Type - Issuers[k]]. *)
Definition commitments (cr : Crypto) (v : Verifier) : list Z :=
  (fun i => gsub (q cr) (AType (Auth v)) i) <$> Issuers v.

(** [Verifier.Verify(message, rawsig)]. *)
Definition Verify (cr : Crypto) (v : Verifier) (message rawsig : string) : res unit :=
  if negb (Nat.eqb (length (PedersenParams v)) 3) then RErr "length of Pedersen parameters != 3"
  else
    match deserialize cr rawsig with
    | RErr _ => RErr "failed to unmarshal issuer's signature"
    | RPanic => RPanic
    | ROk sig =>
        let coms := commitments cr v in
        pp0 ← nth_go (PedersenParams v) 0;
        pp2 ← nth_go (PedersenParams v) 2;
        match o2omp_verify cr coms message [pp0; pp2] (BitLength v) (AuthorizationCorrectness sig) with
        | RErr e => RErr ("failed to verify issuer's pseudonym: " ++ e)
        | RPanic => RPanic
        | ROk _ =>
            tc_verify cr (AType (Auth v)) (AToken (Auth v)) message (PedersenParams v)
              (TypeCorrectness sig)
        end
    end.

(** An instance whose sub-proofs accept exactly the proof ["ok"]. *)
Definition toy_anon_crypto : Crypto := {|
  q := 101;
  deserialize := fun raw => ROk {| AuthorizationCorrectness := raw; TypeCorrectness := raw |};
  o2omp_verify := fun _ _ _ _ pr => if String.eqb pr "ok" then ROk tt else RErr "o2omp";
  tc_verify := fun _ _ _ _ pr => if String.eqb pr "ok" then ROk tt else RErr "type" |}.

Definition toy_anon_verifier : Verifier := {|
  PedersenParams := [1; 2; 3]; Issuers := [4; 5]; Auth := {| AType := 6; AToken := 7 |};
  BitLength := 1 |}.

End Anonym.

(** ** The ledger translator (package [translator])

    The [RWSet] is the in-memory read-write set of the transaction: a map
    from ledger keys to values and a map from keys to metadata; its
    operations do not fail. [GetState] returns [nil] ([None]) for a key
    with no value. The running [counter] is a Go [int]; it counts the
    outputs of one request and stays far below [2^63]. *)
Module translator.

(** Modelled from the spec: the ledger keys built by package [keys]
    ([CreateTokenKey], [CreateTokenRequestKey], [CreateSetupKey]) are
    deterministic and collision-free, so they are the constructors of an
    inductive type. Transfer inputs are ledger keys of this type. *)
Inductive Key :=
| TokenKey (txid : string) (index : Z)
| TokenRequestKey (txid : string)
| SetupKey.

#[global] Instance Key_eq_dec : EqDecision Key.
Proof. solve_decision. Defined.

#[global] Instance Key_countable : Countable Key.
Proof.
  refine (inj_countable'
    (fun k => match k with
              | TokenKey t i => inl (inl (t, i))
              | TokenRequestKey t => inl (inr t)
              | SetupKey => inr tt
              end)
    (fun x => match x with
              | inl (inl (t, i)) => TokenKey t i
              | inl (inr t) => TokenRequestKey t
              | inr _ => SetupKey
              end) _).
  intros []; reflexivity.
Defined.

(** Modelled from the spec: [keys.Action], [keys.ActionIssue] and
    [keys.ActionTransfer], the metadata tags of written tokens. *)
Definition Action_key : string := "action".
Definition ActionIssue : string := "issue".
Definition ActionTransfer : string := "transfer".

(** The action interfaces, as the results of their methods. *)
Record IssueAction := {
  GetIssuer : string;
  IssueNumOutputs : nat;
  GetSerializedOutputs : res (list string)
}.

Record TransferAction := {
  GetInputs : res (list Key);
  IsGraphHiding : bool;
  NumOutputs : nat;
  IsRedeemAt : nat -> bool;
  SerializeOutputAt : nat -> res string
}.

Record SetupAction := { GetSetupParameters : res string }.

(** The dynamic type of [Write]'s argument. *)
Inductive TokenAction :=
| Issue (a : IssueAction)
| Transfer (a : TransferAction)
| Setup (a : SetupAction)
| UnknownAction.

Record Translator := {
  IssuingValidator : string -> string -> res unit;
  TxID : string
}.

Record St := {
  rw : gmap Key string;
  meta : gmap Key (list (string * string));
  counter : Z
}.

(** The translator's methods thread the RW set and the counter, and stop
    at the first error; writes done before an error stay. *)
Definition TM (A : Type) : Type := St -> St * res A.

#[global] Instance TM_ret : MRet TM := fun A a st => (st, ROk a).
#[global] Instance TM_bind : MBind TM := fun A B f m st =>
  let '(st', r) := m st in
  match r with
  | ROk a => f a st'
  | RErr e => (st', RErr e)
  | RPanic => (st', RPanic)
  end.

Definition lift {A} (r : res A) : TM A := fun st => (st, r).
Definition get : TM St := fun st => (st, ROk st).
Definition modify (f : St -> St) : TM unit := fun st => (f st, ROk tt).

Definition GetState (st : St) (k : Key) : option string := rw st !! k.

(** [len(bytes)] of [GetState]. *)
Definition state_len (st : St) (k : Key) : nat :=
  String.length (default "" (GetState st k)).

Definition SetState (k : Key) (v : string) (st : St) : St :=
  {| rw := <[k := v]> (rw st); meta := meta st; counter := counter st |}.

Definition DeleteState (k : Key) (st : St) : St :=
  {| rw := delete k (rw st); meta := meta st; counter := counter st |}.

Definition SetStateMetadata (k : Key) (m : list (string * string)) (st : St) : St :=
  {| rw := rw st; meta := <[k := m]> (meta st); counter := counter st |}.

Definition add_counter (n : nat) (st : St) : St :=
  {| rw := rw st; meta := meta st; counter := counter st + Z.of_nat n |}.

(** [errors.Wrapf(err, msg)]. *)
Definition wrap {A} (r : res A) (msg : string) : res A :=
  match r with
  | RErr e => RErr (msg ++ ": " ++ e)
  | r => r
  end.

(** [for i, x := range l { ... }], stopping at the first error. *)
Fixpoint for_i {A} (f : nat -> A -> TM unit) (i : nat) (l : list A) : TM unit :=
  match l with
  | [] => mret tt
  | x :: l => _ ← f i x; for_i f (S i) l
  end.

Definition for_ {A} (f : A -> TM unit) (l : list A) : TM unit :=
  for_i (fun _ => f) 0 l.

Definition checkTokenDoesNotExist (w : Translator) (st : St) (index : Z) : res unit :=
  if Nat.eqb (state_len st (TokenKey (TxID w) index)) 0 then ROk tt
  else RErr "token already exists".

Definition checkIssuePolicy (w : Translator) (issue : IssueAction) : res unit :=
  IssuingValidator w (GetIssuer issue) "".

Definition checkIssue (w : Translator) (st : St) (issue : IssueAction) : res unit :=
  _ ← wrap (checkIssuePolicy w issue) "invalid issue: verification of issue policy failed";
  _ ← mapM (fun i => checkTokenDoesNotExist w st (counter st + Z.of_nat i))
           (seq 0 (IssueNumOutputs issue));
  ROk tt.

Definition checkTransfer (w : Translator) (st : St) (t : TransferAction) : res unit :=
  keys ← wrap (GetInputs t) "invalid transfer: failed getting input IDs";
  _ ← (if negb (IsGraphHiding t) then
         mapM (fun key => if Nat.eqb (state_len st key) 0
                          then RErr "invalid transfer: input is already spent"
                          else ROk tt) keys
       else
         mapM (fun key => if negb (Nat.eqb (state_len st key) 0)
                          then RErr "invalid transfer: input is already spent"
                          else ROk tt) keys);
  _ ← mapM (fun i => if IsRedeemAt t i then ROk tt
                     else checkTokenDoesNotExist w st (counter st + Z.of_nat i))
           (seq 0 (NumOutputs t));
  ROk tt.

Definition checkAction (w : Translator) (st : St) (a : TokenAction) : res unit :=
  match a with
  | Issue ia => checkIssue w st ia
  | Transfer t => checkTransfer w st t
  | Setup _ => ROk tt
  | UnknownAction => RErr "unknown token action"
  end.

Definition checkProcess (w : Translator) (st : St) (a : TokenAction) : res unit :=
  checkAction w st a.

Definition commitSetupAction (setup : SetupAction) : TM unit :=
  raw ← lift (GetSetupParameters setup);
  modify (SetState SetupKey raw).

Definition commitIssueAction (w : Translator) (issueAction : IssueAction) : TM unit :=
  st ← get;
  let base := counter st in
  outputs ← lift (GetSerializedOutputs issueAction);
  _ ← for_i (fun i output =>
         let outputID := TokenKey (TxID w) (base + Z.of_nat i) in
         _ ← modify (SetState outputID output);
         modify (SetStateMetadata outputID [(Action_key, ActionIssue)])) 0 outputs;
  modify (add_counter (length outputs)).

Definition spendTokens (ids : list Key) (graphHiding : bool) : TM unit :=
  if negb graphHiding then
    for_ (fun id => _ ← modify (DeleteState id); modify (SetStateMetadata id [])) ids
  else
    for_ (fun id => modify (SetState id "true")) ids.

Definition commitTransferAction (w : Translator) (transferAction : TransferAction) : TM unit :=
  st ← get;
  let base := counter st in
  _ ← for_ (fun i =>
         if IsRedeemAt transferAction i then mret tt
         else
           let outputID := TokenKey (TxID w) (base + Z.of_nat i) in
           bytes ← lift (SerializeOutputAt transferAction i);
           _ ← modify (SetState outputID bytes);
           modify (SetStateMetadata outputID [(Action_key, ActionTransfer)]))
       (seq 0 (NumOutputs transferAction));
  ids ← lift (GetInputs transferAction);
  _ ← spendTokens ids (IsGraphHiding transferAction);
  modify (add_counter (NumOutputs transferAction)).

Definition commitAction (w : Translator) (a : TokenAction) : TM unit :=
  match a with
  | Issue ia => commitIssueAction w ia
  | Transfer t => commitTransferAction w t
  | Setup s => commitSetupAction s
  | UnknownAction => mret tt
  end.

Definition commitProcess (w : Translator) (a : TokenAction) : TM unit :=
  commitAction w a.

Definition Write (w : Translator) (a : TokenAction) : TM unit :=
  st ← get;
  _ ← lift (checkProcess w st a);
  commitProcess w a.

Definition CommitTokenRequest (w : Translator) (raw : string) : TM unit :=
  st ← get;
  let key := TokenRequestKey (TxID w) in
  match GetState st key with
  | Some _ => lift (RErr "failed to write token request: token request with same ID already exists")
  | None => modify (SetState key raw)
  end.

(** A ledger history: [Write]s of translators, and the creation of a new
    translator ([New]: counter 0) for the next transaction. *)
Inductive Step :=
| WriteStep (w : Translator) (a : TokenAction)
| NewTranslator.

Fixpoint run (steps : list Step) (st : St) : St :=
  match steps with
  | [] => st
  | WriteStep w a :: steps => run steps (fst (Write w a st))
  | NewTranslator :: steps =>
      run steps {| rw := rw st; meta := meta st; counter := 0 |}
  end.

(** The spent status of key [K] seen by [checkTransfer] in mode [gh]:
    no value in non-graph-hiding mode, a value in graph-hiding mode. *)
Definition spent (gh : bool) (st : St) (K : Key) : Prop :=
  if gh then state_len st K <> 0%nat else state_len st K = 0%nat.

(** An action of the mode [gh]: its transfers have that mode. *)
Definition action_in_mode (gh : bool) (a : TokenAction) : Prop :=
  match a with Transfer t => IsGraphHiding t = gh | _ => True end.

(** A later step of mode [gh] whose translator's outputs are not [K]. *)
Definition step_ok (gh : bool) (K : Key) (s : Step) : Prop :=
  match s with
  | WriteStep w a => (forall n, K <> TokenKey (TxID w) n) /\ action_in_mode gh a
  | NewTranslator => True
  end.

(** An issuing validator accepting every issuer. *)
Definition toy_translator (txid : string) : Translator :=
  {| IssuingValidator := fun _ _ => ROk tt; TxID := txid |}.

(** Preservation of a property of the state by a computation, whatever
    its result. *)
Definition preserves {A} (P : St -> Prop) (m : TM A) : Prop :=
  forall st, P st -> P (fst (m st)).

(** A ledger holding one token [TokenKey "tx0" 0], and actions on it. *)
Definition toy_key : Key := TokenKey "tx0" 0.

Definition toy_st : St := {| rw := {[toy_key := "tok"]}; meta := ∅; counter := 0 |}.

Definition toy_transfer (gh : bool) : TransferAction := {|
  GetInputs := ROk [toy_key]; IsGraphHiding := gh; NumOutputs := 2;
  IsRedeemAt := fun i => Nat.eqb i 1; SerializeOutputAt := fun _ => ROk "out" |}.

Definition toy_issue : IssueAction := {|
  GetIssuer := "issuer"; IssueNumOutputs := 1; GetSerializedOutputs := ROk ["new"] |}.

End translator.

(** ** Transfer preparation in the token request (package [token])

    The vault, the certification client, the selector, the wallet and the
    driver's [Transfer] and [VerifyTransfer] are collaborators, given by
    their results. A [token.Quantity] is an interface: [None] is the [nil]
    interface, and a method call on it panics. [ToQuantity(s, 65)] is the
    collaborator [ToQuantity]; [Quantity.Add] is exact. *)
Module token.

Record Id := { TxId : string; Index : Z }.

Record UnspentToken := { UId : Id; UType : string; UQuantity : string }.

(** An output [token2.Token]: its owner identity, type ([Type_]: [Type] is
    a keyword) and quantity (the decimal of the value). *)
Record Token := { Owner : string; Type_ : string; Quantity : Z }.

(** [token2.Quantity], an interface. *)
Definition QuantityI : Type := option Z.

Definition SelectFn : Type := Z -> string -> res (list Id * QuantityI).

Record Env := {
  GetTokens : list Id -> res (list UnspentToken);
  ToQuantity : string -> res Z;
  RequestCertification : list Id -> res unit;
  NewSelector : res SelectFn;
  GetRecipientIdentity : res string;
  tms_Transfer : list Id -> list Token -> res (string * string);
  VerifyTransfer : string -> string -> res unit
}.

Record TransferOptions := { TokenIDs : list Id; Selector : option SelectFn }.

Definition NewQuantityFromUInt64 (v : Z) : QuantityI := Some v.

Definition Cmp (a b : QuantityI) : res Z :=
  match a, b with
  | Some x, Some y => ROk (if x <? y then -1 else if x =? y then 0 else 1)
  | _, _ => RPanic
  end.

Definition Sub (a b : QuantityI) : res Z :=
  match a, b with
  | Some x, Some y => ROk (x - y)
  | _, _ => RPanic
  end.

(** [view.Identity.IsNone]: the identity has no bytes. *)
Definition IsNone (id : string) : bool := Nat.eqb (String.length id) 0.

(** [errors.Wrap] and [errors.WithMessagef] of a non-nil error. *)
Definition wrap {A} (r : res A) (msg : string) : res A :=
  match r with
  | RErr e => RErr (msg ++ ": " ++ e)
  | r => r
  end.

(** The loop of [parseInputIDs] over the queried tokens. [None] is the
    return taken on a type mismatch: [errors.WithMessagef(err, ...)] with
    [err] the (nil) error of [GetTokens], which is [nil], so the function
    returns [nil, nil, "", nil]. *)
Fixpoint parse_loop (env : Env) (toks : list UnspentToken) (typ : string) (sum : Z)
    : res (option (string * Z)) :=
  match toks with
  | [] => ROk (Some (typ, sum))
  | tok :: toks =>
      let typ := if Nat.eqb (String.length typ) 0 then UType tok else typ in
      if negb (String.eqb typ (UType tok)) then ROk None
      else
        q ← wrap (ToQuantity env (UQuantity tok)) "failed unmarshalling token quantity";
        parse_loop env toks typ (sum + q)
  end.

Definition parseInputIDs (env : Env) (inputs : list Id) : res (list Id * QuantityI * string) :=
  inputTokens ← wrap (GetTokens env inputs) "failed querying tokens ids";
  r ← parse_loop env inputTokens "" 0;
  match r with
  | None => ROk ([], None, "")
  | Some (typ, sum) => ROk (inputs, Some sum, typ)
  end.

(** [outputSum += value] on [uint64]. *)
Definition outputSum (values : list Z) : Z :=
  fold_left (fun acc v => (acc + v) mod 2 ^ 64) values 0.

Definition prepareTransfer (env : Env) (redeem : bool) (typ : string) (values : list Z)
    (owners : list string) (transferOpts : TransferOptions) : res (list Id * list Token) :=
  _ ← mapM (fun owner =>
         if redeem then
           if negb (IsNone owner) then RErr "all recipients must be nil" else ROk tt
         else
           if IsNone owner then RErr "all recipients should be defined" else ROk tt) owners;
  '(tokenIDs, inputSum, typ) ←
    (if negb (Nat.eqb (length (TokenIDs transferOpts)) 0) then
       '(tokenIDs, inputSum, typ) ← wrap (parseInputIDs env (TokenIDs transferOpts))
                                      "failed parsing passed input tokens";
       _ ← wrap (RequestCertification env tokenIDs) "failed certifiying inputs";
       ROk (tokenIDs, inputSum, typ)
     else ROk ([], None, typ));
  outputTokens ← mapM (fun '(i, value) =>
                   owner ← nth_go owners i;
                   ROk {| Owner := owner; Type_ := typ; Quantity := value |})
                 (zip (seq 0 (length values)) values);
  let outputSum := outputSum values in
  let qOutputSum := NewQuantityFromUInt64 outputSum in
  '(tokenIDs, inputSum) ←
    (if Nat.eqb (length (TokenIDs transferOpts)) 0 then
       selector ← (match Selector transferOpts with
                   | Some s => ROk s
                   | None => wrap (NewSelector env) "failed getting default selector"
                   end);
       wrap (selector outputSum typ) "failed selecting tokens"
     else ROk (tokenIDs, inputSum));
  c ← Cmp inputSum qOutputSum;
  if Z.eqb c 1 then
    diff ← Sub inputSum qOutputSum;
    pseudonym ← wrap (GetRecipientIdentity env) "failed getting recipient identity for the rest";
    ROk (tokenIDs, outputTokens ++ [{| Owner := pseudonym; Type_ := typ; Quantity := diff |}])
  else ROk (tokenIDs, outputTokens).

(** [Request.Transfer]: the driver builds the transfer action and its
    proofs ([tms.Transfer]), which are then checked ([VerifyTransfer]). *)
Definition Transfer (env : Env) (typ : string) (values : list Z) (owners : list string)
    (transferOpts : TransferOptions) : res string :=
  '(tokenIDs, outputTokens) ← wrap (prepareTransfer env false typ values owners transferOpts)
                                "failed preparing transfer";
  '(transfer, transferMetadata) ← wrap (tms_Transfer env tokenIDs outputTokens)
                                    "failed creating transfer action";
  _ ← wrap (VerifyTransfer env transfer transferMetadata) "failed checking generated proof";
  ROk transfer.

(** A vault with tokens [ABC:30] at [tx0:0], [ABC:70] at [tx0:1] and
    [XYZ:5] at [tx0:2]; the driver accepts every transfer. *)
Definition toy_id (i : Z) : Id := {| TxId := "tx0"; Index := i |}.

Definition toy_vault (i : Id) : res UnspentToken :=
  if Z.eqb (Index i) 0 then ROk {| UId := i; UType := "ABC"; UQuantity := "30" |}
  else if Z.eqb (Index i) 1 then ROk {| UId := i; UType := "ABC"; UQuantity := "70" |}
  else ROk {| UId := i; UType := "XYZ"; UQuantity := "5" |}.

Definition toy_env : Env := {|
  GetTokens := fun ids => mapM toy_vault ids;
  ToQuantity := fun s => if String.eqb s "30" then ROk 30
                         else if String.eqb s "70" then ROk 70
                         else if String.eqb s "5" then ROk 5
                         else RErr "invalid quantity";
  RequestCertification := fun _ => ROk tt;
  NewSelector := RErr "no selector";
  GetRecipientIdentity := ROk "alice";
  tms_Transfer := fun _ _ => ROk ("transfer", "metadata");
  VerifyTransfer := fun _ _ => ROk tt |}.

End token.

(** ** The translator's read operations (package [translator])

    [token2.Id.Index] is a [uint32], so [int(id.Index)] keeps its value. *)
Module translator_read.
Import translator.

(** [Translator.ReadSetupParameters]: the value under the setup key, [nil]
    ([None]) when there is none. *)
Definition ReadSetupParameters (w : Translator) : TM (option string) :=
  st ← get;
  mret (GetState st SetupKey).

(** The loop of [QueryTokens]: the values found, in order, and one error per
    id whose token key holds no bytes. *)
Fixpoint query_loop (st : St) (ids : list token.Id) (res_ : list string) (errs : list string)
    : list string * list string :=
  match ids with
  | [] => (res_, errs)
  | id :: ids =>
      let outputID := TokenKey (token.TxId id) (token.Index id) in
      let bytes := default "" (GetState st outputID) in
      if Nat.eqb (String.length bytes) 0 then
        query_loop st ids res_ (errs ++ ["output for key does not exist"])
      else query_loop st ids (res_ ++ [bytes]) errs
  end.

(** [Translator.QueryTokens]. *)
Definition QueryTokens (w : Translator) (ids : list token.Id) : TM (list string) :=
  st ← get;
  let '(res_, errs) := query_loop st ids [] [] in
  if negb (Nat.eqb (length errs) 0) then lift (RErr "failed quering tokens")
  else mret res_.

(** A later ledger step that leaves the setup key alone: no setup action,
    and no transfer listing the setup key among its inputs. *)
Definition keeps_setup (s : Step) : Prop :=
  match s with
  | WriteStep _ (Setup _) => False
  | WriteStep _ (Transfer t) => forall ids, GetInputs t = ROk ids -> SetupKey ∉ ids
  | _ => True
  end.

End translator_read.

(** ** The selector service (package [selector])

    The management service of a (network, channel, namespace) triple is
    given by the names it reports ([tms_names]); the locker provider is
    given by the locker its [New] returns at its [n]-th call. Locks and
    logging have no effect on the result. *)
Module selector.

Section Service.
Variable Locker : Type.
Variable tms_names : string -> string -> string -> string * string * string.
Variable provider_New : string -> string -> string -> nat -> Locker.

(** [selectorService]; [provider_calls] counts the calls of the
    provider's [New] so far. *)
Record selectorService := {
  numRetry : Z;
  timeout : Z;
  requestCertification : bool;
  lockers : gmap string Locker;
  provider_calls : nat
}.

(** The [manager] built by [newManager]. *)
Record manager := {
  mlocker : Locker;
  mnumRetry : Z;
  mtimeout : Z;
  mrequestCertification : bool
}.

Definition NewProvider (numRetry timeout : Z) : selectorService :=
  {| numRetry := numRetry; timeout := timeout; requestCertification := true;
     lockers := ∅; provider_calls := 0 |}.

(** [selectorService.SelectorManager]. *)
Definition SelectorManager (s : selectorService) (network channel namespace : string)
    : selectorService * manager :=
  let '(n, c, ns) := tms_names network channel namespace in
  let key := (n ++ c ++ ns)%string in
  let '(locker, s') :=
    match lockers s !! key with
    | Some locker => (locker, s)
    | None =>
        let locker := provider_New network channel namespace (provider_calls s) in
        (locker, {| numRetry := numRetry s; timeout := timeout s;
                    requestCertification := requestCertification s;
                    lockers := <[key := locker]> (lockers s);
                    provider_calls := S (provider_calls s) |})
    end in
  (s', {| mlocker := locker; mnumRetry := numRetry s'; mtimeout := timeout s';
          mrequestCertification := requestCertification s' |}).

(** The setters; [SetNumRetries] converts its [uint] argument with
    [int(n)]. *)
Definition SetNumRetries (s : selectorService) (n : Z) : selectorService :=
  {| numRetry := Int64 n; timeout := timeout s; requestCertification := requestCertification s;
     lockers := lockers s; provider_calls := provider_calls s |}.

Definition SetRetryTimeout (s : selectorService) (t : Z) : selectorService :=
  {| numRetry := numRetry s; timeout := t; requestCertification := requestCertification s;
     lockers := lockers s; provider_calls := provider_calls s |}.

Definition SetRequestCertification (s : selectorService) (v : bool) : selectorService :=
  {| numRetry := numRetry s; timeout := timeout s; requestCertification := v;
     lockers := lockers s; provider_calls := provider_calls s |}.

End Service.

End selector.

(** ** Token request and its metadata (package [api]) *)
Module api.

(** [TokenRequest]: the serialized issue and transfer actions and their
    signatures. *)
Record TokenRequest := {
  Issues : list string;
  Transfers : list string;
  Signatures : list string;
  AuditorSignature : string
}.

Record IssueMetadata := {
  Issuer : string;
  Outputs : list string;
  TokenInfo : list string;
  Receivers : list string;
  AuditInfos : list string
}.

(** [TransferMetadata]; the fields shared with [IssueMetadata] carry a [T]
    prefix, since record fields share one name space. *)
Record TransferMetadata := {
  TokenIDs : list token.Id;
  TOutputs : list string;
  TTokenInfo : list string;
  Senders : list string;
  SenderAuditInfos : list string;
  TReceivers : list string;
  ReceiverIsSender : list bool;
  ReceiverAuditInfos : list string
}.

(** [TokenRequestMetadata]: [Issues] and [Transfers] are [MIssues] and
    [MTransfers] here. *)
Record TokenRequestMetadata := {
  MIssues : list IssueMetadata;
  MTransfers : list TransferMetadata
}.

(** [TokenRequestMetadata.TokenInfos]: the loops append the token
    information of every issue, then of every transfer. *)
Definition TokenInfos (m : TokenRequestMetadata) : list string :=
  let res_ := fold_left (fun res_ issue => res_ ++ TokenInfo issue) (MIssues m) [] in
  fold_left (fun res_ transfer => res_ ++ TTokenInfo transfer) (MTransfers m) res_.






End api.

(** ** Requests (package [token]) *)
Module request.
Import api.

Record Request := {
  TxID : string;
  Actions : TokenRequest;
  Metadata : TokenRequestMetadata
}.

(** [Request.Issues] and [Request.Transfers]: the issuers with their
    receivers, and the senders with their receivers. *)
Definition Issues (t : Request) : list (string * list string) :=
  (fun issue => (Issuer issue, Receivers issue)) <$> MIssues (Metadata t).
Definition Transfers (t : Request) : list (list string * list string) :=
  (fun transfer => (Senders transfer, TReceivers transfer)) <$> MTransfers (Metadata t).

(** [Request.Import]: the four loops append the actions and metadata of
    [request] to those of [t]; it returns [nil]. *)
Definition Import (t request : Request) : Request :=
  {| TxID := TxID t;
     Actions := {| api.Issues := fold_left (fun l issue => l ++ [issue]) (api.Issues (Actions request))
                                            (api.Issues (Actions t));
                   api.Transfers := fold_left (fun l transfer => l ++ [transfer])
                                              (api.Transfers (Actions request)) (api.Transfers (Actions t));
                   Signatures := Signatures (Actions t);
                   AuditorSignature := AuditorSignature (Actions t) |};
     Metadata := {| MIssues := fold_left (fun l issue => l ++ [issue]) (MIssues (Metadata request))
                                         (MIssues (Metadata t));
                    MTransfers := fold_left (fun l transfer => l ++ [transfer])
                                            (MTransfers (Metadata request)) (MTransfers (Metadata t)) |} |}.

(** [errors.Wrapf] with the indices of the format rendered in decimal. *)
Definition idx1 (i : nat) : string := "[" ++ pretty i ++ "]".
Definition idx2 (i j : nat) : string := "[" ++ pretty i ++ "," ++ pretty j ++ "]".

(** The token in the clear returned by [DeserializeToken]: its owner (a
    pointer, [None] when nil) with its raw bytes, its type and quantity. *)
Record ClearToken := { COwner : option string; CType : string; CQuantity : string }.

Record Output := {
  ActionIndex : nat;
  OOwner : string;
  EnrollmentID : string;
  OType : string;
  OQuantity : string
}.

Record Input := {
  IActionIndex : nat;
  Id : token.Id;
  IOwner : string;
  IEnrollmentID : string
}.

(** [for i, x := range l] where the body may fail, collecting the
    elements the body appends. *)
Fixpoint range_go {A B} (f : nat -> A -> res (list B)) (i : nat) (l : list A) : res (list B) :=
  match l with
  | [] => ROk []
  | x :: l =>
      ys ← f i x;
      zs ← range_go f (S i) l;
      ROk (ys ++ zs)
  end.

(** The services of the token management service [tms] used by the
    request: action (de)serialization, their outputs and verification, the
    tokens in the clear and the enrollment IDs of audit information. *)
Section Tms.
Variable IssueAction TransferAction ActionOutput : Type.
Variable DeserializeIssueAction : string -> res IssueAction.
Variable DeserializeTransferAction : string -> res TransferAction.
Variable IssueNumOutputs : IssueAction -> Z.
Variable TransferNumOutputs : TransferAction -> Z.
Variable IssueGetOutputs : IssueAction -> list ActionOutput.
Variable TransferGetOutputs : TransferAction -> list ActionOutput.
Variable SerializeOutput : ActionOutput -> res string.
Variable VerifyIssue : IssueAction -> list string -> res unit.
Variable VerifyTransfer : TransferAction -> list string -> res unit.
Variable DeserializeToken : string -> string -> res ClearToken.
Variable GetEnrollmentID : string -> res string.

(** [Request.countOutputs]: [sum += action.NumOutputs()] on [int]. *)
Fixpoint count_loop {A} (deserialize : string -> res A) (num : A -> Z) (l : list string) (sum : Z)
    : res Z :=
  match l with
  | [] => ROk sum
  | raw :: l =>
      action ← deserialize raw;
      count_loop deserialize num l (Int64 (sum + num action))
  end.

Definition countOutputs (t : Request) : res Z :=
  sum ← count_loop DeserializeIssueAction IssueNumOutputs (api.Issues (Actions t)) 0;
  count_loop DeserializeTransferAction TransferNumOutputs (api.Transfers (Actions t)) sum.

(** [Request.Outputs]. *)
Definition Outputs (t : Request) : res (list Output) :=
  issueOuts ← range_go (fun i issue =>
    action ← token.wrap (DeserializeIssueAction issue) ("failed deserializing issue action " ++ idx1 i);
    range_go (fun j output =>
      raw ← token.wrap (SerializeOutput output) ("failed deserializing issue action output " ++ idx2 i j);
      md ← nth_go (MIssues (Metadata t)) i;
      info ← nth_go (TokenInfo md) j;
      tok ← token.wrap (DeserializeToken raw info)
              ("failed getting issue action output in the clear " ++ idx2 i j);
      md ← nth_go (MIssues (Metadata t)) i;
      ai ← nth_go (AuditInfos md) j;
      eID ← token.wrap (GetEnrollmentID ai) ("failed getting enrollment id " ++ idx2 i j);
      owner ← (match COwner tok with Some o => ROk o | None => RPanic end);
      ROk [{| ActionIndex := i; OOwner := owner; EnrollmentID := eID;
              OType := CType tok; OQuantity := CQuantity tok |}])
      0 (IssueGetOutputs action)) 0 (api.Issues (Actions t));
  transferOuts ← range_go (fun i transfer =>
    action ← token.wrap (DeserializeTransferAction transfer) ("failed deserializing transfer action " ++ idx1 i);
    range_go (fun j output =>
      raw ← token.wrap (SerializeOutput output) ("failed deserializing transfer action output " ++ idx2 i j);
      md ← nth_go (MTransfers (Metadata t)) i;
      info ← nth_go (TTokenInfo md) j;
      tok ← token.wrap (DeserializeToken raw info)
              ("failed getting transfer action output in the clear " ++ idx2 i j);
      owner ← (match COwner tok with Some o => ROk o | None => RPanic end);
      eID ← (if negb (Nat.eqb (String.length owner) 0) then
               md ← nth_go (MTransfers (Metadata t)) i;
               ai ← nth_go (ReceiverAuditInfos md) j;
               token.wrap (GetEnrollmentID ai) ("failed getting enrollment id " ++ idx2 i j)
             else ROk "");
      ROk [{| ActionIndex := i; OOwner := owner; EnrollmentID := eID;
              OType := CType tok; OQuantity := CQuantity tok |}])
      0 (TransferGetOutputs action)) 0 (api.Transfers (Actions t));
  ROk (issueOuts ++ transferOuts).

(** [Request.Inputs]; the input stream is the list of inputs. *)
Definition Inputs (t : Request) : res (list Input) :=
  range_go (fun i _ =>
    meta ← nth_go (MTransfers (Metadata t)) i;
    range_go (fun j id =>
      md ← nth_go (MTransfers (Metadata t)) i;
      ai ← nth_go (SenderAuditInfos md) j;
      eID ← token.wrap (GetEnrollmentID ai) ("failed getting enrollment id " ++ idx2 i j);
      owner ← nth_go (Senders meta) j;
      ROk [{| IActionIndex := i; Id := id; IOwner := owner; IEnrollmentID := eID |}])
      0 (TokenIDs meta)) 0 (api.Transfers (Actions t)).

(** [Request.Verify]. *)
Definition Verify (t : Request) : res unit :=
  _ ← range_go (fun i issue =>
    action ← token.wrap (DeserializeIssueAction issue) "failed deserializing issue action";
    md ← nth_go (MIssues (Metadata t)) i;
    _ ← token.wrap (VerifyIssue action (TokenInfo md)) "failed verifying issue action";
    ROk ([] : list unit)) 0 (api.Issues (Actions t));
  _ ← range_go (fun i transfer =>
    action ← token.wrap (DeserializeTransferAction transfer) "failed deserializing transfer action";
    md ← nth_go (MTransfers (Metadata t)) i;
    _ ← token.wrap (VerifyTransfer action (TTokenInfo md)) "failed verifying transfer action";
    ROk ([] : list unit)) 0 (api.Transfers (Actions t));
  _ ← token.wrap (Inputs t) "failed verifying inputs";
  _ ← token.wrap (Outputs t) "failed verifying outputs";
  ROk tt.

(** [Request.IsValid]. *)
Definition IsValid (t : Request) : res unit :=
  numTokens ← token.wrap (countOutputs t) "failed extracting tokens";
  let tis := TokenInfos (Metadata t) in
  if negb (numTokens =? Z.of_nat (length tis)) then
    RErr "invalid transaction, the number of tokens differs from the number of token info"
  else Verify t.

(** [Request.Issue] with the issuer wallet's [GetIssuerIdentity], and
    [tms.Issue], [issue.Serialize], [issue.GetSerializedOutputs] and
    [tms.GetAuditInfo]. The request is updated in place: the result pairs
    the request after the call with the returned value. *)
Variable GetIssuerIdentity : string -> res string.
Variable tms_Issue : string -> string -> list Z -> list string -> res (IssueAction * list string * string).
Variable SerializeIssue : IssueAction -> res string.
Variable GetSerializedOutputs : IssueAction -> res (list string).
Variable GetAuditInfo : string -> res string.

Definition Issue (t : Request) (receiver typ : string) (q : Z) : Request * res IssueAction :=
  if token.IsNone receiver then (t, RErr "all recipients should be defined") else
  match GetIssuerIdentity typ with
  | RErr e => (t, RErr ("failed getting issuer identity for type [" ++ typ ++ "]: " ++ e))
  | RPanic => (t, RPanic)
  | ROk id =>
  match tms_Issue id typ [q] [receiver] with
  | RErr e => (t, RErr e)
  | RPanic => (t, RPanic)
  | ROk (issue, tokenInfos, issuer) =>
  match SerializeIssue issue with
  | RErr e => (t, RErr e)
  | RPanic => (t, RPanic)
  | ROk raw =>
  let t1 := {| TxID := TxID t;
               Actions := {| api.Issues := api.Issues (Actions t) ++ [raw];
                             api.Transfers := api.Transfers (Actions t);
                             Signatures := Signatures (Actions t);
                             AuditorSignature := AuditorSignature (Actions t) |};
               Metadata := Metadata t |} in
  match GetSerializedOutputs issue with
  | RErr e => (t1, RErr e)
  | RPanic => (t1, RPanic)
  | ROk outputs =>
  match GetAuditInfo receiver with
  | RErr e => (t1, RErr e)
  | RPanic => (t1, RPanic)
  | ROk auditInfo =>
  ({| TxID := TxID t1; Actions := Actions t1;
      Metadata := {| MIssues := MIssues (Metadata t1) ++
                       [{| Issuer := issuer; api.Outputs := outputs; TokenInfo := tokenInfos;
                           Receivers := [receiver]; AuditInfos := [auditInfo] |}];
                     MTransfers := MTransfers (Metadata t1) |} |}, ROk issue)
  end end end end end.

End Tms.

Arguments countOutputs {IssueAction TransferAction}.
Arguments Outputs {IssueAction TransferAction ActionOutput}.
Arguments Verify {IssueAction TransferAction ActionOutput}.
Arguments IsValid {IssueAction TransferAction ActionOutput}.
Arguments Issue {IssueAction}.

End request.

(* ================================================================== *)
(** * Proofs *)

(** ** Digit decomposition *)

Lemma pow_exact_b_spec base exponent j :
  pow_exact_b base exponent = true -> (j <= exponent)%nat ->
  pow_int64 base (Z.of_nat j) = base ^ Z.of_nat j.
Proof.
  unfold pow_exact_b. rewrite forallb_forall. intros H Hj.
  apply Z.eqb_eq, H, in_seq. lia.
Qed.

Lemma digit_bound base v i : 1 <= base -> 0 <= v -> 0 <= digit base v i < base.
Proof.
  intros Hb Hv. unfold digit. apply Z.rem_bound_pos; [|lia].
  apply Z.quot_pos; [lia|]. pose proof (Z.pow_pos_nonneg base (Z.of_nat i)). lia.
Qed.

Lemma digits_value_digits base v n :
  1 <= base -> 0 <= v -> digits_value base (digits base v n) = Z.rem v (base ^ Z.of_nat n).
Proof.
  intros Hb. revert v. induction n as [|n IH]; intros v Hv.
  - simpl. rewrite Z.rem_1_r. reflexivity.
  - unfold digits. cbn [seq fmap list_fmap digits_value].
    rewrite <- fmap_S_seq, <- list_fmap_compose.
    assert (Hd : (digit base v ∘ S) <$> seq 0 n = digits base (Z.quot v base) n).
    { unfold digits. apply list_fmap_ext. intros i x _. unfold compose, digit.
      rewrite Nat2Z.inj_succ, Z.pow_succ_r by lia. rewrite Z.quot_quot by lia.
      reflexivity. }
    rewrite Hd, IH by (apply Z.quot_pos; lia).
    rewrite Nat2Z.inj_succ, Z.pow_succ_r by lia.
    unfold digit. simpl. rewrite Z.quot_1_r.
    rewrite Z.mod_mul_r; [reflexivity|lia|].
    pose proof (Z.pow_pos_nonneg base (Z.of_nat n)). lia.
Qed.

Lemma digits_lookup base v n i :
  (i < n)%nat -> digits base v n !! i = Some (digit base v i).
Proof.
  intros Hi. unfold digits. rewrite list_lookup_fmap, lookup_seq_lt by exact Hi.
  reflexivity.
Qed.

Lemma digits_length base v n : length (digits base v n) = n.
Proof. unfold digits. rewrite length_fmap, length_seq. reflexivity. Qed.

(** One step of the loop: the quotient by [base^j] of the remainder modulo
    [base^(j+1)] is digit [j], the new remainder is taken modulo [base^j]. *)
Lemma digit_step base v j :
  1 <= base -> 0 <= v ->
  Z.quot (Z.rem v (base ^ Z.of_nat (S j))) (base ^ Z.of_nat j) = digit base v j /\
  Z.rem (Z.rem v (base ^ Z.of_nat (S j))) (base ^ Z.of_nat j) = Z.rem v (base ^ Z.of_nat j).
Proof.
  intros Hb Hv. pose proof (Z.pow_pos_nonneg base (Z.of_nat j)) as Hp.
  rewrite Nat2Z.inj_succ, Z.pow_succ_r, Z.mul_comm by lia.
  rewrite Z.mod_mul_r by lia.
  assert (H1 : 0 <= Z.rem v (base ^ Z.of_nat j) < base ^ Z.of_nat j)
    by (apply Z.rem_bound_pos; lia).
  assert (H2 : 0 <= digit base v j < base) by (apply digit_bound; lia).
  unfold digit in *.
  set (x := Z.rem v (base ^ Z.of_nat j)) in *.
  set (y := Z.rem (Z.quot v (base ^ Z.of_nat j)) base) in *.
  set (P := base ^ Z.of_nat j) in *.
  assert (Hn : 0 <= x + P * y) by nia.
  rewrite Z.quot_div_nonneg, Z.rem_mod_nonneg by lia.
  rewrite (Z.mul_comm P y), Z.div_add, Z.mod_add by lia.
  rewrite (Z.div_small _ _ H1), (Z.mod_small _ _ H1). split; lia.
Qed.

Lemma digits_loop_spec base exponent v :
  1 <= base -> 0 <= v -> pow_exact_b base exponent = true ->
  forall (j : nat) (values : list Z),
  (j < exponent)%nat -> length values = exponent ->
  (forall i, (i = 0 \/ j < i)%nat -> (i < exponent)%nat ->
     values !! i = Some (digit base v i)) ->
  digits_loop base j (Z.rem v (base ^ Z.of_nat (S j))) values
  = ROk (digits base v exponent).
Proof.
  intros Hb Hv Hexact j. induction j as [|j IH]; intros values Hj Hlen Hval.
  - simpl. f_equal. apply list_eq. intros i.
    destruct (Nat.lt_ge_cases i exponent) as [Hi|Hi].
    + rewrite digits_lookup by exact Hi. apply Hval; [lia|exact Hi].
    + rewrite !lookup_ge_None_2; [reflexivity| |]; rewrite ?digits_length; lia.
  - cbn [digits_loop]. rewrite (pow_exact_b_spec base exponent (S j)) by (auto; lia).
    pose proof (Z.pow_pos_nonneg base (Z.of_nat (S j))) as Hp.
    destruct (Z.eqb_spec (base ^ Z.of_nat (S j)) 0) as [E|_]; [lia|].
    destruct (digit_step base v (S j) Hb Hv) as [Hq Hr].
    rewrite Hr, Hq. apply IH; [lia|rewrite length_insert; exact Hlen|].
    intros i Hi Hie. destruct (decide (i = S j)) as [->|Hne].
    + apply list_lookup_insert_eq. lia.
    + rewrite list_lookup_insert_ne by congruence. apply Hval; [lia|exact Hie].
Qed.

(** When the float64 powers are exact, the decomposition of a value in
    [0, base^exponent) yields its base-[base] digits. *)
Lemma decompose_digits base exponent v :
  1 <= base -> (1 <= exponent)%nat -> pow_exact_b base exponent = true ->
  0 <= v < base ^ Z.of_nat exponent ->
  decompose base exponent v = ROk (digits base v exponent).
Proof.
  intros Hb He Hexact Hv. unfold decompose.
  rewrite (pow_exact_b_spec base exponent exponent Hexact (le_n _)).
  destruct (Z.leb_spec (base ^ Z.of_nat exponent) v) as [|_]; [lia|].
  destruct exponent as [|e]; [lia|].
  destruct (Z.eqb_spec base 0) as [|_]; [lia|].
  replace (S e - 1)%nat with e by lia.
  assert (Hv' : v = Z.rem v (base ^ Z.of_nat (S e))) by (rewrite Z.rem_small; lia).
  rewrite Hv' at 1.
  apply (digits_loop_spec base (S e) v Hb ltac:(lia) Hexact e); [lia| |].
  - rewrite length_insert, repeat_length. reflexivity.
  - intros i Hi Hie. assert (i = 0)%nat as -> by lia.
    rewrite list_lookup_insert_eq by (rewrite repeat_length; lia).
    unfold digit. simpl. rewrite Z.quot_1_r. reflexivity.
Qed.

(** ** General lemmas on Go results and lists *)

Lemma bind_ROk {A B} (a : A) (f : A -> res B) : (ROk a ≫= f) = f a.
Proof. reflexivity. Qed.

Lemma mapM_ok {A B} (f : A -> res B) (g : A -> B) (l : list A) :
  (forall x, x ∈ l -> f x = ROk (g x)) -> mapM f l = ROk (g <$> l).
Proof.
  induction l as [|x l IH]; intros H; [reflexivity|].
  cbn. rewrite (H x) by constructor. rewrite bind_ROk.
  rewrite IH by (intros y Hy; apply H; by constructor). reflexivity.
Qed.

Lemma lookup_nth_lt {A} (l : list A) i d : (i < length l)%nat -> l !! i = Some (nth i l d).
Proof. revert i. induction l as [|x l IH]; intros [|i] Hi; simpl in *; try lia; auto with lia. Qed.

Lemma nth_go_lt {A} (l : list A) i d : (i < length l)%nat -> nth_go l i = ROk (nth i l d).
Proof. intros Hi. unfold nth_go. rewrite (lookup_nth_lt l i d Hi). reflexivity. Qed.

Lemma zip_with_fmap_r {A B C} (f : A -> B -> C) (g : A -> B) l :
  zip_with f l (g <$> l) = (fun x => f x (g x)) <$> l.
Proof. induction l; simpl; f_equal; auto. Qed.

Lemma fold_left_fmap {A B C} (f : A -> B -> A) (g : C -> B) l a :
  fold_left f (g <$> l) a = fold_left (fun acc x => f acc (g x)) l a.
Proof. revert a. induction l; simpl; auto. Qed.

Lemma nth_go_fmap_seq {A} (f : nat -> A) n j : (j < n)%nat -> nth_go (f <$> seq 0 n) j = ROk (f j).
Proof. intros Hj. unfold nth_go. rewrite list_lookup_fmap, lookup_seq_lt by lia. reflexivity. Qed.

Lemma nth_go_fmap {A B} (f : A -> B) l j d :
  (j < length l)%nat -> nth_go (f <$> l) j = ROk (f (nth j l d)).
Proof. intros Hj. unfold nth_go. rewrite list_lookup_fmap, (lookup_nth_lt l j d Hj). reflexivity. Qed.

Lemma zip_with_seq_nth {A C} (f : nat -> A -> C) l d :
  zip_with f (seq 0 (length l)) l = (fun j => f j (nth j l d)) <$> seq 0 (length l).
Proof.
  apply list_eq. intros i. rewrite lookup_zip_with, list_lookup_fmap.
  destruct (Nat.lt_ge_cases i (length l)) as [Hi|Hi].
  - rewrite lookup_seq_lt by exact Hi. rewrite (lookup_nth_lt l i d Hi). reflexivity.
  - rewrite !lookup_ge_None_2 by (rewrite ?length_seq; lia). reflexivity.
Qed.

Lemma zip_fmap_same {A B C} (f : A -> B) (g : A -> C) l :
  zip (f <$> l) (g <$> l) = (fun x => (f x, g x)) <$> l.
Proof. induction l; simpl; f_equal; auto. Qed.

(** ** Completeness of the range proof *)
Module RangeProofFacts.
Import RangeProof.

Lemma fold_mod_sum q (F : nat -> Z) l a :
  fold_left (fun acc i => (acc + F i) mod q) l (a mod q) = (a + zsum F l) mod q.
Proof.
  revert a. induction l as [|i l IH]; intros a; simpl.
  - rewrite Z.add_0_r. reflexivity.
  - rewrite Zplus_mod_idemp_l, IH. f_equal. ring.
Qed.

Lemma zsum_cons F i l : zsum F (i :: l) = F i + zsum F l.
Proof. reflexivity. Qed.

Lemma zsum_ext_mod q F G l :
  (forall i, i ∈ l -> F i mod q = G i mod q) -> zsum F l mod q = zsum G l mod q.
Proof.
  induction l as [|i l IH]; intros H; [reflexivity|]. simpl.
  rewrite Zplus_mod, (H i) by constructor.
  rewrite IH by (intros j Hj; apply H; by constructor).
  rewrite <- Zplus_mod. reflexivity.
Qed.

Lemma zsum_lin a b X Y l :
  zsum (fun i => a * X i + b * Y i) l = a * zsum X l + b * zsum Y l.
Proof. induction l; simpl; [ring|rewrite IHl; ring]. Qed.

Lemma zsum_digits_value B f n : forall k,
  0 <= B -> zsum (fun i => f i * B ^ Z.of_nat i) (seq k n) = B ^ Z.of_nat k * digits_value B (f <$> seq k n).
Proof.
  induction n as [|n IH]; intros k HB; cbn [seq fmap list_fmap digits_value]; [unfold zsum; simpl; ring|rewrite zsum_cons].
  rewrite IH by lia. rewrite Nat2Z.inj_succ, Z.pow_succ_r by lia. ring.
Qed.

Lemma commit_digits_ok cr pp sigs base bf ds i cbf :
  Forall (fun d => 0 <= d < Z.of_nat (length sigs)) ds ->
  commit_digits cr pp sigs base bf i ds cbf =
  ROk (zip_with (fun j d => pcom cr pp d (bf j)) (seq i (length ds)) ds,
       zip_with (fun j d => (sig_nth sigs d, d, bf j)) (seq i (length ds)) ds,
       fold_left (fun acc j => ModAdd (q cr) acc (ModMul (q cr) (bf j) (pow_int64 base (Z.of_nat j))))
         (seq i (length ds)) cbf).
Proof.
  revert i cbf. induction ds as [|d ds IH]; intros i cbf Hds; [reflexivity|].
  rewrite Forall_cons in Hds. destruct Hds as [Hd Hds']. cbv beta in Hd.
  cbn [commit_digits]. unfold sig_at.
  destruct (Z.ltb_spec d 0); [lia|].
  rewrite (nth_go_lt (A:=Signature) _ _ (0, 0)).
  2:{ apply Nat2Z.inj_lt. rewrite Z2Nat.id by lia. lia. }
  cbn. rewrite IH by exact Hds'. reflexivity.
Qed.

Lemma pow_int64_lt b j : pow_int64 b j < 2 ^ 63.
Proof.
  unfold pow_int64, GoFloat.to_int64.
  match goal with |- context [2 ^ 63 <=? ?v] => destruct (Z.leb_spec (2 ^ 63) v) end; lia.
Qed.

Lemma Int64_small x : 0 <= x < 2 ^ 63 -> Int64 x = x.
Proof.
  intros Hx. unfold Int64. rewrite Z.mod_small by lia.
  destruct (Z.leb_spec (2 ^ 63) x); lia.
Qed.

Lemma membership_witness_ok cr pp sigs B E rnd tw k :
  1 <= B <= Z.of_nat (length sigs) -> (1 <= E)%nat -> pow_exact_b B E = true ->
  Forall (fun w => 0 <= Value w < B ^ Z.of_nat E) tw ->
  membership_witness cr pp sigs B E rnd k tw =
  ROk (zip_with (coms_of cr pp B E rnd) (seq k (length tw)) tw,
       zip_with (mws_of sigs B E rnd) (seq k (length tw)) tw,
       cbf_of cr B E rnd <$> seq k (length tw)).
Proof.
  intros HB HE Hexact. revert k. induction tw as [|w tw IH]; intros k Htw; [reflexivity|].
  rewrite Forall_cons in Htw. destruct Htw as [Hw Htw]. cbv beta in Hw.
  pose proof (pow_exact_b_spec B E E Hexact (le_n _)) as HBE.
  pose proof (pow_int64_lt B (Z.of_nat E)) as Hlt.
  cbn [membership_witness]. rewrite Int64_small by lia.
  rewrite decompose_digits by (auto; lia). rewrite bind_ROk.
  rewrite commit_digits_ok.
  2:{ apply Forall_forall. intros d Hd. unfold digits in Hd.
      apply list_elem_of_fmap in Hd as [i [-> _]].
      pose proof (digit_bound B (Value w) i ltac:(lia) ltac:(lia)). lia. }
  rewrite bind_ROk, digits_length. unfold digits. rewrite !zip_with_fmap_r.
  rewrite IH by exact Htw. reflexivity.
Qed.

Lemma tok_identity cr pp v bf t chal rT rv rt :
  RecomputeCommitment (q cr) (pp_list pp) (NewToken cr v bf t pp)
    [ModAdd (q cr) (ModMul (q cr) chal (hash_type cr t)) rT;
     ModAdd (q cr) rv (ModMul (q cr) chal v);
     ModAdd (q cr) rt (ModMul (q cr) chal bf)] chal
  = gadd (q cr) (gadd (q cr) (gmul (q cr) (pp0 pp) rT) (gmul (q cr) (pp1 pp) rv))
         (gmul (q cr) (pp2 pp) rt).
Proof.
  unfold RecomputeCommitment, NewToken, pp_list, gadd, gsub, gmul, ModAdd, ModMul. cbn.
  mod_norm. f_equal. ring.
Qed.

Lemma cv_identity q pp0 pp1 v Y rv rc chal :
  RecomputeCommitment q [pp0; pp1] ((pp0 * v + pp1 * Y) mod q)
    [ModAdd q rv (ModMul q chal v); ModAdd q rc (ModMul q chal (Y mod q))] chal
  = gadd q (gmul q pp0 rv) (gmul q pp1 rc).
Proof.
  unfold RecomputeCommitment, gadd, gsub, gmul, ModAdd, ModMul. cbn.
  mod_norm. f_equal. ring.
Qed.

Lemma cbf_of_sum cr B E rnd k :
  pow_exact_b B E = true ->
  cbf_of cr B E rnd k = zsum (fun i => rnd_bf rnd k i * B ^ Z.of_nat i) (seq 0 E) mod q cr.
Proof.
  intros Hexact. unfold cbf_of, ModAdd.
  rewrite <- (Zmod_0_l (q cr)), fold_mod_sum, Z.add_0_l.
  apply zsum_ext_mod. intros i Hi. apply elem_of_seq in Hi.
  unfold ModMul. rewrite Zmod_mod, (pow_exact_b_spec B E i) by (auto; lia). reflexivity.
Qed.

Lemma com_sum cr pp B E (bf : nat -> Z) v :
  1 <= B -> pow_exact_b B E = true -> 0 <= v < B ^ Z.of_nat E ->
  fold_left (gadd (q cr))
    ((fun i => gmul (q cr) (pcom cr pp (digit B v i) (bf i)) (pow_int64 B (Z.of_nat i))) <$> seq 0 E) 0
  = (pp0 pp * v + pp1 pp * zsum (fun i => bf i * B ^ Z.of_nat i) (seq 0 E)) mod q cr.
Proof.
  intros HB Hexact Hv. rewrite fold_left_fmap. unfold gadd at 1.
  rewrite <- (Zmod_0_l (q cr)) at 1. rewrite fold_mod_sum, Z.add_0_l.
  rewrite (zsum_ext_mod _ _ (fun i => pp0 pp * (digit B v i * B ^ Z.of_nat i)
                                   + pp1 pp * (bf i * B ^ Z.of_nat i))).
  2:{ intros i Hi. apply elem_of_seq in Hi.
      rewrite (pow_exact_b_spec B E i) by (auto; lia).
      unfold gmul, pcom, gadd, gmul. mod_norm. f_equal. ring. }
  rewrite zsum_lin. f_equal. f_equal. f_equal.
  rewrite zsum_digits_value by lia. simpl. rewrite Z.mul_1_l.
  fold (digits B v E). rewrite digits_value_digits by lia.
  apply Z.rem_small. lia.
Qed.

Lemma toy_mem_complete : mem_complete toy_crypto toy_sigs toy_pp.
Proof. intros d b c sig _ _ _. exists "membership proof"%string. split; reflexivity. Qed.

(** Claim C1 (counterexample). The round trip Prove/Verify fails for inputs
    that satisfy the claim's hypotheses (values in [0, Base^Exponent), token
    commitments opening to the witnesses, complete membership proofs):
    - with 3 signatures and Exponent 34, the value 3^34 - 1 is refused by
      every instance: [int64(math.Pow(3, 34))] is 3^34 - 1, not 3^34;
    - two witnesses of different types: the type response is computed from
      [tokenWitness[0].Type] only, and Verify rejects;
    - the empty list of witnesses: [tokenWitness[0]] panics. *)
Lemma rangeproof_roundtrip_cex :
  (let tw := [{| Typ := "ABC"; Value := 3 ^ 34 - 1; BlindingFactor := 1 |}] in
   Forall (fun w => 0 <= Value w < 3 ^ 34) tw /\
   forall cr rnd, Prove cr (toy_prover cr tw 34) rnd = RErr range_violation_msg) /\
  (let tw := [{| Typ := "ABC"; Value := 5; BlindingFactor := 8 |};
              {| Typ := "XYZ"; Value := 7; BlindingFactor := 2 |}] in
   Forall (fun w => 0 <= Value w < 3 ^ 2) tw /\ mem_complete toy_crypto toy_sigs toy_pp /\
   ~ roundtrip toy_crypto (toy_prover toy_crypto tw 2) toy_rnd) /\
  (forall cr rnd, Prove cr (toy_prover cr [] 2) rnd = RPanic).
Proof.
  split; [|split].
  - split; [repeat constructor; cbn; lia|]. intros cr rnd. vm_compute. reflexivity.
  - split; [repeat constructor; cbn; lia|]. split; [exact toy_mem_complete|].
    intros [proof [HP HV]]. vm_compute in HP. injection HP as <-. vm_compute in HV. discriminate.
  - intros cr rnd. reflexivity.
Qed.

(** Claim C1 (amended). For a non-empty list of witnesses of one type with
    values in [0, Base^Exponent), where Base is the number of signatures,
    Exponent >= 1, the float64 powers [int64(math.Pow(Base, j))] are exact
    for j <= Exponent, the tokens are [NewToken] of the witnesses and the
    membership proofs are complete, Prove succeeds and Verify accepts the
    proof, for every choice of the randomness. *)
Theorem rangeproof_complete cr tw sigs E pp PK P Q t rnd :
  tw <> [] ->
  Forall (fun w => Typ w = t /\ 0 <= Value w < Z.of_nat (length sigs) ^ Z.of_nat E) tw ->
  sigs <> [] -> (1 <= E)%nat -> pow_exact_b (Z.of_nat (length sigs)) E = true ->
  mem_complete cr sigs pp ->
  roundtrip cr (NewProver tw ((fun w => NewToken cr (Value w) (BlindingFactor w) (Typ w) pp) <$> tw)
                 sigs E pp PK P Q) rnd.
Proof.
  intros Hne Htw Hsigs HE Hexact Hmem. unfold roundtrip.
  set (p := NewProver tw ((fun w => NewToken cr (Value w) (BlindingFactor w) (Typ w) pp) <$> tw)
              sigs E pp PK P Q).
  set (B := Z.of_nat (length sigs)) in *.
  set (n := length tw).
  assert (HB : 1 <= B) by (destruct sigs; [congruence|simpl in B; unfold B; lia]).
  assert (Hval : Forall (fun w => 0 <= Value w < B ^ Z.of_nat E) tw)
    by (eapply Forall_impl; [exact Htw|]; intros w [_ H]; exact H).
  assert (Hmem' : forall d b, 0 <= d < B ->
    mem_prove cr (sig_nth sigs d, d, b) (pcom cr pp d b) = ROk (sp_of cr (sig_nth sigs d, d, b) (pcom cr pp d b)) /\
    mem_verify cr (pcom cr pp d b) (sp_of cr (sig_nth sigs d, d, b) (pcom cr pp d b)) = ROk tt).
  { intros d b Hd.
    assert (Hlt : (Z.to_nat d < length sigs)%nat)
      by (apply Nat2Z.inj_lt; rewrite Z2Nat.id by lia; unfold B in Hd; lia).
    destruct (Hmem d b (pcom cr pp d b) (sig_nth sigs d)) as [sp [H1 H2]].
    - lia.
    - unfold sig_nth. apply lookup_nth_lt. exact Hlt.
    - reflexivity.
    - unfold sp_of. rewrite H1. auto. }
  set (wk := fun k => nth k tw dw).
  set (C := (fun k => coms_of cr pp B E rnd k (wk k)) <$> seq 0 n).
  set (W := (fun k => mws_of sigs B E rnd k (wk k)) <$> seq 0 n).
  assert (H1 : computeMembershipWitness cr p rnd = ROk (C, W, cbf_of cr B E rnd <$> seq 0 n)).
  { unfold computeMembershipWitness. subst p. unfold NewProver. cbn [verifier tokenWitness Signatures PedersenParamsV Base Exponent].
    rewrite membership_witness_ok by (auto; lia).
    rewrite !(zip_with_seq_nth _ _ dw). reflexivity. }
  assert (Hdig : forall k i, (k < n)%nat -> 0 <= digit B (Value (wk k)) i < B).
  { intros k i Hk. apply digit_bound; [lia|].
    rewrite Forall_forall in Hval. apply Hval. unfold wk. apply list_elem_of_lookup_2 with k.
    apply lookup_nth_lt. exact Hk. }
  set (cki := fun k i => pcom cr pp (digit B (Value (wk k)) i) (rnd_bf rnd k i)).
  set (wki := fun k i => (sig_nth sigs (digit B (Value (wk k)) i), digit B (Value (wk k)) i, rnd_bf rnd k i)).
  set (mps := (fun k => {| Commitments := coms_of cr pp B E rnd k (wk k);
                           SignatureProofs := (fun i => sp_of cr (wki k i) (cki k i)) <$> seq 0 E |})
              <$> seq 0 n).
  assert (H2 : prove_memberships cr p C W = ROk mps).
  { unfold prove_memberships. subst p. unfold NewProver. cbn [verifier Token Exponent].
    rewrite length_fmap. apply mapM_ok. intros k Hk. apply elem_of_seq in Hk.
    unfold C, W. rewrite !nth_go_fmap_seq by lia. rewrite !bind_ROk.
    rewrite (mapM_ok _ (fun i => (cki k i, sp_of cr (wki k i) (cki k i)))).
    - rewrite bind_ROk. unfold coms_of. rewrite <- !list_fmap_compose. reflexivity.
    - intros i Hi. apply elem_of_seq in Hi. unfold coms_of, mws_of.
      rewrite !nth_go_fmap_seq by lia. rewrite !bind_ROk.
      rewrite (proj1 (Hmem' _ _ (Hdig k i ltac:(lia)))). reflexivity. }
  set (qq := q cr).
  set (tokR := fun k => gadd qq (gadd qq (gmul qq (pp0 pp) (rnd_type rnd)) (gmul qq (pp1 pp) (rnd_value rnd k)))
                             (gmul qq (pp2 pp) (rnd_tbf rnd k))).
  set (comR := fun k => gadd qq (gmul qq (pp0 pp) (rnd_value rnd k)) (gmul qq (pp1 pp) (rnd_cbf rnd k))).
  set (com0 := {| ComToken := tokR <$> seq 0 n; CommitmentToValue := comR <$> seq 0 n |}).
  assert (Hn : length (Token (verifier p)) = n).
  { subst p. unfold NewProver. cbn [verifier Token]. apply length_fmap. }
  assert (H3 : computeCommitment cr p rnd = ROk com0).
  { unfold computeCommitment. rewrite Hn. change (tokenWitness p) with tw. fold n.
    rewrite (mapM_ok _ (fun i => (tokR i, comR i))).
    - rewrite bind_ROk. unfold com0. rewrite <- !list_fmap_compose. reflexivity.
    - intros i Hi. apply elem_of_seq in Hi. unfold rand_list.
      rewrite !nth_go_fmap_seq by lia. reflexivity. }
  set (chal := computeChallenge cr (verifier p) com0 C).
  set (resp := fun k => (ModAdd qq (rnd_value rnd k) (ModMul qq chal (Value (wk k))),
                         ModAdd qq (rnd_tbf rnd k) (ModMul qq chal (BlindingFactor (wk k))),
                         ModAdd qq (rnd_cbf rnd k) (ModMul qq chal (cbf_of cr B E rnd k)))).
  assert (Hw0 : nth_go (tokenWitness p) 0%nat = ROk (wk 0%nat)).
  { change (tokenWitness p) with tw. apply nth_go_lt. destruct tw; [congruence|simpl; lia]. }
  assert (Ht0 : Typ (wk 0%nat) = t).
  { rewrite Forall_forall in Htw. apply Htw. unfold wk. apply list_elem_of_lookup_2 with 0%nat.
    apply lookup_nth_lt. destruct tw; [congruence|simpl; lia]. }
  unfold Prove. rewrite H1, bind_ROk. cbv beta iota zeta.
  rewrite H2, bind_ROk, H3, bind_ROk. rewrite Hn. fold chal.
  rewrite (mapM_ok _ resp).
  2:{ intros k Hk. apply elem_of_seq in Hk. unfold rand_list.
      rewrite !nth_go_fmap_seq by lia. rewrite !bind_ROk.
      change (tokenWitness p) with tw. rewrite (nth_go_lt tw k dw) by lia.
      rewrite bind_ROk. reflexivity. }
  rewrite bind_ROk, Hw0, bind_ROk, Ht0.
  eexists; split; [reflexivity|].
  assert (Htyp : forall j, (j < n)%nat -> Typ (wk j) = t).
  { intros j Hj. rewrite Forall_forall in Htw. apply Htw. unfold wk.
    apply list_elem_of_lookup_2 with j. apply lookup_nth_lt. exact Hj. }
  unfold Verify. cbn [MembershipProofs].
  assert (Hmps : length mps = n) by (unfold mps; rewrite length_fmap, length_seq; reflexivity).
  rewrite Hmps, Hn, Nat.eqb_refl. cbn [negb].
  rewrite (mapM_ok _ (fun mp => (fun _ => tt) <$> zip (Commitments mp) (SignatureProofs mp))).
  2:{ intros mp Hmp. unfold mps in Hmp. apply list_elem_of_fmap in Hmp as [k [-> Hk]].
      apply elem_of_seq in Hk. cbn [Commitments SignatureProofs]. unfold coms_of.
      rewrite !length_fmap, Nat.eqb_refl. cbn [negb].
      apply mapM_ok. intros x Hx. rewrite zip_fmap_same in Hx.
      apply list_elem_of_fmap in Hx as [i [-> Hi]]. apply elem_of_seq in Hi. cbn [fst snd].
      apply (proj2 (Hmem' _ _ (Hdig k i ltac:(lia)))). }
  rewrite bind_ROk.
  match goal with |- recomputeCommitments cr _ ?pr ≫= _ = _ => set (proof := pr) end.
  assert (Hvw : forall j, (j < n)%nat -> 0 <= Value (wk j) < B ^ Z.of_nat E).
  { intros j Hj. rewrite Forall_forall in Hval. apply Hval. unfold wk.
    apply list_elem_of_lookup_2 with j. apply lookup_nth_lt. exact Hj. }
  assert (Hrc : recomputeCommitments cr (verifier p) proof = ROk com0).
  { unfold recomputeCommitments, proof.
    cbn [EqualityProofsP Challenge MembershipProofs EqType EqValue EqTokenBlindingFactor
         EqCommitmentBlindingFactor].
    rewrite Hn, <- !list_fmap_compose.
    change (Base (verifier p)) with B. change (Exponent (verifier p)) with E.
    change (PedersenParamsV (verifier p)) with pp.
    rewrite (mapM_ok _ comR).
    2:{ intros j Hj. apply elem_of_seq in Hj. unfold mps. rewrite !nth_go_fmap_seq by lia.
        rewrite !bind_ROk. cbn [Commitments].
        rewrite (mapM_ok _ (fun i => gmul (q cr) (cki j i) (pow_int64 B (Z.of_nat i)))).
        2:{ intros i Hi. apply elem_of_seq in Hi. unfold coms_of. rewrite nth_go_fmap_seq by lia.
            reflexivity. }
        rewrite !bind_ROk. unfold cki. rewrite com_sum by (first [exact Hexact | apply Hvw; lia | lia]).
        unfold compose, resp. cbn [fst snd]. rewrite cbf_of_sum by auto.
        f_equal. apply cv_identity. }
    rewrite (mapM_ok _ tokR).
    2:{ intros j Hj. apply elem_of_seq in Hj.
        change (Token (verifier p)) with
          ((fun w => NewToken cr (Value w) (BlindingFactor w) (Typ w) pp) <$> tw).
        rewrite (nth_go_fmap _ tw j dw) by lia. rewrite !nth_go_fmap_seq by lia. rewrite !bind_ROk.
        change (nth j tw dw) with (wk j). rewrite (Htyp j) by lia.
        unfold compose, resp. cbn [fst snd]. f_equal. apply tok_identity. }
    rewrite !bind_ROk. reflexivity. }
  rewrite Hrc, bind_ROk.
  assert (Hc : Commitments <$> mps = C) by (unfold mps; rewrite <- list_fmap_compose; reflexivity).
  rewrite Hc. unfold proof. cbn [Challenge]. fold chal. rewrite Z.eqb_refl. reflexivity.
Qed.

(** Witness for C1: two tokens of type ABC, three signatures, Exponent 2. *)
Lemma rangeproof_complete_witness :
  roundtrip toy_crypto
    (toy_prover toy_crypto [{| Typ := "ABC"; Value := 5; BlindingFactor := 8 |};
                            {| Typ := "ABC"; Value := 7; BlindingFactor := 2 |}] 2) toy_rnd.
Proof.
  apply (rangeproof_complete toy_crypto _ toy_sigs 2 toy_pp [4; 5] 2 1 "ABC" toy_rnd).
  - discriminate.
  - repeat constructor; cbn; lia.
  - discriminate.
  - lia.
  - vm_compute. reflexivity.
  - exact toy_mem_complete.
Defined.

(** Claim C4 (code bug). The decomposition uses [int64(math.Pow(...))]:
    with base 3 the float64 power 3^34 rounds to 3^34 - 1, so the in-range
    value 3^34 - 1 is refused for Exponent 34, and for Exponent 35 the
    in-range value 50031545098997707 is decomposed into 35 digits, each in
    [0, 3), whose weighted sum is not the value. *)
Lemma decompose_float_pow_wrong :
  pow_int64 3 34 = 3 ^ 34 - 1 /\
  decompose 3 34 (3 ^ 34 - 1) = RErr range_violation_msg /\
  (0 <= 50031545098997707 < 3 ^ 35 /\
   exists ds, decompose 3 35 50031545098997707 = ROk ds /\
     (length ds = 35)%nat /\ Forall (fun d => 0 <= d < 3) ds /\
     digits_value 3 ds <> 50031545098997707).
Proof.
  split; [vm_compute; reflexivity|]. split; [vm_compute; reflexivity|].
  split; [lia|].
  eexists. split; [vm_compute; reflexivity|].
  split; [reflexivity|]. split.
  - repeat (constructor; [cbv beta; lia|]); constructor.
  - vm_compute. discriminate.
Qed.

(** Claim C6 (code bug). With 3 signatures and Exponent 37 the value
    3^37 is out of range, but [int64(math.Pow(3, 37))] exceeds 3^37, so the
    guard lets it through: the membership witnesses are computed for every
    instance of the collaborators and every randomness, and Prove returns a
    proof. *)
Lemma rangeproof_out_of_range_accepted :
  let tw := [{| Typ := "ABC"; Value := 3 ^ 37; BlindingFactor := 1 |}] in
  3 ^ 37 <= Value (hd dw tw) /\
  pow_int64 3 37 > 3 ^ 37 /\
  (forall cr rnd, is_ok (computeMembershipWitness cr (toy_prover cr tw 37) rnd) = true) /\
  is_ok (Prove toy_crypto (toy_prover toy_crypto tw 37) toy_rnd) = true.
Proof.
  cbv zeta. split; [cbn; lia|]. split; [vm_compute; reflexivity|]. split.
  - intros cr rnd. vm_compute. reflexivity.
  - vm_compute. reflexivity.
Qed.

End RangeProofFacts.

(** ** The count check of the signature proof *)
Module SigproofFacts.
Import Sigproof.

(** Claim C5 (code bug). When the hidden and disclosed index counts do not
    add up to the public-key length minus 2, [SigProver.Prove] produces no
    proof; but [SigVerifier.Verify] accepts every proof whose number of
    hidden responses plus the number of disclosed values differs from the
    public-key length minus 2: [recomputeCommitments] fails, and [Verify]
    turns its error into [return nil]. *)
Theorem sigproof_count_mismatch cr (p : SigProver) rnd (v : SigVerifier) (proof : SigProof) :
  Z.of_nat (length (HiddenIndices (verifier p))) + Z.of_nat (length (DisclosedIndices (verifier p)))
    <> Z.of_nat (length (PK (verifier p))) - 2 ->
  Z.of_nat (length (Hidden proof)) + Z.of_nat (length (Disclosed v)) <> Z.of_nat (length (PK v)) - 2 ->
  is_ok (Prove cr p rnd) = false /\ Verify cr v proof = ROk tt.
Proof.
  intros Hp Hv. split.
  - unfold Prove.
    destruct (Nat.eqb _ _) eqn:E1; [|reflexivity]. cbn [negb].
    destruct (Nat.eqb (length (DisclosedIndices _)) _) eqn:E2; [|reflexivity]. cbn [negb].
    destruct (obfuscateSignature cr p (sigbf rnd)) as [sig| |]; [|reflexivity|reflexivity].
    rewrite bind_ROk. unfold computeCommitment.
    destruct (Nat.eqb (length (PedersenParams _)) _); [|reflexivity]. cbn [negb].
    destruct (Nat.eqb_spec (length (PK (verifier p)))
               (length (HiddenIndices (verifier p)) + length (DisclosedIndices (verifier p)) + 2))
      as [E3|_]; [lia|reflexivity].
  - unfold Verify, recomputeCommitments.
    destruct (Z.eqb_spec (Z.of_nat (length (Hidden proof)) + Z.of_nat (length (Disclosed v)))
               (Z.of_nat (length (PK v)) - 2)) as [E|_]; [lia|reflexivity].
Qed.

(** Witness for C5: a public key of length 4 (two messages), two hidden
    and one disclosed index for the prover; for the verifier one disclosed
    value and a proof with no hidden response. *)
Lemma sigproof_count_mismatch_witness :
  let v := {| P := 1; Q := 2; PK := [3; 4; 5; 6]; HiddenIndices := [0; 1];
              DisclosedIndices := [1]; Disclosed := [7]; PedersenParams := [8; 9; 10];
              CommitmentToMessages := 11 |} in
  let p := {| verifier := v; witness := {| hidden := [1; 2]; hash := 3; signature := (4, 5);
                                            comBlindingFactor := 6 |} |} in
  let rnd := {| r_hidden := fun i => Z.of_nat i; r_hash := 1; r_com := 2; r_sig := 3; sigbf := 4 |} in
  let proof := {| Challenge := 0; Hidden := []; Hash := 0; SigSignature := (0, 0);
                  SigBlindingFactor := 0; ComBlindingFactor := 0; Commitment := 0 |} in
  is_ok (Prove toy_sig_crypto p rnd) = false /\ Verify toy_sig_crypto v proof = ROk tt.
Proof.
  intros v p rnd proof.
  apply sigproof_count_mismatch; cbn; lia.
Defined.

End SigproofFacts.

(** ** The anonymous issuer verifier is fail-closed *)
Module AnonymFacts.
Import Anonym.

(** Claim C9. [Verify] succeeds exactly when the Pedersen parameters are
    three, the signature deserializes, the one-out-of-many proof over the
    commitments [Auth.Type - Issuers[k]] verifies and the type-correctness
    proof verifies; a wrong parameter count, a failing deserialization or
    a failing sub-proof each give an error. *)
Theorem anonym_verify_fail_closed cr v message rawsig :
  (Verify cr v message rawsig = ROk tt <->
   length (PedersenParams v) = 3%nat /\
   exists sig, deserialize cr rawsig = ROk sig /\
     o2omp_verify cr (commitments cr v) message
       [nth 0 (PedersenParams v) 0; nth 2 (PedersenParams v) 0] (BitLength v)
       (AuthorizationCorrectness sig) = ROk tt /\
     tc_verify cr (AType (Auth v)) (AToken (Auth v)) message (PedersenParams v)
       (TypeCorrectness sig) = ROk tt) /\
  (length (PedersenParams v) <> 3%nat -> is_err (Verify cr v message rawsig) = true) /\
  (forall e, deserialize cr rawsig = RErr e -> is_err (Verify cr v message rawsig) = true) /\
  (forall sig e, length (PedersenParams v) = 3%nat -> deserialize cr rawsig = ROk sig ->
     o2omp_verify cr (commitments cr v) message
       [nth 0 (PedersenParams v) 0; nth 2 (PedersenParams v) 0] (BitLength v)
       (AuthorizationCorrectness sig) = RErr e ->
     is_err (Verify cr v message rawsig) = true) /\
  (forall sig e, length (PedersenParams v) = 3%nat -> deserialize cr rawsig = ROk sig ->
     o2omp_verify cr (commitments cr v) message
       [nth 0 (PedersenParams v) 0; nth 2 (PedersenParams v) 0] (BitLength v)
       (AuthorizationCorrectness sig) = ROk tt ->
     tc_verify cr (AType (Auth v)) (AToken (Auth v)) message (PedersenParams v)
       (TypeCorrectness sig) = RErr e ->
     is_err (Verify cr v message rawsig) = true).
Proof.
  unfold Verify.
  destruct (Nat.eqb_spec (length (PedersenParams v)) 3) as [H3|H3]; cbn [negb].
  - assert (HP : exists a b c, PedersenParams v = [a; b; c]).
    { destruct (PedersenParams v) as [|a [|b [|c [|d l]]]]; try (simpl in H3; lia).
      eauto. }
    destruct HP as (a & b & c & HP). rewrite HP. unfold nth_go. cbn [nth lookup list_lookup].
    change (ROk a ≫= ?f) with (f a). change (ROk c ≫= ?f) with (f c). cbv beta.
    split; [|split; [intros Hn; exfalso; apply Hn; reflexivity|split; [|split]]].
    + destruct (deserialize cr rawsig) as [sig| |].
      * destruct (o2omp_verify _ _ _ _ _ _) as [[]| |] eqn:Ho.
        -- split; [intros Ht; split; [reflexivity|]; exists sig; auto|].
           intros [_ (sig' & Hs & _ & Ht)]. injection Hs as <-. exact Ht.
        -- split; [discriminate|]. intros [_ (sig' & Hs & Ho' & _)].
           injection Hs as <-. congruence.
        -- split; [discriminate|]. intros [_ (sig' & Hs & Ho' & _)].
           injection Hs as <-. congruence.
      * split; [discriminate|]. intros [_ (sig' & Hs & _)]. discriminate.
      * split; [discriminate|]. intros [_ (sig' & Hs & _)]. discriminate.
    + intros e He. rewrite He. reflexivity.
    + intros sig e _ Hs Ho. rewrite Hs, Ho. reflexivity.
    + intros sig e _ Hs Ho Ht. rewrite Hs, Ho, Ht. reflexivity.
  - split; [split; [discriminate|intros [H _]; lia]|].
    split; [reflexivity|]. split; [reflexivity|]. split; intros; lia.
Qed.

(** Witness for C9: three parameters, two issuers, proofs accepted or not. *)
Lemma anonym_verify_fail_closed_witness :
  Verify toy_anon_crypto toy_anon_verifier "msg" "ok" = ROk tt /\
  is_err (Verify toy_anon_crypto toy_anon_verifier "msg" "bad") = true.
Proof.
  split.
  - apply (anonym_verify_fail_closed toy_anon_crypto toy_anon_verifier "msg" "ok").
    split; [reflexivity|]. eexists. split; [reflexivity|]. split; reflexivity.
  - apply (proj1 (proj2 (proj2 (proj2 (anonym_verify_fail_closed toy_anon_crypto
             toy_anon_verifier "msg" "bad"))))
             {| AuthorizationCorrectness := "bad"; TypeCorrectness := "bad" |} "o2omp"%string);
      reflexivity.
Defined.

End AnonymFacts.

(** ** The translator: anti-replay, key assignment and double-spend protection *)
Module TranslatorFacts.
Import translator.

Lemma TM_bind_eq {A B} (m : TM A) (f : A -> TM B) st :
  (m ≫= f) st = let '(st', r) := m st in
                match r with ROk a => f a st' | RErr e => (st', RErr e) | RPanic => (st', RPanic) end.
Proof. reflexivity. Qed.

Lemma TM_bind_ok {A B} (m : TM A) (f : A -> TM B) st st' b :
  (m ≫= f) st = (st', ROk b) -> exists a st1, m st = (st1, ROk a) /\ f a st1 = (st', ROk b).
Proof.
  rewrite TM_bind_eq. destruct (m st) as [st1 [a| |]]; intros H; try discriminate.
  eauto.
Qed.

Lemma TM_bind_ret_ok {A B} (m : TM A) (f : A -> TM B) st st1 a :
  m st = (st1, ROk a) -> (m ≫= f) st = f a st1.
Proof. intros H. rewrite TM_bind_eq, H. reflexivity. Qed.


Lemma pres_bind {A B} P (m : TM A) (f : A -> TM B) :
  preserves P m -> (forall a, preserves P (f a)) -> preserves P (m ≫= f).
Proof.
  intros Hm Hf st Hst. rewrite TM_bind_eq.
  specialize (Hm st Hst). destruct (m st) as [st1 [a| |]]; simpl in *; auto.
  apply Hf, Hm.
Qed.

Lemma pres_ret {A} P (a : A) : preserves P (mret a).
Proof. intros st H. exact H. Qed.

Lemma pres_lift {A} P (r : res A) : preserves P (lift r).
Proof. intros st H. exact H. Qed.

Lemma pres_get P : preserves P get.
Proof. intros st H. exact H. Qed.

Lemma pres_modify P f : (forall st, P st -> P (f st)) -> preserves P (modify f).
Proof. intros Hf st H. apply Hf, H. Qed.

Lemma pres_for_i {A} P (f : nat -> A -> TM unit) i l :
  (forall i x, preserves P (f i x)) -> preserves P (for_i f i l).
Proof.
  intros Hf. revert i. induction l as [|x l IH]; intros i; simpl.
  - apply pres_ret.
  - apply pres_bind; [apply Hf|intros _; apply IH].
Qed.

Lemma spent_SetState_ne gh K k v st :
  k <> K -> spent gh st K -> spent gh (SetState k v st) K.
Proof.
  intros Hne. unfold spent, state_len, GetState, SetState; cbn [rw].
  rewrite lookup_insert_ne by congruence. auto.
Qed.

Lemma spent_meta gh K k m st :
  spent gh st K -> spent gh (SetStateMetadata k m st) K.
Proof. auto. Qed.

Lemma spent_counter gh K n st :
  spent gh st K -> spent gh (add_counter n st) K.
Proof. auto. Qed.

Lemma spent_delete_nogh K k st :
  spent false st K -> spent false (DeleteState k st) K.
Proof.
  unfold spent, state_len, GetState, DeleteState; cbn [rw].
  destruct (decide (k = K)) as [->|Hne].
  - rewrite lookup_delete_eq. reflexivity.
  - rewrite lookup_delete_ne by congruence. auto.
Qed.

Lemma spent_true_gh K k st :
  spent true st K -> spent true (SetState k "true" st) K.
Proof.
  destruct (decide (k = K)) as [->|Hne].
  - unfold spent, state_len, GetState, SetState; cbn [rw].
    rewrite lookup_insert_eq. simpl. discriminate.
  - apply spent_SetState_ne; congruence.
Qed.

Lemma spendTokens_pres gh K ids :
  preserves (fun st => spent gh st K) (spendTokens ids gh).
Proof.
  unfold spendTokens, for_. destruct gh; cbn [negb]; apply pres_for_i; intros _ x.
  - apply pres_modify. intros st. apply spent_true_gh.
  - apply pres_bind; [apply pres_modify; intros st; apply spent_delete_nogh|].
    intros _. apply pres_modify. intros st. apply spent_meta.
Qed.

(** [Write] of an action of mode [gh] keeps [K] spent. *)
Lemma Write_pres gh K w a :
  K <> SetupKey -> (forall n, K <> TokenKey (TxID w) n) -> action_in_mode gh a ->
  preserves (fun st => spent gh st K) (Write w a).
Proof.
  intros HS HT Hm. unfold Write, commitProcess, commitAction.
  apply pres_bind; [apply pres_get|intros st0].
  apply pres_bind; [apply pres_lift|intros _].
  destruct a as [ia|t|s|]; cbn in Hm.
  - unfold commitIssueAction.
    apply pres_bind; [apply pres_get|intros st1].
    apply pres_bind; [apply pres_lift|intros outs].
    apply pres_bind.
    + apply pres_for_i. intros i o.
      apply pres_bind; [apply pres_modify; intros st; apply spent_SetState_ne; auto|].
      intros _. apply pres_modify. intros st. apply spent_meta.
    + intros _. apply pres_modify. intros st. apply spent_counter.
  - unfold commitTransferAction.
    apply pres_bind; [apply pres_get|intros st1].
    apply pres_bind.
    + apply pres_for_i. intros _ i.
      destruct (IsRedeemAt t i); [apply pres_ret|].
      apply pres_bind; [apply pres_lift|intros bytes].
      apply pres_bind; [apply pres_modify; intros st; apply spent_SetState_ne; auto|].
      intros _. apply pres_modify. intros st. apply spent_meta.
    + intros _. apply pres_bind; [apply pres_lift|intros ids].
      apply pres_bind; [rewrite Hm; apply spendTokens_pres|].
      intros _. apply pres_modify. intros st. apply spent_counter.
  - unfold commitSetupAction.
    apply pres_bind; [apply pres_lift|intros raw].
    apply pres_modify. intros st. apply spent_SetState_ne. congruence.
  - apply pres_ret.
Qed.

Lemma run_pres gh K steps st :
  K <> SetupKey -> Forall (step_ok gh K) steps ->
  spent gh st K -> spent gh (run steps st) K.
Proof.
  intros HS. revert st. induction steps as [|s steps IH]; intros st Hf Hst; [exact Hst|].
  rewrite Forall_cons in Hf. destruct Hf as [Hs Hf].
  destruct s as [w a|]; simpl.
  - destruct Hs as [HT Hm]. apply IH; [exact Hf|]. apply (Write_pres gh K w a HS HT Hm st Hst).
  - apply IH; [exact Hf|]. exact Hst.
Qed.

(** After [spendTokens ids gh], every key of [ids] is spent in mode [gh]. *)
Lemma spendTokens_spent gh K ids st :
  K ∈ ids -> spent gh (fst (spendTokens ids gh st)) K /\ snd (spendTokens ids gh st) = ROk tt.
Proof.
  unfold spendTokens, for_. generalize 0%nat as i.
  revert st. induction ids as [|x ids IH]; intros st i Hin.
  - apply elem_of_nil in Hin. contradiction.
  - rewrite elem_of_cons in Hin.
    destruct gh; cbn [negb for_i].
    + rewrite (TM_bind_ret_ok _ _ st (SetState x "true" st) tt) by reflexivity.
      destruct Hin as [Hx|Hin]; [subst x|].
      * assert (Hp := pres_for_i (fun st => spent true st K) (fun _ id => modify (SetState id "true")) (S i) ids).
        split.
        -- apply Hp.
           ++ intros _ y. apply pres_modify. intros s. apply spent_true_gh.
           ++ unfold spent, state_len, GetState, SetState; cbn [rw].
              rewrite lookup_insert_eq. simpl. discriminate.
        -- clear IH Hp. revert i. generalize (SetState K "true" st). induction ids as [|y ids IH]; intros s i; [reflexivity|].
           cbn [for_i]. rewrite (TM_bind_ret_ok _ _ s (SetState y "true" s) tt) by reflexivity. apply IH.
      * apply (IH _ (S i) Hin).
    + rewrite (TM_bind_ret_ok _ _ st (SetStateMetadata x [] (DeleteState x st)) tt) by reflexivity.
      destruct Hin as [Hx|Hin]; [subst x|].
      * assert (Hp := pres_for_i (fun st => spent false st K)
           (fun _ id => _ ← modify (DeleteState id); modify (SetStateMetadata id [])) (S i) ids).
        split.
        -- apply Hp.
           ++ intros _ y. apply pres_bind; [apply pres_modify; intros s; apply spent_delete_nogh|].
              intros _. apply pres_modify. intros s. apply spent_meta.
           ++ unfold spent, state_len, GetState, SetStateMetadata, DeleteState; cbn [rw].
              rewrite lookup_delete_eq. reflexivity.
        -- clear IH Hp. revert i. generalize (SetStateMetadata K [] (DeleteState K st)).
           induction ids as [|y ids IH]; intros s i; [reflexivity|].
           cbn [for_i]. rewrite (TM_bind_ret_ok _ _ s (SetStateMetadata y [] (DeleteState y s)) tt) by reflexivity.
           apply IH.
      * apply (IH _ (S i) Hin).
Qed.

Lemma res_bind_err {A B} (m : res A) (f : A -> res B) :
  is_err m = true -> is_err (m ≫= f) = true.
Proof. destruct m; simpl; congruence. Qed.

Lemma mapM_err {A B} (f : A -> res B) l x :
  x ∈ l -> (forall y, y ∈ l -> is_ok (f y) = true \/ is_err (f y) = true) ->
  is_err (f x) = true -> is_err (mapM f l) = true.
Proof.
  induction l as [|y l IH]; intros Hin Hall Hx.
  - apply elem_of_nil in Hin. contradiction.
  - cbn [mapM]. rewrite elem_of_cons in Hin.
    destruct Hin as [<-|Hin].
    + apply res_bind_err, Hx.
    + destruct (Hall y (proj2 (elem_of_cons l y y) (or_introl eq_refl))) as [Hy|Hy].
      * destruct (f y) eqn:Ef; try discriminate. change (ROk a ≫= ?g) with (g a). cbv beta.
        apply res_bind_err. apply IH; auto.
        intros z Hz. apply Hall. apply elem_of_cons; right; exact Hz.
      * apply res_bind_err, Hy.
Qed.

(** [checkTransfer] refuses a transfer listing an input spent in its mode. *)
Lemma checkTransfer_spent w st t ids K :
  spent (IsGraphHiding t) st K -> GetInputs t = ROk ids -> K ∈ ids ->
  is_err (checkTransfer w st t) = true.
Proof.
  intros Hs Hi Hin. unfold checkTransfer. rewrite Hi. cbn [wrap].
  change (ROk ids ≫= ?g) with (g ids). cbv beta.
  apply res_bind_err. unfold spent in Hs.
  destruct (IsGraphHiding t); cbn [negb].
  - apply (mapM_err _ _ K Hin).
    + intros y _. destruct (Nat.eqb _ 0); auto.
    + apply Nat.eqb_neq in Hs. rewrite Hs. reflexivity.
  - apply (mapM_err _ _ K Hin).
    + intros y _. destruct (Nat.eqb _ 0); auto.
    + apply Nat.eqb_eq in Hs. rewrite Hs. reflexivity.
Qed.

(** A refused check makes [Write] fail with no write. *)
Lemma Write_check_err w a st :
  is_err (checkAction w st a) = true ->
  is_err (snd (Write w a st)) = true /\ fst (Write w a st) = st.
Proof.
  intros H. unfold Write, checkProcess. rewrite TM_bind_eq. cbn [get].
  rewrite TM_bind_eq. unfold lift.
  destruct (checkAction w st a); simpl in *; try discriminate. auto.
Qed.

(** A successful [Write] of a transfer leaves its inputs spent. *)
Lemma Write_transfer_spent w t ids K st st' :
  GetInputs t = ROk ids -> K ∈ ids -> Write w (Transfer t) st = (st', ROk tt) ->
  spent (IsGraphHiding t) st' K.
Proof.
  intros Hi Hin HW. unfold Write in HW.
  apply TM_bind_ok in HW. destruct HW as (a0 & s0 & H0 & HW).
  cbn [get] in H0. injection H0 as <- <-.
  apply TM_bind_ok in HW. destruct HW as (a1 & s1 & H1 & HW).
  cbn [lift] in H1. injection H1 as <- _.
  cbn [commitProcess commitAction] in HW. unfold commitTransferAction in HW.
  apply TM_bind_ok in HW. destruct HW as (a2 & s2 & H2 & HW).
  cbn [get] in H2. injection H2 as <- <-.
  apply TM_bind_ok in HW. destruct HW as (a3 & s3 & H3 & HW).
  rewrite (TM_bind_ret_ok _ _ s3 s3 ids) in HW by (cbn [lift]; rewrite Hi; reflexivity).
  destruct (spendTokens_spent (IsGraphHiding t) K ids s3 Hin) as [Hsp Hok].
  destruct (spendTokens ids (IsGraphHiding t) s3) as [s4 r4] eqn:Es. simpl in Hok, Hsp. subst r4.
  rewrite (TM_bind_ret_ok _ _ s3 s4 tt Es) in HW.
  cbn [modify] in HW. injection HW as <-. apply spent_counter, Hsp.
Qed.

Lemma TokenKey_inj tx base a b :
  a <> b -> TokenKey tx (base + Z.of_nat a) <> TokenKey tx (base + Z.of_nat b).
Proof. intros Hab H. injection H as H. lia. Qed.

Lemma issue_loop w base i0 outs st :
  exists st',
    for_i (fun i output =>
       let outputID := TokenKey (TxID w) (base + Z.of_nat i) in
       _ ← modify (SetState outputID output);
       modify (SetStateMetadata outputID [(Action_key, ActionIssue)])) i0 outs st = (st', ROk tt) /\
    counter st' = counter st /\
    (forall j, (j < length outs)%nat ->
       rw st' !! TokenKey (TxID w) (base + Z.of_nat (i0 + j)) = outs !! j /\
       meta st' !! TokenKey (TxID w) (base + Z.of_nat (i0 + j)) = Some [(Action_key, ActionIssue)]) /\
    (forall k, (forall j, (j < length outs)%nat -> k <> TokenKey (TxID w) (base + Z.of_nat (i0 + j))) ->
       rw st' !! k = rw st !! k /\ meta st' !! k = meta st !! k).
Proof.
  revert i0 st. induction outs as [|o outs IH]; intros i0 st.
  - exists st. split; [reflexivity|]. split; [reflexivity|].
    split; [intros j Hj; simpl in Hj; lia|]. auto.
  - set (k0 := TokenKey (TxID w) (base + Z.of_nat i0)).
    set (st1 := SetStateMetadata k0 [(Action_key, ActionIssue)] (SetState k0 o st)).
    destruct (IH (S i0) st1) as (st' & Hrun & Hc & Hw & Hf).
    exists st'. cbn [for_i].
    rewrite (TM_bind_ret_ok _ _ st st1 tt) by reflexivity.
    split; [exact Hrun|]. split; [rewrite Hc; reflexivity|]. split.
    + intros [|j] Hj.
      * rewrite Nat.add_0_r. fold k0.
        destruct (Hf k0) as [Hr Hm].
        { intros j Hj' Heq. unfold k0 in Heq. injection Heq as Heq. lia. }
        rewrite Hr, Hm. unfold st1, SetStateMetadata, SetState; cbn [rw meta].
        rewrite !lookup_insert_eq. auto.
      * simpl in Hj. replace (i0 + S j)%nat with (S i0 + j)%nat by lia.
        apply Hw. lia.
    + intros k Hk. destruct (Hf k) as [Hr Hm].
      { intros j Hj. replace (S i0 + j)%nat with (i0 + S j)%nat by lia. apply Hk. simpl. lia. }
      rewrite Hr, Hm. unfold st1, SetStateMetadata, SetState; cbn [rw meta].
      assert (k <> k0) by (unfold k0; rewrite <- (Nat.add_0_r i0); apply Hk; simpl; lia).
      rewrite !lookup_insert_ne by congruence. auto.
Qed.

Lemma transfer_loop w t base ser n s0 i st :
  (forall j, (s0 <= j < s0 + n)%nat -> IsRedeemAt t j = false -> SerializeOutputAt t j = ROk (ser j)) ->
  exists st',
    for_i (fun _ i =>
       if IsRedeemAt t i then mret tt
       else
         let outputID := TokenKey (TxID w) (base + Z.of_nat i) in
         bytes ← lift (SerializeOutputAt t i);
         _ ← modify (SetState outputID bytes);
         modify (SetStateMetadata outputID [(Action_key, ActionTransfer)])) i (seq s0 n) st = (st', ROk tt) /\
    counter st' = counter st /\
    (forall j, (s0 <= j < s0 + n)%nat -> IsRedeemAt t j = false ->
       rw st' !! TokenKey (TxID w) (base + Z.of_nat j) = Some (ser j) /\
       meta st' !! TokenKey (TxID w) (base + Z.of_nat j) = Some [(Action_key, ActionTransfer)]) /\
    (forall k, (forall j, (s0 <= j < s0 + n)%nat -> IsRedeemAt t j = false ->
                  k <> TokenKey (TxID w) (base + Z.of_nat j)) ->
       rw st' !! k = rw st !! k /\ meta st' !! k = meta st !! k).
Proof.
  revert s0 i st. induction n as [|n IH]; intros s0 i st Hser.
  - exists st. split; [reflexivity|]. split; [reflexivity|]. split; [intros; lia|]. auto.
  - set (k0 := TokenKey (TxID w) (base + Z.of_nat s0)).
    set (st1 := if IsRedeemAt t s0 then st
                else SetStateMetadata k0 [(Action_key, ActionTransfer)] (SetState k0 (ser s0) st)).
    destruct (IH (S s0) (S i) st1) as (st' & Hrun & Hc & Hw & Hf).
    { intros j Hj. apply Hser. lia. }
    exists st'. cbn [seq for_i].
    rewrite (TM_bind_ret_ok _ _ st st1 tt).
    2:{ unfold st1. destruct (IsRedeemAt t s0) eqn:Er; [reflexivity|].
        rewrite (TM_bind_ret_ok _ _ st st (ser s0)) by (cbn [lift]; rewrite Hser by (auto; lia); reflexivity).
        reflexivity. }
    split; [exact Hrun|]. split.
    { rewrite Hc. unfold st1. destruct (IsRedeemAt t s0); reflexivity. }
    split.
    + intros j Hj Hr. destruct (decide (j = s0)) as [->|Hne].
      * fold k0. destruct (Hf k0) as [Hr' Hm'].
        { intros j' Hj' _. apply TokenKey_inj. lia. }
        rewrite Hr', Hm'. unfold st1. rewrite Hr. unfold SetStateMetadata, SetState; cbn [rw meta].
        rewrite !lookup_insert_eq. auto.
      * apply Hw; [lia|exact Hr].
    + intros k Hk. destruct (Hf k) as [Hr Hm].
      { intros j Hj Hrj. apply Hk; [lia|exact Hrj]. }
      rewrite Hr, Hm. unfold st1. destruct (IsRedeemAt t s0) eqn:Er; [auto|].
      assert (k <> k0) by (apply Hk; [lia|exact Er]).
      unfold SetStateMetadata, SetState; cbn [rw meta].
      rewrite !lookup_insert_ne by congruence. auto.
Qed.

Lemma spend_loop ids gh i st :
  exists st',
    for_i (fun _ => if negb gh then (fun id => _ ← modify (DeleteState id); modify (SetStateMetadata id []))
                    else (fun id => modify (SetState id "true"))) i ids st = (st', ROk tt) /\
    counter st' = counter st /\
    (forall k, k ∈ ids ->
       if gh then rw st' !! k = Some "true" else rw st' !! k = None /\ meta st' !! k = Some []) /\
    (forall k, k ∉ ids -> rw st' !! k = rw st !! k /\ meta st' !! k = meta st !! k).
Proof.
  revert i st. induction ids as [|x ids IH]; intros i st.
  - exists st. split; [reflexivity|]. split; [reflexivity|].
    split; [intros k Hk; apply elem_of_nil in Hk; contradiction|]. auto.
  - set (st1 := if negb gh then SetStateMetadata x [] (DeleteState x st) else SetState x "true" st).
    destruct (IH (S i) st1) as (st' & Hrun & Hc & Hin & Hf).
    exists st'. cbn [for_i].
    rewrite (TM_bind_ret_ok _ _ st st1 tt) by (unfold st1; destruct gh; reflexivity).
    split; [exact Hrun|]. split; [rewrite Hc; unfold st1; destruct gh; reflexivity|]. split.
    + intros k Hk. destruct (decide (k ∈ ids)) as [Hk'|Hk']; [apply Hin, Hk'|].
      rewrite elem_of_cons in Hk. destruct Hk as [->|Hk]; [|contradiction].
      destruct (Hf x Hk') as [Hr Hm]. rewrite Hr, Hm. unfold st1.
      destruct gh; cbn [negb]; unfold SetState, SetStateMetadata, DeleteState; cbn [rw meta].
      * rewrite lookup_insert_eq. reflexivity.
      * rewrite lookup_delete_eq, lookup_insert_eq. auto.
    + intros k Hk. rewrite elem_of_cons in Hk.
      assert (k <> x) by tauto. destruct (Hf k) as [Hr Hm]; [tauto|].
      rewrite Hr, Hm. unfold st1.
      destruct gh; cbn [negb]; unfold SetState, SetStateMetadata, DeleteState; cbn [rw meta].
      * rewrite lookup_insert_ne by congruence. auto.
      * rewrite lookup_delete_ne, lookup_insert_ne by congruence. auto.
Qed.

(** Claim C3. Once a transfer of mode [gh] consuming input key [K] is
    written, [K] stays spent through every later write of the same mode
    (issues, setups, transfers, new translators) whose translators do not
    emit [K] as an output key; every later transfer of that mode listing
    [K] is then refused by [checkTransfer], and its [Write] fails without
    writing. Spent means: no value under [K] in non-graph-hiding mode, a
    value under [K] (the nullifier) in graph-hiding mode. *)
Theorem transfer_input_never_accepted_again gh w w2 t t2 ids ids2 K st steps :
  IsGraphHiding t = gh -> GetInputs t = ROk ids -> K ∈ ids ->
  snd (Write w (Transfer t) st) = ROk tt ->
  K <> SetupKey -> Forall (step_ok gh K) steps ->
  IsGraphHiding t2 = gh -> GetInputs t2 = ROk ids2 -> K ∈ ids2 ->
  let st' := run steps (fst (Write w (Transfer t) st)) in
  spent gh st' K /\
  is_err (checkTransfer w2 st' t2) = true /\
  is_err (snd (Write w2 (Transfer t2) st')) = true /\
  fst (Write w2 (Transfer t2) st') = st'.
Proof.
  intros Hg Hi Hin Hok HS Hsteps Hg2 Hi2 Hin2 st'.
  assert (Hsp : spent gh st' K).
  { unfold st'. apply run_pres; [exact HS|exact Hsteps|].
    destruct (Write w (Transfer t) st) as [st1 r] eqn:EW. simpl in Hok |- *. subst r.
    rewrite <- Hg. apply (Write_transfer_spent w t ids K st st1 Hi Hin EW). }
  assert (Hc : is_err (checkTransfer w2 st' t2) = true).
  { apply (checkTransfer_spent w2 st' t2 ids2 K); [rewrite Hg2; exact Hsp|exact Hi2|exact Hin2]. }
  split; [exact Hsp|]. split; [exact Hc|].
  apply (Write_check_err w2 (Transfer t2) st'). exact Hc.
Qed.

(** Claim C7. [CommitTokenRequest] succeeds exactly when no value is
    stored under the request key of the anchor; then it writes the raw
    request there; otherwise it returns an error and writes nothing. *)
Theorem CommitTokenRequest_once w raw st :
  (snd (CommitTokenRequest w raw st) = ROk tt <-> rw st !! TokenRequestKey (TxID w) = None) /\
  (rw st !! TokenRequestKey (TxID w) = None ->
     fst (CommitTokenRequest w raw st) = SetState (TokenRequestKey (TxID w)) raw st) /\
  (rw st !! TokenRequestKey (TxID w) <> None ->
     is_err (snd (CommitTokenRequest w raw st)) = true /\ fst (CommitTokenRequest w raw st) = st).
Proof.
  unfold CommitTokenRequest. rewrite TM_bind_eq. cbn [get]. unfold GetState.
  destruct (rw st !! TokenRequestKey (TxID w)) eqn:E; cbn.
  - split; [split; discriminate|]. split; [discriminate|]. auto.
  - split; [split; reflexivity|]. split; [reflexivity|]. intros H; contradiction.
Qed.

(** Claim C10. [checkAction] accepts every setup action; [Write] of a
    setup action keeps the counter, and when the action's parameters are
    [raw] it succeeds and stores [raw] under the setup key, whatever was
    stored there before. *)
Theorem setup_write_overwrites w s st :
  checkAction w st (Setup s) = ROk tt /\
  counter (fst (Write w (Setup s) st)) = counter st /\
  (forall raw, GetSetupParameters s = ROk raw ->
     Write w (Setup s) st = (SetState SetupKey raw st, ROk tt) /\
     rw (fst (Write w (Setup s) st)) !! SetupKey = Some raw).
Proof.
  unfold Write, checkProcess, commitProcess, commitAction, commitSetupAction.
  rewrite !TM_bind_eq. cbn [get lift checkAction].
  split; [reflexivity|]. rewrite TM_bind_eq. cbn [lift].
  split; [destruct (GetSetupParameters s); reflexivity|].
  intros raw Hr. rewrite Hr. cbn [modify fst]. split; [reflexivity|].
  unfold SetState; cbn [rw]. apply lookup_insert_eq.
Qed.

(** Claim C8. Committing an issue action whose outputs are [outs] writes
    [outs[j]] under [TokenKey(TxID, counter + j)] tagged [issue] and
    advances the counter by [len(outs)]. Committing a transfer action
    writes each non-redeemed output [j] under [TokenKey(TxID, counter + j)]
    tagged [transfer], writes nothing under the keys of redeemed outputs,
    deletes its inputs (clearing their metadata) in non-graph-hiding mode
    or writes the marker ["true"] under them in graph-hiding mode, and
    advances the counter by [NumOutputs], redeemed outputs included. *)
Theorem commit_key_assignment w :
  (forall ia outs st,
     GetSerializedOutputs ia = ROk outs ->
     snd (commitIssueAction w ia st) = ROk tt /\
     counter (fst (commitIssueAction w ia st)) = counter st + Z.of_nat (length outs) /\
     (forall j, (j < length outs)%nat ->
        rw (fst (commitIssueAction w ia st)) !! TokenKey (TxID w) (counter st + Z.of_nat j) = outs !! j /\
        meta (fst (commitIssueAction w ia st)) !! TokenKey (TxID w) (counter st + Z.of_nat j) =
          Some [(Action_key, ActionIssue)])) /\
  (forall t ids ser st,
     GetInputs t = ROk ids ->
     (forall j, (j < NumOutputs t)%nat -> IsRedeemAt t j = false -> SerializeOutputAt t j = ROk (ser j)) ->
     (forall j, (j < NumOutputs t)%nat -> TokenKey (TxID w) (counter st + Z.of_nat j) ∉ ids) ->
     snd (commitTransferAction w t st) = ROk tt /\
     counter (fst (commitTransferAction w t st)) = counter st + Z.of_nat (NumOutputs t) /\
     (forall j, (j < NumOutputs t)%nat -> IsRedeemAt t j = false ->
        rw (fst (commitTransferAction w t st)) !! TokenKey (TxID w) (counter st + Z.of_nat j) = Some (ser j) /\
        meta (fst (commitTransferAction w t st)) !! TokenKey (TxID w) (counter st + Z.of_nat j) =
          Some [(Action_key, ActionTransfer)]) /\
     (forall j, (j < NumOutputs t)%nat -> IsRedeemAt t j = true ->
        rw (fst (commitTransferAction w t st)) !! TokenKey (TxID w) (counter st + Z.of_nat j) =
          rw st !! TokenKey (TxID w) (counter st + Z.of_nat j)) /\
     (forall k, k ∈ ids ->
        if IsGraphHiding t then rw (fst (commitTransferAction w t st)) !! k = Some "true"
        else rw (fst (commitTransferAction w t st)) !! k = None /\
             meta (fst (commitTransferAction w t st)) !! k = Some [])).
Proof.
  split.
  - intros ia outs st Ho.
    destruct (issue_loop w (counter st) 0 outs st) as (st' & Hrun & Hc & Hw & _).
    assert (E : commitIssueAction w ia st = (add_counter (length outs) st', ROk tt)).
    { unfold commitIssueAction.
      rewrite (TM_bind_ret_ok _ _ st st st) by reflexivity.
      rewrite (TM_bind_ret_ok _ _ st st outs) by (cbn [lift]; rewrite Ho; reflexivity).
      rewrite (TM_bind_ret_ok _ _ st st' tt Hrun). reflexivity. }
    rewrite E. cbn [fst snd]. split; [reflexivity|]. split; [cbn; rewrite Hc; reflexivity|].
    intros j Hj. exact (Hw j Hj).
  - intros t ids ser st Hi Hser Hdisj.
    destruct (transfer_loop w t (counter st) ser (NumOutputs t) 0 0 st) as (st1 & Hrun & Hc & Hw & Hf).
    { intros j Hj. apply Hser. lia. }
    destruct (spend_loop ids (IsGraphHiding t) 0 st1) as (st2 & Hrun2 & Hc2 & Hin & Hf2).
    assert (E : commitTransferAction w t st = (add_counter (NumOutputs t) st2, ROk tt)).
    { unfold commitTransferAction.
      rewrite (TM_bind_ret_ok _ _ st st st) by reflexivity.
      rewrite (TM_bind_ret_ok _ _ st st1 tt Hrun).
      rewrite (TM_bind_ret_ok _ _ st1 st1 ids) by (cbn [lift]; rewrite Hi; reflexivity).
      rewrite (TM_bind_ret_ok _ _ st1 st2 tt) by (unfold spendTokens, for_; destruct (IsGraphHiding t); exact Hrun2).
      reflexivity. }
    rewrite E. cbn [fst snd]. split; [reflexivity|].
    split; [cbn; rewrite Hc2, Hc; reflexivity|].
    split; [|split].
    + intros j Hj Hr. cbn [rw meta add_counter].
      destruct (Hf2 (TokenKey (TxID w) (counter st + Z.of_nat j))) as [Hr2 Hm2]; [apply Hdisj, Hj|].
      rewrite Hr2, Hm2. apply Hw; [lia|exact Hr].
    + intros j Hj Hr. cbn [rw add_counter].
      destruct (Hf2 (TokenKey (TxID w) (counter st + Z.of_nat j))) as [Hr2 _]; [apply Hdisj, Hj|].
      rewrite Hr2. apply Hf. intros j' Hj' Hr'. apply TokenKey_inj. intros ->. congruence.
    + intros k Hk. cbn [rw meta add_counter]. apply Hin, Hk.
Qed.

Lemma transfer_input_never_accepted_again_witness :
  let st' := run [NewTranslator; WriteStep (toy_translator "tx2") (Issue toy_issue)]
                 (fst (Write (toy_translator "tx1") (Transfer (toy_transfer false)) toy_st)) in
  spent false st' toy_key /\
  is_err (checkTransfer (toy_translator "tx3") st' (toy_transfer false)) = true /\
  is_err (snd (Write (toy_translator "tx3") (Transfer (toy_transfer false)) st')) = true /\
  fst (Write (toy_translator "tx3") (Transfer (toy_transfer false)) st') = st'.
Proof.
  apply (transfer_input_never_accepted_again false (toy_translator "tx1") (toy_translator "tx3")
           (toy_transfer false) (toy_transfer false) [toy_key] [toy_key] toy_key toy_st).
  - reflexivity.
  - reflexivity.
  - apply list_elem_of_singleton. reflexivity.
  - vm_compute. reflexivity.
  - discriminate.
  - repeat constructor. intros n Hn. discriminate Hn.
  - reflexivity.
  - reflexivity.
  - apply list_elem_of_singleton. reflexivity.
Defined.

Lemma CommitTokenRequest_once_witness :
  fst (CommitTokenRequest (toy_translator "tx1") "req" toy_st) =
    SetState (TokenRequestKey "tx1") "req" toy_st /\
  is_err (snd (CommitTokenRequest (toy_translator "tx1") "again"
                 (SetState (TokenRequestKey "tx1") "req" toy_st))) = true.
Proof.
  split.
  - apply (CommitTokenRequest_once (toy_translator "tx1") "req" toy_st). vm_compute. reflexivity.
  - apply (CommitTokenRequest_once (toy_translator "tx1") "again"
             (SetState (TokenRequestKey "tx1") "req" toy_st)).
    vm_compute. discriminate.
Defined.

Lemma setup_write_overwrites_witness :
  Write (toy_translator "tx1") (Setup {| GetSetupParameters := ROk "new" |})
        (SetState SetupKey "old" toy_st) =
    (SetState SetupKey "new" (SetState SetupKey "old" toy_st), ROk tt) /\
  rw (fst (Write (toy_translator "tx1") (Setup {| GetSetupParameters := ROk "new" |})
             (SetState SetupKey "old" toy_st))) !! SetupKey = Some "new".
Proof.
  apply (setup_write_overwrites (toy_translator "tx1") {| GetSetupParameters := ROk "new" |}
           (SetState SetupKey "old" toy_st)).
  reflexivity.
Defined.

Lemma commit_key_assignment_witness :
  rw (fst (commitTransferAction (toy_translator "tx1") (toy_transfer true) toy_st))
     !! TokenKey "tx1" (0 + Z.of_nat 0) = Some "out" /\
  rw (fst (commitTransferAction (toy_translator "tx1") (toy_transfer true) toy_st)) !! toy_key = Some "true" /\
  counter (fst (commitTransferAction (toy_translator "tx1") (toy_transfer true) toy_st)) = 0 + Z.of_nat 2.
Proof.
  destruct (proj2 (commit_key_assignment (toy_translator "tx1")) (toy_transfer true) [toy_key]
              (fun _ => "out") toy_st) as (_ & Hc & Hw & _ & Hin).
  - reflexivity.
  - intros j _ _. reflexivity.
  - intros j Hj Hin. apply list_elem_of_singleton in Hin. discriminate Hin.
  - split; [apply (Hw 0%nat); [cbn [NumOutputs toy_transfer]; lia|reflexivity]|]. split; [apply (Hin toy_key); apply list_elem_of_singleton; reflexivity|].
    exact Hc.
Defined.

End TranslatorFacts.

(** ** Transfer preparation: no conservation check *)
Module TokenFacts.
Import token.

Ltac bind_red := repeat (change (ROk ?x ≫= ?g) with (g x); cbv beta iota).

Lemma outputSum_exact_go values acc :
  Forall (fun v => 0 <= v) values -> 0 <= acc -> acc + fold_right Z.add 0 values < 2 ^ 64 ->
  fold_left (fun acc v => (acc + v) mod 2 ^ 64) values acc = acc + fold_right Z.add 0 values.
Proof.
  revert acc. induction values as [|v values IH]; intros acc Hv Ha Hs; simpl in *.
  - lia.
  - rewrite Forall_cons in Hv. destruct Hv as [Hv0 Hv]. cbv beta in Hv0.
    assert (0 <= fold_right Z.add 0 values).
    { clear -Hv. induction values as [|x l IHl]; simpl; [lia|].
      rewrite Forall_cons in Hv. destruct Hv as [Hx Hl]. cbv beta in Hx. specialize (IHl Hl). lia. }
    rewrite Z.mod_small by lia. rewrite IH; [lia|exact Hv|lia|lia].
Qed.

Lemma outputSum_exact values :
  Forall (fun v => 0 <= v) values -> fold_right Z.add 0 values < 2 ^ 64 ->
  outputSum values = fold_right Z.add 0 values.
Proof. intros Hv Hs. unfold outputSum. rewrite outputSum_exact_go; [lia|exact Hv|lia|lia]. Qed.

Lemma parse_loop_same env typ toks qs s0 :
  Forall (fun tok => UType tok = typ) toks -> typ <> "" ->
  mapM (fun tok => ToQuantity env (UQuantity tok)) toks = ROk qs ->
  parse_loop env toks typ s0 = ROk (Some (typ, s0 + fold_right Z.add 0 qs)).
Proof.
  revert qs s0. induction toks as [|tok toks IH]; intros qs s0 Ht Hne Hq.
  - cbn in Hq. injection Hq as <-. simpl. rewrite Z.add_0_r. reflexivity.
  - rewrite Forall_cons in Ht. destruct Ht as [Ht0 Ht].
    cbn [mapM] in Hq. destruct (ToQuantity env (UQuantity tok)) as [q| |] eqn:Eq; try discriminate.
    change (ROk q ≫= ?g) with (g q) in Hq. cbv beta in Hq.
    destruct (mapM _ toks) as [qs'| |] eqn:Eqs; try discriminate.
    change (ROk qs' ≫= ?g) with (g qs') in Hq. cbv beta in Hq. injection Hq as <-.
    cbn [parse_loop].
    assert (Hl : Nat.eqb (String.length typ) 0 = false).
    { apply Nat.eqb_neq. intros H. apply Hne. destruct typ; [reflexivity|discriminate]. }
    rewrite Hl, Ht0, String.eqb_refl. cbn [negb]. rewrite Eq. cbn [wrap].
    change (ROk q ≫= ?g) with (g q). cbv beta.
    rewrite <- Ht0 at 1. rewrite Ht0.
    rewrite (IH qs' (s0 + q) Ht Hne eq_refl). cbn [fold_right]. do 3 f_equal. lia.
Qed.

Lemma owners_ok owners :
  Forall (fun o => IsNone o = false) owners ->
  mapM (fun owner =>
         if false then
           if negb (IsNone owner) then RErr "all recipients must be nil" else ROk tt
         else
           if IsNone owner then RErr "all recipients should be defined" else ROk tt) owners =
  ROk ((fun _ => tt) <$> owners).
Proof.
  intros Ho. apply mapM_ok. intros o Hin. rewrite Forall_forall in Ho. rewrite (Ho o Hin). reflexivity.
Qed.

Lemma outputs_ok owners typ values :
  (length values <= length owners)%nat ->
  mapM (fun '(i, value) =>
          owner ← nth_go owners i;
          ROk {| Owner := owner; Type_ := typ; Quantity := value |})
       (zip (seq 0 (length values)) values) =
  ROk ((fun '(i, v) => {| Owner := nth i owners ""; Type_ := typ; Quantity := v |})
         <$> zip (seq 0 (length values)) values).
Proof.
  intros Hlen. apply mapM_ok. intros [i v] Hin.
  apply elem_of_zip_l in Hin. apply elem_of_seq in Hin.
  rewrite (nth_go_lt owners i "") by lia. reflexivity.
Qed.

(** Claim C2 (code bug). [prepareTransfer] enforces no conservation and
    does not refuse mixed types. With passed inputs of two types it
    panics: the type check of [parseInputIDs] wraps the nil error of the
    vault query, so it returns no error with a nil sum, on which
    [prepareTransfer] calls [Cmp]. With passed inputs of the declared type
    whose sum is at most the sum of the output values, equal or not, it
    returns the inputs and the requested outputs, and [Request.Transfer]
    goes on to the driver's proof construction ([tms.Transfer]). *)
Theorem prepareTransfer_no_conservation_check :
  (forall env typ values owners ids tA tB qA,
     ids <> [] -> GetTokens env ids = ROk [tA; tB] ->
     UType tA <> "" -> UType tA <> UType tB ->
     ToQuantity env (UQuantity tA) = ROk qA -> RequestCertification env [] = ROk tt ->
     Forall (fun o => IsNone o = false) owners -> (length values <= length owners)%nat ->
     prepareTransfer env false typ values owners {| TokenIDs := ids; Selector := None |} = RPanic) /\
  (forall env typ values owners ids toks qs,
     ids <> [] -> GetTokens env ids = ROk toks -> toks <> [] -> typ <> "" ->
     Forall (fun tok => UType tok = typ) toks ->
     mapM (fun tok => ToQuantity env (UQuantity tok)) toks = ROk qs ->
     RequestCertification env ids = ROk tt ->
     Forall (fun o => IsNone o = false) owners -> (length values <= length owners)%nat ->
     Forall (fun v => 0 <= v) values -> fold_right Z.add 0 values < 2 ^ 64 ->
     fold_right Z.add 0 qs <= fold_right Z.add 0 values ->
     prepareTransfer env false typ values owners {| TokenIDs := ids; Selector := None |} =
       ROk (ids, (fun '(i, v) => {| Owner := nth i owners ""; Type_ := typ; Quantity := v |})
                   <$> zip (seq 0 (length values)) values) /\
     Transfer env typ values owners {| TokenIDs := ids; Selector := None |} =
       ('(transfer, transferMetadata) ←
          wrap (tms_Transfer env ids
                  ((fun '(i, v) => {| Owner := nth i owners ""; Type_ := typ; Quantity := v |})
                     <$> zip (seq 0 (length values)) values))
               "failed creating transfer action";
        _ ← wrap (VerifyTransfer env transfer transferMetadata) "failed checking generated proof";
        ROk transfer)).
Proof.
  split.
  - intros env typ values owners ids tA tB qA Hids Hget HA HAB Hq Hcert Ho Hlen.
    unfold prepareTransfer. rewrite (owners_ok owners Ho).
    change (ROk ?x ≫= ?g) with (g x). cbv beta. cbn [TokenIDs Selector].
    assert (Hl : Nat.eqb (length ids) 0 = false) by (destruct ids; [congruence|reflexivity]).
    rewrite Hl. cbn [negb].
    unfold parseInputIDs. rewrite Hget. cbn [wrap]. change (ROk ?x ≫= ?g) with (g x). cbv beta.
    cbn [parse_loop]. cbn [String.length Nat.eqb]. rewrite String.eqb_refl. cbn [negb].
    rewrite Hq. cbn [wrap]. change (ROk qA ≫= ?g) with (g qA). cbv beta.
    assert (Hl2 : Nat.eqb (String.length (UType tA)) 0 = false).
    { apply Nat.eqb_neq. intros H. apply HA. destruct (UType tA); [reflexivity|discriminate]. }
    rewrite Hl2. destruct (String.eqb_spec (UType tA) (UType tB)) as [E|_]; [contradiction|].
    cbn [negb]. bind_red. cbn [wrap]. bind_red.
    rewrite Hcert. cbn [wrap]. bind_red.
    rewrite (outputs_ok owners "" values Hlen). bind_red.
    reflexivity.
  - intros env typ values owners ids toks qs Hids Hget Hne Htyp Ht Hq Hcert Ho Hlen Hv Hs Hle.
    assert (Hpt : prepareTransfer env false typ values owners {| TokenIDs := ids; Selector := None |} =
       ROk (ids, (fun '(i, v) => {| Owner := nth i owners ""; Type_ := typ; Quantity := v |})
                   <$> zip (seq 0 (length values)) values)).
    { unfold prepareTransfer. rewrite (owners_ok owners Ho).
      change (ROk ?x ≫= ?g) with (g x). cbv beta. cbn [TokenIDs Selector].
      assert (Hl : Nat.eqb (length ids) 0 = false) by (destruct ids; [congruence|reflexivity]).
      rewrite Hl. cbn [negb].
      unfold parseInputIDs. rewrite Hget. cbn [wrap]. change (ROk ?x ≫= ?g) with (g x). cbv beta.
      destruct toks as [|tok toks']; [congruence|].
      rewrite Forall_cons in Ht. destruct Ht as [Ht0 Ht'].
      cbn [mapM] in Hq. destruct (ToQuantity env (UQuantity tok)) as [q| |] eqn:Eq; try discriminate.
      change (ROk q ≫= ?g) with (g q) in Hq. cbv beta in Hq.
      destruct (mapM _ toks') as [qs'| |] eqn:Eqs; try discriminate.
      change (ROk qs' ≫= ?g) with (g qs') in Hq. cbv beta in Hq. injection Hq as <-.
      cbn [parse_loop String.length Nat.eqb]. rewrite Ht0, String.eqb_refl. cbn [negb].
      rewrite Eq. cbn [wrap]. bind_red.
      rewrite (parse_loop_same env typ toks' qs' (0 + q) Ht' Htyp Eqs). bind_red.
      cbn [wrap]. bind_red. rewrite Hcert. cbn [wrap]. bind_red.
      rewrite (outputs_ok owners typ values Hlen). bind_red.
      rewrite ?Hl. bind_red.
      unfold Cmp, NewQuantityFromUInt64. rewrite (outputSum_exact values Hv Hs).
      cbn [fold_right] in Hle.
      destruct (Z.ltb_spec (0 + q + fold_right Z.add 0 qs') (fold_right Z.add 0 values)); bind_red;
        [reflexivity|].
      destruct (Z.eqb_spec (0 + q + fold_right Z.add 0 qs') (fold_right Z.add 0 values)); bind_red;
        [reflexivity|lia]. }
    split; [exact Hpt|].
    unfold Transfer. rewrite Hpt. reflexivity.
Qed.
(** Witness for C2: [ABC:30] with [XYZ:5] panics; [ABC:30] for an output
    of 65 is prepared and handed to the driver. *)
Lemma prepareTransfer_no_conservation_check_witness :
  prepareTransfer toy_env false "ABC" [65] ["bob"] {| TokenIDs := [toy_id 0; toy_id 2]; Selector := None |}
    = RPanic /\
  prepareTransfer toy_env false "ABC" [65] ["bob"] {| TokenIDs := [toy_id 0]; Selector := None |}
    = ROk ([toy_id 0], [{| Owner := "bob"; Type_ := "ABC"; Quantity := 65 |}]) /\
  Transfer toy_env "ABC" [65] ["bob"] {| TokenIDs := [toy_id 0]; Selector := None |} = ROk "transfer".
Proof.
  split; [|split].
  - refine (proj1 prepareTransfer_no_conservation_check toy_env "ABC" [65] ["bob"]
              [toy_id 0; toy_id 2]
              {| UId := toy_id 0; UType := "ABC"; UQuantity := "30" |}
              {| UId := toy_id 2; UType := "XYZ"; UQuantity := "5" |} 30 _ _ _ _ _ _ _ _).
    all: first [discriminate | reflexivity | repeat constructor | cbn; lia].
  - refine (proj1 (proj2 prepareTransfer_no_conservation_check toy_env "ABC" [65] ["bob"]
              [toy_id 0] [{| UId := toy_id 0; UType := "ABC"; UQuantity := "30" |}] [30]
              _ _ _ _ _ _ _ _ _ _ _ _)).
    all: first [discriminate | reflexivity | (repeat constructor; cbn; lia) | cbn; lia].
  - refine (eq_trans (proj2 (proj2 prepareTransfer_no_conservation_check toy_env "ABC" [65] ["bob"]
              [toy_id 0] [{| UId := toy_id 0; UType := "ABC"; UQuantity := "30" |}] [30]
              _ _ _ _ _ _ _ _ _ _ _ _)) _).
    all: first [discriminate | reflexivity | (repeat constructor; cbn; lia) | cbn; lia].
Defined.

End TokenFacts.

(* ------------------------------------------------------------------ *)
(** ** Generic facts on the result type *)
Module ResFacts.

Lemma nth_go_not_err {A} (l : list A) i : is_err (nth_go l i) = false.
Proof. unfold nth_go. destruct (l !! i); reflexivity. Qed.

Lemma nth_go_ge {A} (l : list A) i : (length l <= i)%nat -> nth_go l i = RPanic.
Proof. intros H. unfold nth_go. rewrite lookup_ge_None_2 by exact H. reflexivity. Qed.

Lemma bind_not_err {A B} (m : res A) (f : A -> res B) :
  is_err m = false -> (forall a, m = ROk a -> is_err (f a) = false) -> is_err (m ≫= f) = false.
Proof. destruct m as [a| |]; cbn; auto. Qed.

Lemma mapM_not_err {A B} (f : A -> res B) l :
  (forall x, x ∈ l -> is_err (f x) = false) -> is_err (mapM f l) = false.
Proof.
  induction l as [|y l IH]; intros Hall; [reflexivity|].
  cbn [mapM]. apply bind_not_err; [apply Hall; apply elem_of_cons; left; reflexivity|].
  intros a _. apply bind_not_err; [apply IH; intros z Hz; apply Hall; apply elem_of_cons; right; exact Hz|].
  intros b _. reflexivity.
Qed.

Lemma mapM_panic {A B} (f : A -> res B) l x :
  (forall y, y ∈ l -> is_err (f y) = false) -> x ∈ l -> f x = RPanic -> mapM f l = RPanic.
Proof.
  induction l as [|y l IH]; intros Hall Hin Hx.
  - apply elem_of_nil in Hin. contradiction.
  - cbn [mapM]. rewrite elem_of_cons in Hin. destruct Hin as [<-|Hin]; [rewrite Hx; reflexivity|].
    assert (Hy := Hall y (proj2 (elem_of_cons l y y) (or_introl eq_refl))).
    destruct (f y) as [b| |]; [|discriminate|reflexivity].
    change (ROk b ≫= ?g) with (g b). cbv beta.
    rewrite IH; [reflexivity| |exact Hin|exact Hx].
    intros z Hz. apply Hall. apply elem_of_cons. right. exact Hz.
Qed.

Lemma mapM_no_panic {A B} (f : A -> res B) l :
  (forall x, x ∈ l -> f x <> RPanic) -> mapM f l <> RPanic.
Proof.
  induction l as [|y l IH]; intros Hall; [discriminate|].
  cbn [mapM]. pose proof (Hall y (proj2 (elem_of_cons l y y) (or_introl eq_refl))) as Hy.
  destruct (f y) as [b| |]; [|discriminate|contradiction].
  change (ROk b ≫= ?g) with (g b). cbv beta.
  assert (H : mapM f l <> RPanic) by (apply IH; intros z Hz; apply Hall, elem_of_cons; right; exact Hz).
  destruct (mapM f l); [discriminate|discriminate|contradiction].
Qed.

Lemma bind_panic_r {A B} (m : res A) (f : A -> res B) :
  is_err m = false -> (forall a, m = ROk a -> f a = RPanic) -> (m ≫= f) = RPanic.
Proof. intros H1 H2. destruct m as [a| |]; cbn in *; [apply H2; reflexivity|discriminate|reflexivity]. Qed.

Lemma bind_panic_l {A B} (m : res A) (f : A -> res B) : m = RPanic -> (m ≫= f) = RPanic.
Proof. intros ->. reflexivity. Qed.

(** mapM over a list whose elements each give [ROk tt] or the error [m],
    one of them the error, gives [RErr m]. *)
Lemma mapM_const_err {A} (f : A -> res unit) l m :
  (forall x, x ∈ l -> f x = ROk tt \/ f x = RErr m) ->
  (exists x, x ∈ l /\ f x = RErr m) -> mapM f l = RErr m.
Proof.
  induction l as [|y l IH]; intros Hall (x & Hin & Hx).
  - apply elem_of_nil in Hin. contradiction.
  - cbn [mapM]. destruct (Hall y (proj2 (elem_of_cons l y y) (or_introl eq_refl))) as [Hy|Hy]; rewrite Hy.
    + change (ROk tt ≫= ?g) with (g tt). cbv beta.
      rewrite IH; [reflexivity| |].
      * intros z Hz. apply Hall. apply elem_of_cons. right. exact Hz.
      * rewrite elem_of_cons in Hin. destruct Hin as [->|Hin]; [congruence|eauto].
    + reflexivity.
Qed.

End ResFacts.

(* ------------------------------------------------------------------ *)
(** ** The translator: reads, and the checks and commits of [Write] *)
Module TranslatorReadFacts.
Import translator.
Import translator_read.
Import TranslatorFacts.
Import ResFacts.

Lemma query_loop_app st ids r e :
  query_loop st ids r e =
  (r ++ (query_loop st ids [] []).1, e ++ (query_loop st ids [] []).2).
Proof.
  revert r e. induction ids as [|id ids IH]; intros r e; simpl.
  - rewrite !app_nil_r. reflexivity.
  - destruct (Nat.eqb _ 0).
    + rewrite (IH r), (IH [] ["output for key does not exist"]). simpl.
      rewrite <- (app_assoc e). reflexivity.
    + rewrite (IH (r ++ _)), (IH [_] []). simpl. rewrite <- (app_assoc r). reflexivity.
Qed.

Lemma query_loop_spec st ids vs :
  ((query_loop st ids [] []).2 = [] /\ (query_loop st ids [] []).1 = vs) <->
  Forall2 (fun id v => GetState st (TokenKey (token.TxId id) (token.Index id)) = Some v /\ v <> "") ids vs.
Proof.
  revert vs. induction ids as [|id ids IH]; intros vs.
  - cbn [query_loop fst snd]. split; [intros [_ <-]; constructor|intros H; inversion H; auto].
  - cbn [query_loop]. rewrite query_loop_app.
    destruct (GetState st (TokenKey (token.TxId id) (token.Index id))) as [b|] eqn:Eb.
    + change (default "" (Some b)) with b.
      destruct (Nat.eqb_spec (String.length b) 0) as [Hb|Hb]; cbn [fst snd app].
      * split.
        -- intros [H _]. discriminate H.
        -- intros H. inversion H as [|? v ? vs' Hv _]; subst. destruct Hv as [Hv Hne].
           rewrite Eb in Hv. injection Hv as <-. destruct b; [contradiction|discriminate].
      * split.
        -- rewrite (query_loop_app st ids [b] []). cbn [fst snd app].
           intros [He Hr]. destruct vs as [|v vs]; [discriminate|].
           injection Hr as <- Hr. constructor; [split; [exact Eb|]|].
           ++ intros ->. apply Hb. reflexivity.
           ++ apply IH. auto.
        -- rewrite (query_loop_app st ids [b] []). cbn [fst snd app].
           intros H. inversion H as [|? v ? vs' Hv Hrest]; subst. destruct Hv as [Hv Hne].
           rewrite Eb in Hv. injection Hv as <-. apply IH in Hrest. destruct Hrest as [-> ->]. auto.
    + change (default "" None) with "". cbn [String.length Nat.eqb fst snd app]. split.
      * intros [H _]. discriminate H.
      * intros H. inversion H as [|? v ? vs' Hv _]. destruct Hv as [Hv _]. congruence.
Qed.

(** X1: [QueryTokens] never changes the state; it returns the values of
    all the ids, in order, exactly when every id's token key holds a
    non-empty value, and fails with "failed quering tokens" as soon as one
    id's key holds no bytes. *)
Theorem QueryTokens_all_or_nothing w ids st :
  fst (QueryTokens w ids st) = st /\
  (forall vs, snd (QueryTokens w ids st) = ROk vs <->
     Forall2 (fun id v => GetState st (TokenKey (token.TxId id) (token.Index id)) = Some v /\ v <> "")
       ids vs) /\
  ((exists id, id ∈ ids /\ state_len st (TokenKey (token.TxId id) (token.Index id)) = 0%nat) ->
   snd (QueryTokens w ids st) = RErr "failed quering tokens").
Proof.
  unfold QueryTokens. rewrite TM_bind_eq. cbn [get].
  destruct (query_loop st ids [] []) as [r e] eqn:Eq.
  assert (Hs := fun vs => query_loop_spec st ids vs). rewrite Eq in Hs. cbn [fst snd] in Hs.
  destruct (Nat.eqb_spec (length e) 0) as [He|He]; cbn [negb lift].
  - apply length_zero_iff_nil in He. subst e.
    split; [reflexivity|]. split.
    + intros vs. cbn. rewrite <- Hs. split; [intros H; injection H as ->; auto|intros [_ ->]; reflexivity].
    + intros (id & Hin & Hl). exfalso.
      pose proof (proj1 (Hs r) (conj eq_refl eq_refl)) as Hf.
      apply (Forall2_Forall_l _ (fun id => state_len st (TokenKey (token.TxId id) (token.Index id)) <> 0%nat)) in Hf.
      * rewrite Forall_forall in Hf. apply (Hf id Hin), Hl.
      * apply Forall_forall. intros v _ id' [Hv Hne]. unfold state_len. rewrite Hv.
        change (default "" (Some v)) with v. destruct v; [contradiction|discriminate].
  - split; [reflexivity|]. split.
    + intros vs. cbn. rewrite <- Hs. split; [discriminate|intros [-> _]; simpl in He; lia].
    + intros _. reflexivity.
Qed.
(** Witness for X1: [tx0:0] is found, [tx0:1] is not. *)
Lemma QueryTokens_all_or_nothing_witness :
  QueryTokens (toy_translator "tx1") [{| token.TxId := "tx0"; token.Index := 0 |}] toy_st =
    (toy_st, ROk ["tok"]) /\
  QueryTokens (toy_translator "tx1")
    [{| token.TxId := "tx0"; token.Index := 0 |}; {| token.TxId := "tx0"; token.Index := 1 |}] toy_st =
    (toy_st, RErr "failed quering tokens").
Proof.
  split.
  - destruct (QueryTokens_all_or_nothing (toy_translator "tx1") [{| token.TxId := "tx0"; token.Index := 0 |}]
                toy_st) as (H1 & H2 & _).
    rewrite (surjective_pairing (QueryTokens _ _ _)), H1, (proj2 (H2 ["tok"])); [reflexivity|].
    constructor; [split; [vm_compute; reflexivity|discriminate]|constructor].
  - destruct (QueryTokens_all_or_nothing (toy_translator "tx1")
                [{| token.TxId := "tx0"; token.Index := 0 |}; {| token.TxId := "tx0"; token.Index := 1 |}]
                toy_st) as (H1 & _ & H3).
    rewrite (surjective_pairing (QueryTokens _ _ _)), H1, H3; [reflexivity|].
    exists {| token.TxId := "tx0"; token.Index := 1 |}. split.
    + apply elem_of_cons. right. apply elem_of_cons. left. reflexivity.
    + vm_compute. reflexivity.
Defined.

Lemma pres_lift_bind {A B} P (r : res A) (f : A -> TM B) :
  (forall a, r = ROk a -> preserves P (f a)) -> preserves P (lift r ≫= f).
Proof.
  intros Hf st Hst. rewrite TM_bind_eq. cbn [lift].
  destruct r as [a| |]; simpl; auto. apply (Hf a eq_refl), Hst.
Qed.

Lemma pres_key_SetState k0 v0 k v :
  k <> k0 -> preserves (fun st => rw st !! k0 = v0) (modify (SetState k v)).
Proof.
  intros Hne. apply pres_modify. intros st H. unfold SetState; cbn [rw].
  rewrite lookup_insert_ne by congruence. exact H.
Qed.

Lemma pres_key_meta k0 v0 k m :
  preserves (fun st => rw st !! k0 = v0) (modify (SetStateMetadata k m)).
Proof. apply pres_modify. auto. Qed.

Lemma pres_key_counter k0 v0 n :
  preserves (fun st => rw st !! k0 = v0) (modify (add_counter n)).
Proof. apply pres_modify. auto. Qed.

Lemma pres_key_spend k0 v0 ids gh :
  k0 ∉ ids -> preserves (fun st => rw st !! k0 = v0) (spendTokens ids gh).
Proof.
  intros Hn st Hst.
  destruct (spend_loop ids gh 0 st) as (st' & Hrun & _ & _ & Hf).
  unfold spendTokens, for_. destruct gh; cbn [negb] in Hrun |- *; rewrite Hrun; cbn [fst]; destruct (Hf k0 Hn) as [Hr _]; rewrite Hr; exact Hst.
Qed.

Lemma Write_keeps_setup raw w a :
  keeps_setup (WriteStep w a) ->
  preserves (fun st => rw st !! SetupKey = Some raw) (Write w a).
Proof.
  intros Hk. unfold Write, commitProcess, commitAction.
  apply pres_bind; [apply pres_get|intros st0].
  apply pres_bind; [apply pres_lift|intros _].
  destruct a as [ia|t|s|]; cbn [keeps_setup] in Hk.
  - unfold commitIssueAction.
    apply pres_bind; [apply pres_get|intros st1].
    apply pres_bind; [apply pres_lift|intros outs].
    apply pres_bind.
    + apply pres_for_i. intros i o.
      apply pres_bind; [apply pres_key_SetState; discriminate|intros _; apply pres_key_meta].
    + intros _. apply pres_key_counter.
  - unfold commitTransferAction.
    apply pres_bind; [apply pres_get|intros st1].
    apply pres_bind.
    + apply pres_for_i. intros _ i.
      destruct (IsRedeemAt t i); [apply pres_ret|].
      apply pres_bind; [apply pres_lift|intros bytes].
      apply pres_bind; [apply pres_key_SetState; discriminate|intros _; apply pres_key_meta].
    + intros _. apply pres_lift_bind. intros ids Hids.
      apply pres_bind; [apply pres_key_spend, (Hk ids Hids)|intros _; apply pres_key_counter].
  - contradiction.
  - apply pres_ret.
Qed.

(** X2: after a setup action with parameters [raw] is written, any
    translator reads back [raw] with [ReadSetupParameters], through later
    issues, transfers not spending the setup key, and new translators; the
    read leaves the state unchanged. *)
Theorem ReadSetupParameters_latest w w' s raw st steps :
  GetSetupParameters s = ROk raw -> Forall keeps_setup steps ->
  let st' := run steps (fst (Write w (Setup s) st)) in
  ReadSetupParameters w' st' = (st', ROk (Some raw)).
Proof.
  intros Hs Hsteps st'.
  assert (H0 : rw (fst (Write w (Setup s) st)) !! SetupKey = Some raw).
  { unfold Write, checkProcess, commitProcess, commitAction, commitSetupAction.
    rewrite !TM_bind_eq. cbn [get lift checkAction]. rewrite TM_bind_eq. cbn [lift]. rewrite Hs.
    cbn. apply lookup_insert_eq. }
  assert (Hr : rw st' !! SetupKey = Some raw).
  { unfold st'. clear st'. revert H0. generalize (fst (Write w (Setup s) st)).
    induction steps as [|stp steps IH]; intros st0 H0; [exact H0|].
    rewrite Forall_cons in Hsteps. destruct Hsteps as [Hk Hsteps].
    destruct stp as [w2 a|]; cbn [run].
    - apply IH; [exact Hsteps|]. apply (Write_keeps_setup raw w2 a Hk st0 H0).
    - apply IH; [exact Hsteps|]. exact H0. }
  unfold ReadSetupParameters. rewrite TM_bind_eq. cbn [get]. unfold GetState. rewrite Hr. reflexivity.
Qed.
(** Witness for X2: setup, then an issue by another translator. *)
Lemma ReadSetupParameters_latest_witness :
  let st' := run [WriteStep (toy_translator "tx1") (Issue toy_issue); NewTranslator]
                 (fst (Write (toy_translator "tx0") (Setup {| GetSetupParameters := ROk "pp" |}) toy_st)) in
  ReadSetupParameters (toy_translator "tx2") st' = (st', ROk (Some "pp")).
Proof.
  apply (ReadSetupParameters_latest (toy_translator "tx0") (toy_translator "tx2")
           {| GetSetupParameters := ROk "pp" |} "pp" toy_st).
  - reflexivity.
  - constructor; [exact I|constructor; [exact I|constructor]].
Defined.

(** X3: an issue whose issuer the issuing validator refuses is not
    written: the state is unchanged and the validator's error is wrapped
    with "invalid issue: verification of issue policy failed". *)
Theorem Write_issue_policy_refused w ia st e :
  IssuingValidator w (GetIssuer ia) "" = RErr e ->
  Write w (Issue ia) st = (st, RErr ("invalid issue: verification of issue policy failed" ++ ": " ++ e)).
Proof.
  intros He. unfold Write, checkProcess. rewrite TM_bind_eq. cbn [get]. rewrite TM_bind_eq.
  cbn [lift checkAction]. unfold checkIssue, checkIssuePolicy. rewrite He. reflexivity.
Qed.
(** Witness for X3. *)
Lemma Write_issue_policy_refused_witness :
  Write {| IssuingValidator := fun _ _ => RErr "unknown issuer"; TxID := "tx1" |} (Issue toy_issue) toy_st =
    (toy_st, RErr ("invalid issue: verification of issue policy failed" ++ ": " ++ "unknown issuer")).
Proof. apply Write_issue_policy_refused. reflexivity. Defined.

Lemma checkIssue_exists w ia st j :
  IssuingValidator w (GetIssuer ia) "" = ROk tt -> (j < IssueNumOutputs ia)%nat ->
  state_len st (TokenKey (TxID w) (counter st + Z.of_nat j)) <> 0%nat ->
  checkIssue w st ia = RErr "token already exists".
Proof.
  intros Hv Hj Hl. unfold checkIssue, checkIssuePolicy. rewrite Hv. cbn [wrap].
  change (ROk tt ≫= ?g) with (g tt). cbv beta.
  rewrite (mapM_const_err _ _ "token already exists").
  - reflexivity.
  - intros i _. unfold checkTokenDoesNotExist. destruct (Nat.eqb _ 0); auto.
  - exists j. split; [apply elem_of_seq; lia|].
    unfold checkTokenDoesNotExist. apply Nat.eqb_neq in Hl. rewrite Hl. reflexivity.
Qed.

(** X4: an accepted issue one of whose [IssueNumOutputs] output keys
    (the translator's transaction id with the counter plus the output's
    index) already holds a value is refused with "token already exists",
    and nothing is written. *)
Theorem Write_issue_output_exists w ia st j :
  IssuingValidator w (GetIssuer ia) "" = ROk tt -> (j < IssueNumOutputs ia)%nat ->
  state_len st (TokenKey (TxID w) (counter st + Z.of_nat j)) <> 0%nat ->
  Write w (Issue ia) st = (st, RErr "token already exists").
Proof.
  intros Hv Hj Hl. unfold Write, checkProcess. rewrite TM_bind_eq. cbn [get]. rewrite TM_bind_eq.
  cbn [lift checkAction]. rewrite (checkIssue_exists w ia st j Hv Hj Hl). reflexivity.
Qed.
(** Witness for X4: the output key [tx0:0] already holds a token. *)
Lemma Write_issue_output_exists_witness :
  Write (toy_translator "tx0") (Issue toy_issue) toy_st = (toy_st, RErr "token already exists").
Proof.
  apply (Write_issue_output_exists _ _ _ 0); [reflexivity|cbn; lia|vm_compute; discriminate].
Defined.

(** X5: [checkIssue] checks only the first [IssueNumOutputs] output keys,
    while [commitIssueAction] writes every serialized output: when those
    keys are free, the issue succeeds, writes output [j] under the counter
    plus [j] with the issue action tag, advances the counter by the number
    of serialized outputs, and leaves every other key alone, even when
    there are more serialized outputs than [IssueNumOutputs]. *)
Theorem Write_issue_unchecked_outputs w ia st outs :
  IssuingValidator w (GetIssuer ia) "" = ROk tt ->
  (forall j, (j < IssueNumOutputs ia)%nat ->
     state_len st (TokenKey (TxID w) (counter st + Z.of_nat j)) = 0%nat) ->
  GetSerializedOutputs ia = ROk outs ->
  snd (Write w (Issue ia) st) = ROk tt /\
  counter (fst (Write w (Issue ia) st)) = counter st + Z.of_nat (length outs) /\
  (forall j, (j < length outs)%nat ->
     rw (fst (Write w (Issue ia) st)) !! TokenKey (TxID w) (counter st + Z.of_nat j) = outs !! j /\
     meta (fst (Write w (Issue ia) st)) !! TokenKey (TxID w) (counter st + Z.of_nat j) =
       Some [(Action_key, ActionIssue)]) /\
  (forall k, (forall j, (j < length outs)%nat -> k <> TokenKey (TxID w) (counter st + Z.of_nat j)) ->
     rw (fst (Write w (Issue ia) st)) !! k = rw st !! k /\
     meta (fst (Write w (Issue ia) st)) !! k = meta st !! k).
Proof.
  intros Hv Hfree Ho.
  assert (Hc : checkIssue w st ia = ROk tt).
  { unfold checkIssue, checkIssuePolicy. rewrite Hv. cbn [wrap].
    change (ROk tt ≫= ?g) with (g tt). cbv beta.
    rewrite (mapM_ok _ (fun _ => tt)); [reflexivity|].
    intros i Hi. apply elem_of_seq in Hi. unfold checkTokenDoesNotExist.
    rewrite Hfree by lia. reflexivity. }
  destruct (issue_loop w (counter st) 0 outs st) as (st' & Hrun & Hcn & Hw & Hf).
  assert (E : Write w (Issue ia) st = (add_counter (length outs) st', ROk tt)).
  { unfold Write, checkProcess, commitProcess, commitAction, commitIssueAction.
    rewrite (TM_bind_ret_ok _ _ st st st) by reflexivity.
    rewrite (TM_bind_ret_ok _ _ st st tt) by (cbn [lift checkAction]; rewrite Hc; reflexivity).
    rewrite (TM_bind_ret_ok _ _ st st st) by reflexivity.
    rewrite (TM_bind_ret_ok _ _ st st outs) by (cbn [lift]; rewrite Ho; reflexivity).
    rewrite (TM_bind_ret_ok _ _ st st' tt Hrun). reflexivity. }
  rewrite E. cbn [fst snd]. split; [reflexivity|]. split; [cbn; rewrite Hcn; reflexivity|].
  split; [intros j Hj; exact (Hw j Hj)|].
  intros k Hk. apply Hf. exact Hk.
Qed.
(** Witness for X5: an issue reporting no outputs overwrites the token at
    [tx0:0] with its one serialized output. *)
Lemma Write_issue_unchecked_outputs_witness :
  rw (fst (Write (toy_translator "tx0")
             (Issue {| GetIssuer := "issuer"; IssueNumOutputs := 0; GetSerializedOutputs := ROk ["new"] |})
             toy_st)) !! toy_key = Some "new" /\
  rw toy_st !! toy_key = Some "tok".
Proof.
  split; [|reflexivity].
  destruct (Write_issue_unchecked_outputs (toy_translator "tx0")
              {| GetIssuer := "issuer"; IssueNumOutputs := 0; GetSerializedOutputs := ROk ["new"] |}
              toy_st ["new"] eq_refl (fun j Hj => ltac:(cbn in Hj; lia)) eq_refl) as (_ & _ & Hw & _).
  exact (proj1 (Hw 0%nat ltac:(cbn; lia))).
Defined.

Lemma checkTransfer_output_exists w t ids st j :
  GetInputs t = ROk ids -> (j < NumOutputs t)%nat -> IsRedeemAt t j = false ->
  state_len st (TokenKey (TxID w) (counter st + Z.of_nat j)) <> 0%nat ->
  is_err (checkTransfer w st t) = true.
Proof.
  intros Hi Hj Hr Hl. unfold checkTransfer. rewrite Hi. cbn [wrap].
  change (ROk ids ≫= ?g) with (g ids). cbv beta.
  match goal with |- context [(?m ≫= ?g)] => destruct m as [a| |] eqn:Em end.
  - change (ROk a ≫= ?g) with (g a). cbv beta.
    rewrite (mapM_const_err _ _ "token already exists"); [reflexivity| |].
    + intros i _. destruct (IsRedeemAt t i); [auto|].
      unfold checkTokenDoesNotExist. destruct (Nat.eqb _ 0); auto.
    + exists j. split; [apply elem_of_seq; lia|]. rewrite Hr.
      unfold checkTokenDoesNotExist. apply Nat.eqb_neq in Hl. rewrite Hl. reflexivity.
  - reflexivity.
  - exfalso. destruct (IsGraphHiding t); cbn [negb] in Em.
    + revert Em. generalize ids. induction ids0 as [|x l IH]; [discriminate|].
      cbn [mapM]. destruct (negb _); [discriminate|]. change (ROk tt ≫= ?g) with (g tt). cbv beta.
      destruct (mapM _ l); [discriminate|discriminate|auto].
    + revert Em. generalize ids. induction ids0 as [|x l IH]; [discriminate|].
      cbn [mapM]. destruct (Nat.eqb _ 0); [discriminate|]. change (ROk tt ≫= ?g) with (g tt). cbv beta.
      destruct (mapM _ l); [discriminate|discriminate|auto].
Qed.

(** X6: a transfer one of whose non-redeem outputs would land on a key
    that already holds a value is refused with an error, and the state is
    unchanged. *)
Theorem Write_transfer_output_exists w t ids st j :
  GetInputs t = ROk ids -> (j < NumOutputs t)%nat -> IsRedeemAt t j = false ->
  state_len st (TokenKey (TxID w) (counter st + Z.of_nat j)) <> 0%nat ->
  is_err (snd (Write w (Transfer t) st)) = true /\ fst (Write w (Transfer t) st) = st.
Proof.
  intros Hi Hj Hr Hl. apply Write_check_err. cbn [checkAction].
  apply (checkTransfer_output_exists w t ids st j Hi Hj Hr Hl).
Qed.
(** Witness for X6: output 0 of the transfer would be [tx0:0]. *)
Lemma Write_transfer_output_exists_witness :
  is_err (snd (Write (toy_translator "tx0") (Transfer (toy_transfer false)) toy_st)) = true /\
  fst (Write (toy_translator "tx0") (Transfer (toy_transfer false)) toy_st) = toy_st.
Proof.
  apply (Write_transfer_output_exists _ _ [toy_key] _ 0);
    [reflexivity|cbn; lia|reflexivity|vm_compute; discriminate].
Defined.

Lemma for_i_app_ok {A} (f : nat -> A -> TM unit) i l1 l2 st st1 :
  for_i f i l1 st = (st1, ROk tt) ->
  for_i f i (l1 ++ l2) st = for_i f (i + length l1) l2 st1.
Proof.
  revert i st. induction l1 as [|x l1 IH]; intros i st H.
  - cbn in H. injection H as <-. rewrite Nat.add_0_r. reflexivity.
  - cbn [for_i app] in *. apply TM_bind_ok in H. destruct H as ([] & s1 & H1 & H2).
    rewrite (TM_bind_ret_ok _ _ st s1 tt H1). rewrite (IH (S i) s1 H2). cbn [length].
    f_equal. lia.
Qed.

(** X7: when a checked transfer fails to serialize its non-redeem output
    [j0], [Write] returns that error, but the outputs before [j0] stay
    written with the transfer tag; the counter is not advanced, the inputs
    are not spent, and every other key is unchanged. *)
Theorem Write_transfer_no_rollback w t st j0 e ser :
  checkTransfer w st t = ROk tt ->
  (j0 < NumOutputs t)%nat -> IsRedeemAt t j0 = false -> SerializeOutputAt t j0 = RErr e ->
  (forall j, (j < j0)%nat -> IsRedeemAt t j = false -> SerializeOutputAt t j = ROk (ser j)) ->
  snd (Write w (Transfer t) st) = RErr e /\
  counter (fst (Write w (Transfer t) st)) = counter st /\
  (forall j, (j < j0)%nat -> IsRedeemAt t j = false ->
     rw (fst (Write w (Transfer t) st)) !! TokenKey (TxID w) (counter st + Z.of_nat j) = Some (ser j) /\
     meta (fst (Write w (Transfer t) st)) !! TokenKey (TxID w) (counter st + Z.of_nat j) =
       Some [(Action_key, ActionTransfer)]) /\
  (forall k, (forall j, (j < j0)%nat -> IsRedeemAt t j = false -> k <> TokenKey (TxID w) (counter st + Z.of_nat j)) ->
     rw (fst (Write w (Transfer t) st)) !! k = rw st !! k /\
     meta (fst (Write w (Transfer t) st)) !! k = meta st !! k).
Proof.
  intros Hc Hj0 Hr0 He Hser.
  destruct (transfer_loop w t (counter st) ser j0 0 0 st) as (st1 & Hrun & Hcn & Hw & Hf).
  { intros j Hj Hr. apply Hser; [lia|exact Hr]. }
  assert (E : Write w (Transfer t) st = (st1, RErr e)).
  { unfold Write, checkProcess, commitProcess, commitAction, commitTransferAction.
    rewrite (TM_bind_ret_ok _ _ st st st) by reflexivity.
    rewrite (TM_bind_ret_ok _ _ st st tt) by (cbn [lift checkAction]; rewrite Hc; reflexivity).
    rewrite (TM_bind_ret_ok _ _ st st st) by reflexivity.
    unfold for_.
    replace (seq 0 (NumOutputs t)) with (seq 0 j0 ++ seq j0 (NumOutputs t - j0))
      by (rewrite <- seq_app; f_equal; lia).
    rewrite TM_bind_eq.
    rewrite (for_i_app_ok _ 0 (seq 0 j0) _ st st1 Hrun).
    destruct (NumOutputs t - j0)%nat as [|m] eqn:Em; [lia|].
    cbn [seq for_i]. rewrite TM_bind_eq. rewrite Hr0.
    rewrite TM_bind_eq. cbn [lift]. rewrite He. reflexivity. }
  rewrite E. cbn [fst snd]. split; [reflexivity|]. split; [exact Hcn|]. split.
  - intros j Hj Hr. apply Hw; [lia|exact Hr].
  - intros k Hk. apply Hf. intros j Hj Hr. apply Hk; [lia|exact Hr].
Qed.
(** Witness for X7: output 0 is written, output 1 fails, the input
    [tx0:0] is left unspent. *)
Lemma Write_transfer_no_rollback_witness :
  let tr := {| GetInputs := ROk [toy_key]; IsGraphHiding := false; NumOutputs := 2;
               IsRedeemAt := fun _ => false;
               SerializeOutputAt := fun i => if Nat.eqb i 0 then ROk "out0" else RErr "serialization failed" |} in
  snd (Write (toy_translator "tx1") (Transfer tr) toy_st) = RErr "serialization failed" /\
  rw (fst (Write (toy_translator "tx1") (Transfer tr) toy_st)) !! TokenKey "tx1" 0 = Some "out0" /\
  rw (fst (Write (toy_translator "tx1") (Transfer tr) toy_st)) !! toy_key = Some "tok".
Proof.
  intros tr.
  destruct (Write_transfer_no_rollback (toy_translator "tx1") tr toy_st 1 "serialization failed"
              (fun _ => "out0") ltac:(vm_compute; reflexivity) ltac:(cbn; lia) eq_refl eq_refl
              ltac:(intros j Hj _; destruct j; [reflexivity|lia])) as (H1 & _ & Hw & Hk).
  split; [exact H1|split].
  - exact (proj1 (Hw 0%nat ltac:(lia) eq_refl)).
  - rewrite (proj1 (Hk toy_key ltac:(intros j _ _ H; inversion H))). reflexivity.
Defined.

End TranslatorReadFacts.

(* ------------------------------------------------------------------ *)
(** ** The selector service *)
Module SelectorFacts.
Import selector.

(** X8: [SelectorManager] keeps one locker per key, the concatenation of
    the network, channel and namespace names reported by the management
    service: after a call the key maps to the returned manager's locker,
    the locker provider was called at most once more, and a later call
    whose names concatenate to the same key gets the same locker without
    changing the service. *)
Theorem SelectorManager_locker_cache {Locker} tms_names (New : string -> string -> string -> nat -> Locker)
    s net1 ch1 ns1 net2 ch2 ns2 a1 b1 d1 a2 b2 d2 :
  tms_names net1 ch1 ns1 = (a1, b1, d1) -> tms_names net2 ch2 ns2 = (a2, b2, d2) ->
  (a1 ++ b1 ++ d1 = a2 ++ b2 ++ d2)%string ->
  let r1 := SelectorManager Locker tms_names New s net1 ch1 ns1 in
  let r2 := SelectorManager Locker tms_names New r1.1 net2 ch2 ns2 in
  lockers Locker r1.1 !! (a1 ++ b1 ++ d1)%string = Some (mlocker Locker r1.2) /\
  (provider_calls Locker r1.1 <= S (provider_calls Locker s))%nat /\
  mlocker Locker r2.2 = mlocker Locker r1.2 /\ r2.1 = r1.1.
Proof.
  intros H1 H2 Hk r1 r2. unfold r2, r1, SelectorManager. rewrite H1, H2. rewrite <- Hk.
  destruct (lockers Locker s !! (a1 ++ b1 ++ d1)%string) as [l|] eqn:El; cbn.
  - rewrite El. auto.
  - rewrite lookup_insert_eq. auto.
Qed.
(** Witness for X8: the names ("ab", "c", "d") and ("a", "bc", "d")
    share the key "abcd". *)
Lemma SelectorManager_locker_cache_witness :
  let r1 := SelectorManager nat (fun a b c => (a, b, c)) (fun _ _ _ n => n) (NewProvider nat 3 10) "ab" "c" "d" in
  let r2 := SelectorManager nat (fun a b c => (a, b, c)) (fun _ _ _ n => n) r1.1 "a" "bc" "d" in
  lockers nat r1.1 !! "abcd"%string = Some (mlocker nat r1.2) /\
  (provider_calls nat r1.1 <= S (provider_calls nat (NewProvider nat 3 10)))%nat /\
  mlocker nat r2.2 = mlocker nat r1.2 /\ r2.1 = r1.1.
Proof.
  apply (SelectorManager_locker_cache (fun a b c => (a, b, c)) (fun _ _ _ n => n) (NewProvider nat 3 10)
    "ab" "c" "d" "a" "bc" "d" "ab" "c" "d" "a" "bc" "d"); reflexivity.
Defined.

(** X9: a manager takes the service's retry count, timeout and
    certification flag at the call that creates its locker: a fresh
    provider gives the [NewProvider] settings and certification on; after
    the setters, a new call gets the same locker with the new settings, the
    retry count converted to a signed 64-bit integer, and the locker
    provider is called once in all. *)
Theorem selector_settings {Locker} tms_names (New : string -> string -> string -> nat -> Locker)
    numRetry0 timeout0 network channel namespace a b d n t v :
  tms_names network channel namespace = (a, b, d) -> 0 <= n < 2 ^ 64 ->
  let r1 := SelectorManager Locker tms_names New (NewProvider Locker numRetry0 timeout0) network channel namespace in
  let s2 := SetRequestCertification Locker (SetRetryTimeout Locker (SetNumRetries Locker r1.1 n) t) v in
  let r2 := SelectorManager Locker tms_names New s2 network channel namespace in
  mlocker Locker r1.2 = New network channel namespace 0%nat /\
  mnumRetry Locker r1.2 = numRetry0 /\ mtimeout Locker r1.2 = timeout0 /\
  mrequestCertification Locker r1.2 = true /\
  mlocker Locker r2.2 = mlocker Locker r1.2 /\
  mnumRetry Locker r2.2 = (if n <? 2 ^ 63 then n else n - 2 ^ 64) /\
  mtimeout Locker r2.2 = t /\ mrequestCertification Locker r2.2 = v /\
  provider_calls Locker r2.1 = 1%nat.
Proof.
  intros Hn Hr r1 s2 r2. unfold r2, s2, r1, SelectorManager, NewProvider. rewrite Hn.
  cbn [lockers fst snd]. rewrite lookup_empty. cbv beta iota.
  cbn [lockers fst snd SetNumRetries SetRetryTimeout SetRequestCertification]. rewrite lookup_insert_eq. cbn.
  repeat split.
  unfold Int64. rewrite Z.mod_small by lia.
  destruct (Z.ltb_spec n (2 ^ 63)), (Z.leb_spec (2 ^ 63) n); lia.
Qed.
(** Witness for X9: a retry count of [2^63] becomes [-2^63]. *)
Lemma selector_settings_witness :
  let r1 := SelectorManager nat (fun a b c => (a, b, c)) (fun _ _ _ n => n) (NewProvider nat 3 10)
              "net" "ch" "ns" in
  let s2 := SetRequestCertification nat (SetRetryTimeout nat (SetNumRetries nat r1.1 (2 ^ 63)) 20) false in
  let r2 := SelectorManager nat (fun a b c => (a, b, c)) (fun _ _ _ n => n) s2 "net" "ch" "ns" in
  mlocker nat r1.2 = 0%nat /\ mnumRetry nat r1.2 = 3 /\ mtimeout nat r1.2 = 10 /\
  mrequestCertification nat r1.2 = true /\
  mlocker nat r2.2 = mlocker nat r1.2 /\ mnumRetry nat r2.2 = - 2 ^ 63 /\ mtimeout nat r2.2 = 20 /\
  mrequestCertification nat r2.2 = false /\ provider_calls nat r2.1 = 1%nat.
Proof.
  apply (selector_settings (fun a b c => (a, b, c)) (fun _ _ _ n => n) 3 10 "net" "ch" "ns" "net" "ch" "ns"
           (2 ^ 63) 20 false); [reflexivity|lia].
Defined.

End SelectorFacts.

(* ------------------------------------------------------------------ *)
(** ** Range proof verification and digit decomposition *)
Module RangeProofVerifyFacts.
Import RangeProof.
Import TranslatorFacts.
Import ResFacts.

(** X10: for a base of at least 2, an exponent of at least 1 whose power
    is exact, and a value in [0, base^exponent), [decompose] succeeds with
    exactly [exponent] digits, each in [0, base), whose value in that base
    is the input. *)
Theorem decompose_exact_digits base exponent v :
  2 <= base -> (1 <= exponent)%nat -> pow_exact_b base exponent = true ->
  0 <= v < base ^ Z.of_nat exponent ->
  exists ds, decompose base exponent v = ROk ds /\ length ds = exponent /\
    Forall (fun d => 0 <= d < base) ds /\ digits_value base ds = v.
Proof.
  intros Hb He Hx Hv. exists (digits base v exponent).
  split; [apply decompose_digits; auto; lia|].
  split; [apply digits_length|]. split.
  - unfold digits. apply Forall_fmap, Forall_forall. intros i _. cbv beta. apply digit_bound; lia.
  - rewrite digits_value_digits by lia. apply Z.rem_small. lia.
Qed.
(** Witness for X10: 200 in 8 binary digits. *)
Lemma decompose_exact_digits_witness :
  exists ds, decompose 2 8 200 = ROk ds /\ length ds = 8%nat /\
    Forall (fun d => 0 <= d < 2) ds /\ digits_value 2 ds = 200.
Proof. apply decompose_exact_digits; [lia|lia|vm_compute; reflexivity|cbn; lia]. Defined.

(** X11: the range proof verifier rejects a proof with a wrong number of
    membership proofs with "failed to verify range proofz"; when the
    membership verifier never panics, a membership proof with as many
    commitments as signature proofs required, or one that does not verify,
    makes [Verify] return an error. *)
Theorem Verify_membership_fail_closed cr V proof :
  (length (MembershipProofs proof) <> length (Token V) ->
   Verify cr V proof = RErr "failed to verify range proofz") /\
  ((forall c s, mem_verify cr c s <> RPanic) ->
   forall mp, mp ∈ MembershipProofs proof ->
   (length (Commitments mp) <> length (SignatureProofs mp) \/
    exists cs, cs ∈ zip (Commitments mp) (SignatureProofs mp) /\ is_err (mem_verify cr cs.1 cs.2) = true) ->
   is_err (Verify cr V proof) = true).
Proof.
  split.
  - intros Hn. unfold Verify. apply Nat.eqb_neq in Hn. rewrite Hn. reflexivity.
  - intros Hnp mp Hin Hbad. unfold Verify.
    destruct (Nat.eqb _ _); cbn [negb]; [|reflexivity].
    apply res_bind_err. apply (mapM_err _ _ mp Hin).
    + intros y _. destruct (negb _); [right; reflexivity|].
      assert (Hnp' : mapM (fun cs => mem_verify cr cs.1 cs.2) (zip (Commitments y) (SignatureProofs y)) <> RPanic)
        by (apply mapM_no_panic; intros z _; apply Hnp).
      destruct (mapM _ _); [left; reflexivity|right; reflexivity|contradiction].
    + destruct Hbad as [Hl|(cs & Hcs & He)].
      * apply Nat.eqb_neq in Hl. rewrite Hl. reflexivity.
      * destruct (Nat.eqb_spec (length (Commitments mp)) (length (SignatureProofs mp))); [|reflexivity].
        cbn [negb]. apply (mapM_err _ _ cs Hcs); [|exact He].
        intros y _. specialize (Hnp y.1 y.2). destruct (mem_verify cr y.1 y.2); auto; contradiction.
Qed.
(** Witness for X11: one commitment without its signature proof, and no
    membership proof at all. *)
Lemma Verify_membership_fail_closed_witness :
  is_err (Verify toy_crypto
    {| Token := [1]; Base := 2; Exponent := 1; PedersenParamsV := toy_pp; Q := 1; P := 2; PK := [4; 5] |}
    {| Challenge := 0;
       EqualityProofsP := {| EqType := 0; EqValue := [0]; EqTokenBlindingFactor := [0];
                             EqCommitmentBlindingFactor := [0] |};
       MembershipProofs := [{| Commitments := [1]; SignatureProofs := [] |}] |}) = true /\
  Verify toy_crypto
    {| Token := [1]; Base := 2; Exponent := 1; PedersenParamsV := toy_pp; Q := 1; P := 2; PK := [4; 5] |}
    {| Challenge := 0;
       EqualityProofsP := {| EqType := 0; EqValue := [0]; EqTokenBlindingFactor := [0];
                             EqCommitmentBlindingFactor := [0] |};
       MembershipProofs := [] |} = RErr "failed to verify range proofz".
Proof.
  split.
  - eapply (proj2 (Verify_membership_fail_closed toy_crypto _ _)).
    + intros c s. discriminate.
    + apply list_elem_of_singleton. reflexivity.
    + left. cbn. lia.
  - apply (proj1 (Verify_membership_fail_closed toy_crypto _ _)). cbn. lia.
Defined.

Ltac nerr := repeat first [ reflexivity | apply nth_go_not_err | apply bind_not_err
                          | apply mapM_not_err | progress cbv zeta | intros ? _ ].

Lemma recomputeCommitments_panic cr V p :
  length (MembershipProofs p) = length (Token V) ->
  ((length (EqValue (EqualityProofsP p)) < length (Token V))%nat \/
   (length (EqTokenBlindingFactor (EqualityProofsP p)) < length (Token V))%nat \/
   (length (EqCommitmentBlindingFactor (EqualityProofsP p)) < length (Token V))%nat \/
   exists mp, mp ∈ MembershipProofs p /\ (length (Commitments mp) < Exponent V)%nat) ->
  recomputeCommitments cr V p = RPanic.
Proof.
  intros Hn Hshort. unfold recomputeCommitments.
  destruct Hshort as [Hs|[Hs|[Hs|(mp & Hmp & Hs)]]].
  - apply bind_panic_l. apply (mapM_panic _ _ (length (EqValue (EqualityProofsP p)))).
    + nerr.
    + apply elem_of_seq. lia.
    + apply bind_panic_r; [apply nth_go_not_err|intros t _].
      apply bind_panic_l, nth_go_ge. lia.
  - apply bind_panic_l. apply (mapM_panic _ _ (length (EqTokenBlindingFactor (EqualityProofsP p)))).
    + nerr.
    + apply elem_of_seq. lia.
    + apply bind_panic_r; [apply nth_go_not_err|intros t _].
      apply bind_panic_r; [apply nth_go_not_err|intros sv _].
      apply bind_panic_l, nth_go_ge. lia.
  - apply bind_panic_r; [nerr|intros toks _].
    apply bind_panic_l. apply (mapM_panic _ _ (length (EqCommitmentBlindingFactor (EqualityProofsP p)))).
    + nerr.
    + apply elem_of_seq. lia.
    + apply bind_panic_r; [apply nth_go_not_err|intros mp _].
      apply bind_panic_r; [nerr|intros cs _]. cbv zeta.
      apply bind_panic_r; [apply nth_go_not_err|intros sv _].
      apply bind_panic_l, nth_go_ge. lia.
  - apply bind_panic_r; [nerr|intros toks _].
    apply list_elem_of_lookup in Hmp. destruct Hmp as [j Hj].
    pose proof (lookup_lt_Some _ _ _ Hj) as Hjl.
    apply bind_panic_l. apply (mapM_panic _ _ j).
    + nerr.
    + apply elem_of_seq. lia.
    + apply bind_panic_r; [apply nth_go_not_err|intros mp' Hmp'].
      unfold nth_go in Hmp'. rewrite Hj in Hmp'. injection Hmp' as <-.
      apply bind_panic_l. apply (mapM_panic _ _ (length (Commitments mp))).
      * nerr.
      * apply elem_of_seq. lia.
      * apply bind_panic_l, nth_go_ge. lia.
Qed.

(** X12: when the membership proofs verify, a range proof whose equality
    proofs list fewer values or blinding factors than there are tokens, or
    one of whose membership proofs has fewer commitments than the exponent,
    makes [Verify] panic (an index out of range) rather than return an
    error. *)
Theorem Verify_panics_on_short_proof cr V proof :
  length (MembershipProofs proof) = length (Token V) ->
  (forall mp, mp ∈ MembershipProofs proof ->
     length (Commitments mp) = length (SignatureProofs mp) /\
     forall cs, cs ∈ zip (Commitments mp) (SignatureProofs mp) -> mem_verify cr cs.1 cs.2 = ROk tt) ->
  ((length (EqValue (EqualityProofsP proof)) < length (Token V))%nat \/
   (length (EqTokenBlindingFactor (EqualityProofsP proof)) < length (Token V))%nat \/
   (length (EqCommitmentBlindingFactor (EqualityProofsP proof)) < length (Token V))%nat \/
   exists mp, mp ∈ MembershipProofs proof /\ (length (Commitments mp) < Exponent V)%nat) ->
  Verify cr V proof = RPanic.
Proof.
  intros Hn Hmp Hshort. unfold Verify.
  rewrite Hn, Nat.eqb_refl. cbn [negb].
  rewrite (mapM_ok _ (fun mp => (fun _ => tt) <$> zip (Commitments mp) (SignatureProofs mp))).
  - rewrite bind_ROk. rewrite recomputeCommitments_panic by assumption. reflexivity.
  - intros mp Hin. destruct (Hmp mp Hin) as [Hl Hok].
    rewrite Hl, Nat.eqb_refl. cbn [negb].
    apply mapM_ok. intros cs Hcs. apply Hok, Hcs.
Qed.
(** Witness for X12: no value in the equality proofs for one token. *)
Lemma Verify_panics_on_short_proof_witness :
  Verify toy_crypto
    {| Token := [1]; Base := 2; Exponent := 1; PedersenParamsV := toy_pp; Q := 1; P := 2; PK := [4; 5] |}
    {| Challenge := 0;
       EqualityProofsP := {| EqType := 0; EqValue := []; EqTokenBlindingFactor := [0];
                             EqCommitmentBlindingFactor := [0] |};
       MembershipProofs := [{| Commitments := [1]; SignatureProofs := ["sp"] |}] |} = RPanic.
Proof.
  apply Verify_panics_on_short_proof.
  - reflexivity.
  - intros mp Hmp. apply list_elem_of_singleton in Hmp. subst mp.
    split; [reflexivity|intros cs _; reflexivity].
  - left. cbn. lia.
Defined.

End RangeProofVerifyFacts.

(* ------------------------------------------------------------------ *)
(** ** Signature proof verification *)
Module SigproofVerifyFacts.
Import Sigproof.
Import ResFacts.

Lemma set_go_length {A} (l l' : list A) i x : set_go l i x = ROk l' -> length l' = length l.
Proof.
  unfold set_go. destruct (_ && _); [|discriminate]. intros [= <-]. apply length_insert.
Qed.

Lemma set_go_not_err {A} (l : list A) i x : is_err (set_go l i x) = false.
Proof. unfold set_go. destruct (_ && _); reflexivity. Qed.

Lemma set_go_out {A} (l : list A) i x : i < 0 \/ Z.of_nat (length l) <= i -> set_go l i x = RPanic.
Proof.
  intros H. unfold set_go.
  destruct (Z.leb_spec 0 i), (Z.ltb_spec i (Z.of_nat (length l))); cbn; try reflexivity; lia.
Qed.

Lemma fill_not_err indices val i acc :
  (forall j, is_err (val j) = false) -> is_err (fill indices val i acc) = false.
Proof.
  intros Hv. revert i acc. induction indices as [|idx indices IH]; intros i acc; [reflexivity|].
  cbn [fill]. specialize (Hv i). destruct (val i) as [x| |]; [|discriminate|reflexivity].
  rewrite bind_ROk. pose proof (set_go_not_err acc idx (Some x)) as Hs.
  destruct (set_go acc idx (Some x)) as [acc'| |]; [|discriminate|reflexivity].
  rewrite bind_ROk. apply IH.
Qed.

Lemma fill_length indices val i acc acc' :
  fill indices val i acc = ROk acc' -> length acc' = length acc.
Proof.
  revert i acc. induction indices as [|idx indices IH]; intros i acc; cbn [fill].
  - intros [= <-]. reflexivity.
  - destruct (val i) as [x| |]; [|discriminate|discriminate]. rewrite bind_ROk.
    destruct (set_go acc idx (Some x)) as [acc1| |] eqn:E; [|discriminate|discriminate].
    rewrite bind_ROk. intros H. rewrite (IH _ _ H). exact (set_go_length _ _ _ _ E).
Qed.

Lemma fill_panic indices val i acc k idx :
  (forall j, is_err (val j) = false) -> indices !! k = Some idx ->
  val (i + k)%nat = RPanic \/ idx < 0 \/ Z.of_nat (length acc) <= idx ->
  fill indices val i acc = RPanic.
Proof.
  intros Hv. revert i acc k. induction indices as [|idx0 indices IH]; intros i acc k Hk Hbad;
    [discriminate|].
  cbn [fill]. pose proof (Hv i) as Hvi. destruct (val i) as [x| |] eqn:Ev; [|discriminate|reflexivity].
  rewrite bind_ROk. destruct k as [|k].
  - injection Hk as <-. rewrite Nat.add_0_r, Ev in Hbad.
    rewrite set_go_out by (destruct Hbad as [H|H]; [discriminate|exact H]). reflexivity.
  - pose proof (set_go_not_err acc idx0 (Some x)) as Hs.
    destruct (set_go acc idx0 (Some x)) as [acc'| |] eqn:E; [|discriminate|reflexivity].
    rewrite bind_ROk. apply (IH _ _ k Hk).
    rewrite (set_go_length _ _ _ _ E). replace (S i + k)%nat with (i + S k)%nat by lia. exact Hbad.
Qed.

(** X13: when the signature public key has two more entries than there
    are messages, a hidden or disclosed index with no matching entry in the
    proof or the verifier, or out of the range of messages, makes the
    signature proof verifier panic. *)
Theorem Verify_panics_on_bad_index cr v p :
  Z.of_nat (length (Hidden p)) + Z.of_nat (length (Disclosed v)) = Z.of_nat (length (PK v)) - 2 ->
  (exists k idx, HiddenIndices v !! k = Some idx /\
     ((length (Hidden p) <= k)%nat \/ idx < 0 \/ Z.of_nat (length (PK v) - 2) <= idx)) \/
  (exists k idx, DisclosedIndices v !! k = Some idx /\
     ((length (Disclosed v) <= k)%nat \/ idx < 0 \/ Z.of_nat (length (PK v) - 2) <= idx)) ->
  Verify cr v p = RPanic.
Proof.
  intros Hlen Hbad. unfold Verify, recomputeCommitments.
  rewrite Hlen, Z.eqb_refl. cbn [negb].
  assert (Hv1 : forall j, is_err (nth_go (Hidden p) j) = false)
    by (intros j; unfold nth_go; destruct (_ !! _); reflexivity).
  assert (Hv2 : forall j, is_err (d ← nth_go (Disclosed v) j; ROk (ModMul (q cr) d (Challenge p))) = false)
    by (intros j; unfold nth_go; destruct (_ !! _); reflexivity).
  destruct Hbad as [(k & idx & Hk & Hb)|(k & idx & Hk & Hb)].
  - rewrite (fill_panic _ _ 0 _ k idx Hv1 Hk). reflexivity.
    rewrite repeat_length. destruct Hb as [Hb|Hb]; [left|right; exact Hb].
    unfold nth_go. rewrite lookup_ge_None_2 by (cbn; lia). reflexivity.
  - pose proof (fill_not_err (HiddenIndices v) (fun i => nth_go (Hidden p) i) 0
                  (repeat None (length (PK v) - 2)) Hv1) as Hne.
    destruct (fill (HiddenIndices v) _ 0 _) as [proof1| |] eqn:E1; [|discriminate|reflexivity].
    rewrite bind_ROk.
    rewrite (fill_panic _ _ 0 _ k idx Hv2 Hk). reflexivity.
    rewrite (fill_length _ _ _ _ _ E1), repeat_length.
    destruct Hb as [Hb|Hb]; [left|right; exact Hb].
    unfold nth_go. rewrite lookup_ge_None_2 by (cbn; lia). reflexivity.
Qed.
(** Witness for X13: the hidden index 5 among two messages. *)
Lemma Verify_panics_on_bad_index_witness :
  Verify toy_sig_crypto
    {| P := 1; Q := 1; PK := [1; 2; 3; 4]; HiddenIndices := [0; 5]; DisclosedIndices := [];
       Disclosed := []; PedersenParams := [1; 2; 3]; CommitmentToMessages := 0 |}
    {| Challenge := 0; Hidden := [1; 2]; Hash := 0; SigSignature := (1, 1); SigBlindingFactor := 0;
       ComBlindingFactor := 0; Commitment := 0 |} = RPanic.
Proof.
  apply Verify_panics_on_bad_index.
  - reflexivity.
  - left. exists 1%nat, 5. split; [reflexivity|right; right; cbn; lia].
Defined.

(** X14: the signature proof verifier returns an error only for a
    challenge mismatch, with "invalid signature proof": when the
    proof-of-knowledge verifier fails on every input, or the signature does
    not serialize, no proof is rejected. *)
Theorem Verify_rejects_only_on_challenge cr v p :
  ((forall pok, is_err (pok_recompute cr pok) = true) \/ is_err (serialize cr (SigSignature p)) = true ->
   is_err (Verify cr v p) = false) /\
  (forall e, Verify cr v p = RErr e ->
   e = "invalid signature proof" /\
   exists com chal, recomputeCommitments cr v p = ROk com /\
     computeChallenge cr v (Commitment p) (SigSignature p) com = ROk chal /\ chal <> Challenge p).
Proof.
  split.
  - intros Hbad. unfold Verify.
    destruct (recomputeCommitments cr v p) as [com| |] eqn:Erc; [|reflexivity|reflexivity].
    destruct Hbad as [Hpok|Hser].
    + exfalso. unfold recomputeCommitments in Erc.
      destruct (negb _); [discriminate|].
      destruct (fill _ _ _ _) as [p1| |]; [|discriminate|discriminate]. rewrite bind_ROk in Erc.
      destruct (fill _ _ _ p1) as [p2| |]; [|discriminate|discriminate]. rewrite bind_ROk in Erc.
      match type of Erc with context [pok_recompute cr ?pk] => specialize (Hpok pk); destruct (pok_recompute cr pk) end;
        discriminate.
    + unfold computeChallenge. destruct (serialize cr (SigSignature p)); [discriminate|reflexivity|reflexivity].
  - intros e. unfold Verify.
    destruct (recomputeCommitments cr v p) as [com| |]; [|discriminate|discriminate].
    destruct (computeChallenge cr v (Commitment p) (SigSignature p) com) as [chal| |] eqn:Ec;
      [|discriminate|discriminate].
    destruct (Z.eqb_spec chal (Challenge p)) as [_|Hne]; [discriminate|].
    intros [= <-]. split; [reflexivity|]. exists com, chal. auto.
Qed.
(** Witness for X14: a signature that does not serialize. *)
Lemma Verify_rejects_only_on_challenge_witness :
  is_err (Verify {| q := 101; randomize := fun s => ROk s; pairing := fun _ _ _ _ => 0;
                    hash_challenge := fun _ _ _ _ => 0; serialize := fun _ => RErr "cannot serialize";
                    pok_recompute := fun _ => ROk 0 |}
    {| P := 1; Q := 1; PK := [1; 2; 3; 4]; HiddenIndices := [0; 1]; DisclosedIndices := [];
       Disclosed := []; PedersenParams := [1; 2; 3]; CommitmentToMessages := 0 |}
    {| Challenge := 0; Hidden := [1; 2]; Hash := 0; SigSignature := (1, 1); SigBlindingFactor := 0;
       ComBlindingFactor := 0; Commitment := 0 |}) = false.
Proof. apply (proj1 (Verify_rejects_only_on_challenge _ _ _)). right. reflexivity. Defined.

End SigproofVerifyFacts.

(* ------------------------------------------------------------------ *)
(** ** Token request metadata *)
Module ApiFacts.
Import api.






End ApiFacts.

(* ------------------------------------------------------------------ *)
(** ** Requests: import, output count, issue *)
Module RequestFacts.
Import api.
Import request.
Import ResFacts.

Lemma fold_snoc {A} (l1 l2 : list A) : fold_left (fun l x => l ++ [x]) l2 l1 = l1 ++ l2.
Proof.
  revert l1. induction l2 as [|x l2 IH]; intros l1; cbn; [symmetry; apply app_nil_r|].
  rewrite IH, <- app_assoc. reflexivity.
Qed.

Lemma fold_app_concat {A B} (f : A -> list B) (l : list A) acc :
  fold_left (fun r x => r ++ f x) l acc = acc ++ concat (f <$> l).
Proof.
  revert acc. induction l as [|x l IH]; intros acc; cbn; [symmetry; apply app_nil_r|].
  rewrite IH, <- app_assoc. reflexivity.
Qed.

Lemma TokenInfos_concat m :
  TokenInfos m = concat (TokenInfo <$> MIssues m) ++ concat (TTokenInfo <$> MTransfers m).
Proof. unfold TokenInfos. rewrite !fold_app_concat. reflexivity. Qed.

(** X16: [Import] appends the other request's issue and transfer actions
    and metadata to this request's, keeps this request's signatures, and so
    the token information of the result is this request's issues' then the
    other's, then this request's transfers' then the other's: a
    permutation, not the concatenation, of the two requests' token
    information. *)
Theorem Import_appends t r :
  let t' := Import t r in
  api.Issues (Actions t') = api.Issues (Actions t) ++ api.Issues (Actions r) /\
  api.Transfers (Actions t') = api.Transfers (Actions t) ++ api.Transfers (Actions r) /\
  Signatures (Actions t') = Signatures (Actions t) /\
  AuditorSignature (Actions t') = AuditorSignature (Actions t) /\
  request.Issues t' = request.Issues t ++ request.Issues r /\
  request.Transfers t' = request.Transfers t ++ request.Transfers r /\
  TokenInfos (Metadata t') =
    concat (TokenInfo <$> MIssues (Metadata t)) ++ concat (TokenInfo <$> MIssues (Metadata r)) ++
    concat (TTokenInfo <$> MTransfers (Metadata t)) ++ concat (TTokenInfo <$> MTransfers (Metadata r)) /\
  TokenInfos (Metadata t') ≡ₚ TokenInfos (Metadata t) ++ TokenInfos (Metadata r).
Proof.
  cbn zeta. unfold Import, request.Issues, request.Transfers. cbn [Actions Metadata api.Issues api.Transfers Signatures AuditorSignature MIssues MTransfers]. rewrite !fold_snoc.
  rewrite !TokenInfos_concat. cbn [Metadata MIssues MTransfers]. rewrite !fmap_app, !concat_app.
  split; [reflexivity|]. split; [reflexivity|]. split; [reflexivity|]. split; [reflexivity|].
  split; [reflexivity|]. split; [reflexivity|]. split; [rewrite <- !app_assoc; reflexivity|].
  rewrite <- !app_assoc. apply Permutation_app_head.
  rewrite !app_assoc. apply Permutation_app_tail.
  apply Permutation_app_comm.
Qed.

(** int64 arithmetic *)
Lemma Int64_eq a : exists k, Int64 a = a + k * 2 ^ 64.
Proof.
  unfold Int64. pose proof (Z.div_mod a (2 ^ 64)) as Hd.
  destruct (2 ^ 63 <=? a mod 2 ^ 64).
  - exists (- (a / 2 ^ 64) - 1). lia.
  - exists (- (a / 2 ^ 64)). lia.
Qed.

Lemma Int64_congr a b k : a = b + k * 2 ^ 64 -> Int64 a = Int64 b.
Proof. intros ->. unfold Int64. rewrite Z.mod_add by lia. reflexivity. Qed.

Lemma Int64_small_signed x : - 2 ^ 63 <= x < 2 ^ 63 -> Int64 x = x.
Proof.
  intros Hx. unfold Int64. destruct (Z.leb_spec 0 x).
  - rewrite Z.mod_small by lia. destruct (Z.leb_spec (2 ^ 63) x); lia.
  - replace (x mod 2 ^ 64) with (x + 2 ^ 64).
    + destruct (Z.leb_spec (2 ^ 63) (x + 2 ^ 64)); lia.
    + symmetry. rewrite <- (Z.mod_add x 1) by lia. apply Z.mod_small. lia.
Qed.

Lemma Int64_range a : - 2 ^ 63 <= Int64 a < 2 ^ 63.
Proof.
  unfold Int64. pose proof (Z.mod_pos_bound a (2 ^ 64)) as H.
  destruct (Z.leb_spec (2 ^ 63) (a mod 2 ^ 64)); lia.
Qed.

Lemma Int64_idem a : Int64 (Int64 a) = Int64 a.
Proof. apply Int64_small_signed, Int64_range. Qed.

Section Count.
Context {A : Type} (d : string -> res A) (num : A -> Z).

Lemma count_loop_app l1 l2 s :
  count_loop d num (l1 ++ l2) s = (x ← count_loop d num l1 s; count_loop d num l2 x).
Proof.
  revert s. induction l1 as [|raw l1 IH]; intros s; cbn; [reflexivity|].
  destruct (d raw); cbn; [apply IH|reflexivity|reflexivity].
Qed.

Lemma count_loop_normal l s x : count_loop d num l s = ROk x -> Int64 s = s -> Int64 x = x.
Proof.
  revert s. induction l as [|raw l IH]; intros s; cbn.
  - intros [= <-]. auto.
  - destruct (d raw) as [a| |]; cbn; [|discriminate|discriminate].
    intros H _. apply (IH _ H), Int64_idem.
Qed.

Lemma count_loop_shift l s x :
  count_loop d num l s = ROk x -> Int64 s = s ->
  forall s', Int64 s' = s' -> count_loop d num l s' = ROk (Int64 (s' + (x - s))).
Proof.
  revert s. induction l as [|raw l IH]; intros s; cbn.
  - intros [= <-] _ s' Hs'. rewrite Z.sub_diag, Z.add_0_r. congruence.
  - destruct (d raw) as [a| |]; cbn; [|discriminate|discriminate].
    intros H _ s' _. rewrite (IH _ H (Int64_idem _) _ (Int64_idem _)). f_equal.
    destruct (Int64_eq (s' + num a)) as [k1 ->]. destruct (Int64_eq (s + num a)) as [k2 ->].
    apply (Int64_congr _ _ (k1 - k2)). lia.
Qed.
End Count.

Section CountTms.
Context {IssueAction TransferAction : Type}
  (DeserializeIssueAction : string -> res IssueAction)
  (DeserializeTransferAction : string -> res TransferAction)
  (IssueNumOutputs : IssueAction -> Z) (TransferNumOutputs : TransferAction -> Z).

(** X17: the outputs of an imported request are counted as the sum of the
    two requests' counts, wrapped to a signed 64-bit integer; when each
    count matches its request's token information and the sum is below
    [2^63], the count of the result matches the result's token
    information. *)
Theorem Import_countOutputs t r a b :
  countOutputs DeserializeIssueAction DeserializeTransferAction IssueNumOutputs TransferNumOutputs t = ROk a ->
  countOutputs DeserializeIssueAction DeserializeTransferAction IssueNumOutputs TransferNumOutputs r = ROk b ->
  countOutputs DeserializeIssueAction DeserializeTransferAction IssueNumOutputs TransferNumOutputs (Import t r)
    = ROk (Int64 (a + b)) /\
  (a = Z.of_nat (length (TokenInfos (Metadata t))) -> b = Z.of_nat (length (TokenInfos (Metadata r))) ->
   a + b < 2 ^ 63 ->
   countOutputs DeserializeIssueAction DeserializeTransferAction IssueNumOutputs TransferNumOutputs (Import t r)
    = ROk (Z.of_nat (length (TokenInfos (Metadata (Import t r)))))).
Proof.
  intros Ht Hr.
  assert (Hc : countOutputs DeserializeIssueAction DeserializeTransferAction IssueNumOutputs TransferNumOutputs
                 (Import t r) = ROk (Int64 (a + b))).
  { unfold countOutputs in *. unfold Import. cbn [Actions api.Issues api.Transfers]. rewrite !fold_snoc.
    destruct (count_loop _ _ (api.Issues (Actions t)) 0) as [a1| |] eqn:Ea1; [|discriminate|discriminate].
    destruct (count_loop _ _ (api.Issues (Actions r)) 0) as [b1| |] eqn:Eb1; [|discriminate|discriminate].
    cbn in Ht, Hr.
    assert (Na1 : Int64 a1 = a1) by (apply (count_loop_normal _ _ _ _ _ Ea1); reflexivity).
    rewrite count_loop_app, Ea1. cbn.
    rewrite (count_loop_shift _ _ _ _ _ Eb1 eq_refl a1 Na1). cbn.
    rewrite count_loop_app.
    rewrite (count_loop_shift _ _ _ _ _ Ht Na1 _ (Int64_idem _)). cbn.
    assert (Nb1 : Int64 b1 = b1) by (apply (count_loop_normal _ _ _ _ _ Eb1); reflexivity).
    rewrite (count_loop_shift _ _ _ _ _ Hr Nb1 _ (Int64_idem _)). f_equal.
    destruct (Int64_eq (a1 + (b1 - 0))) as [k1 ->].
    destruct (Int64_eq (a1 + (b1 - 0) + k1 * 2 ^ 64 + (a - a1))) as [k2 ->].
    apply (Int64_congr _ _ (k1 + k2)). lia. }
  split; [exact Hc|].
  intros -> -> Hlt. rewrite Hc. f_equal.
  assert (Hlen : length (TokenInfos (Metadata (Import t r))) =
                 (length (TokenInfos (Metadata t)) + length (TokenInfos (Metadata r)))%nat).
  { rewrite !TokenInfos_concat. unfold Import. cbn [Metadata MIssues MTransfers].
    rewrite !fold_snoc, !fmap_app, !concat_app, !length_app. lia. }
  rewrite Hlen, Nat2Z.inj_add. apply Int64_small_signed. lia.
Qed.
End CountTms.
(** Witness for X17: one issue output and one transfer output. *)
Lemma Import_countOutputs_witness :
  let t := {| TxID := "tx"; Actions := {| api.Issues := ["i1"]; api.Transfers := []; Signatures := [];
                                          AuditorSignature := "" |};
              Metadata := {| MIssues := [{| Issuer := "i"; api.Outputs := ["o1"]; TokenInfo := ["x"];
                                           Receivers := []; AuditInfos := [] |}];
                             MTransfers := [] |} |} in
  let r := {| TxID := "tx2"; Actions := {| api.Issues := []; api.Transfers := ["t1"]; Signatures := [];
                                           AuditorSignature := "" |};
              Metadata := {| MIssues := [];
                             MTransfers := [{| TokenIDs := []; TOutputs := ["o2"]; TTokenInfo := ["y"];
                                               Senders := []; SenderAuditInfos := []; TReceivers := [];
                                               ReceiverIsSender := []; ReceiverAuditInfos := [] |}] |} |} in
  countOutputs (fun s : string => ROk s) (fun s : string => ROk s) (fun _ => 1) (fun _ => 1) (Import t r) = ROk 2.
Proof.
  intros t r.
  rewrite (proj2 (Import_countOutputs (fun s : string => ROk s) (fun s : string => ROk s) (fun _ => 1) (fun _ => 1)
                    t r 1 1 eq_refl eq_refl) eq_refl eq_refl ltac:(lia)).
  reflexivity.
Defined.

Lemma range_go_prefix {A B} (f : nat -> A -> res (list B)) i l1 l2 :
  (forall k x, l1 !! k = Some x -> f (i + k)%nat x = ROk []) ->
  range_go f i (l1 ++ l2) = range_go f (i + length l1) l2.
Proof.
  revert i. induction l1 as [|x l1 IH]; intros i Hall; cbn [app range_go length].
  - rewrite Nat.add_0_r. reflexivity.
  - pose proof (Hall 0%nat x eq_refl) as H0. rewrite Nat.add_0_r in H0. rewrite H0. cbn.
    rewrite IH.
    + replace (S i + length l1)%nat with (i + S (length l1))%nat by lia.
      destruct (range_go f _ l2); reflexivity.
    + intros k y Hk. replace (S i + k)%nat with (i + S k)%nat by lia. apply (Hall (S k)). exact Hk.
Qed.

Section IssueTms.
Context {IssueAction TransferAction ActionOutput : Type}
  (DeserializeIssueAction : string -> res IssueAction)
  (DeserializeTransferAction : string -> res TransferAction)
  (IssueGetOutputs : IssueAction -> list ActionOutput)
  (TransferGetOutputs : TransferAction -> list ActionOutput)
  (SerializeOutput : ActionOutput -> res string)
  (VerifyIssue : IssueAction -> list string -> res unit)
  (VerifyTransfer : TransferAction -> list string -> res unit)
  (DeserializeToken : string -> string -> res ClearToken)
  (GetEnrollmentID : string -> res string)
  (GetIssuerIdentity : string -> res string)
  (tms_Issue : string -> string -> list Z -> list string -> res (IssueAction * list string * string))
  (SerializeIssue : IssueAction -> res string)
  (GetSerializedOutputs : IssueAction -> res (list string))
  (GetAuditInfo : string -> res string).

Lemma Verify_issue_without_metadata t raw a :
  Forall2 (fun raw md => exists a, DeserializeIssueAction raw = ROk a /\ VerifyIssue a (TokenInfo md) = ROk tt)
    (api.Issues (Actions t)) (MIssues (Metadata t)) ->
  DeserializeIssueAction raw = ROk a ->
  Verify DeserializeIssueAction DeserializeTransferAction IssueGetOutputs TransferGetOutputs SerializeOutput
    VerifyIssue VerifyTransfer DeserializeToken GetEnrollmentID
    {| TxID := TxID t;
       Actions := {| api.Issues := api.Issues (Actions t) ++ [raw];
                     api.Transfers := api.Transfers (Actions t);
                     Signatures := Signatures (Actions t);
                     AuditorSignature := AuditorSignature (Actions t) |};
       Metadata := Metadata t |} = RPanic.
Proof.
  intros Hall Ha. unfold Verify. cbn [Actions Metadata api.Issues].
  pose proof (Forall2_length _ _ _ Hall) as Hlen.
  rewrite range_go_prefix.
  - cbn [range_go]. rewrite Ha. cbn. unfold nth_go.
    rewrite lookup_ge_None_2 by lia. reflexivity.
  - intros k x Hk. cbn [Nat.add].
    destruct (Forall2_lookup_l _ _ _ _ _ Hall Hk) as (md & Hmd & a' & Hd & Hv).
    rewrite Hd. cbn. unfold nth_go. rewrite Hmd. cbn. rewrite Hv. reflexivity.
Qed.

(** X18: when [Issue] fails after serializing the issue action (getting
    its serialized outputs or the receiver's audit info), the action stays
    appended to the request while no metadata is added; [Verify] on such a
    request, otherwise valid, then panics on the missing metadata. *)
Theorem Issue_action_without_metadata t receiver typ q id issue infos issuer raw :
  token.IsNone receiver = false ->
  GetIssuerIdentity typ = ROk id ->
  tms_Issue id typ [q] [receiver] = ROk (issue, infos, issuer) ->
  SerializeIssue issue = ROk raw ->
  is_err (GetSerializedOutputs issue) = true \/
  ((exists outs, GetSerializedOutputs issue = ROk outs) /\ is_err (GetAuditInfo receiver) = true) ->
  let r := Issue GetIssuerIdentity tms_Issue SerializeIssue GetSerializedOutputs GetAuditInfo t receiver typ q in
  is_err r.2 = true /\
  api.Issues (Actions r.1) = api.Issues (Actions t) ++ [raw] /\
  api.Transfers (Actions r.1) = api.Transfers (Actions t) /\
  Metadata r.1 = Metadata t /\
  (Forall2 (fun raw md => exists a, DeserializeIssueAction raw = ROk a /\ VerifyIssue a (TokenInfo md) = ROk tt)
     (api.Issues (Actions t)) (MIssues (Metadata t)) ->
   (exists a, DeserializeIssueAction raw = ROk a) ->
   Verify DeserializeIssueAction DeserializeTransferAction IssueGetOutputs TransferGetOutputs SerializeOutput
     VerifyIssue VerifyTransfer DeserializeToken GetEnrollmentID r.1 = RPanic).
Proof.
  intros Hn Hid Hi Hs Hlate r.
  assert (Hr : exists e, r = ({| TxID := TxID t;
       Actions := {| api.Issues := api.Issues (Actions t) ++ [raw];
                     api.Transfers := api.Transfers (Actions t);
                     Signatures := Signatures (Actions t);
                     AuditorSignature := AuditorSignature (Actions t) |};
       Metadata := Metadata t |}, RErr e)).
  { subst r. unfold Issue. rewrite Hn, Hid, Hi, Hs.
    destruct Hlate as [Ho|([outs Ho] & Ha)].
    - destruct (GetSerializedOutputs issue) as [| e |]; try discriminate. exists e. reflexivity.
    - rewrite Ho. destruct (GetAuditInfo receiver) as [| e |]; try discriminate. exists e. reflexivity. }
  destruct Hr as [e ->]. cbn [fst snd Actions Metadata api.Issues api.Transfers].
  split; [reflexivity|]. split; [reflexivity|]. split; [reflexivity|]. split; [reflexivity|].
  intros Hall [a Ha]. apply (Verify_issue_without_metadata _ _ a Hall Ha).
Qed.
End IssueTms.
(** Witness for X18: the receiver has no audit info. *)
Lemma Issue_action_without_metadata_witness :
  let t0 := {| TxID := "tx"; Actions := {| api.Issues := []; api.Transfers := []; Signatures := [];
                                           AuditorSignature := "" |};
               Metadata := {| MIssues := []; MTransfers := [] |} |} in
  let r := Issue (fun _ => ROk "issuer") (fun _ _ _ _ => ROk ("issue", ["info"], "issuer")) (fun a => ROk a)
             (fun _ => ROk ["out"]) (fun _ => RErr "no audit info") t0 "bob" "ABC" 10 in
  is_err r.2 = true /\
  Verify (fun s : string => ROk s) (fun s : string => ROk s) (fun _ => @nil string) (fun _ => @nil string)
    (fun s => ROk s) (fun _ _ => ROk tt) (fun _ _ => ROk tt) (fun _ _ => RErr "no token")
    (fun _ => ROk "eid") r.1 = RPanic.
Proof.
  intros t0 r.
  destruct (Issue_action_without_metadata (fun s : string => ROk s) (fun s : string => ROk s)
              (fun _ => @nil string) (fun _ => @nil string) (fun s => ROk s) (fun _ _ => ROk tt)
              (fun _ _ => ROk tt) (fun _ _ => RErr "no token") (fun _ => ROk "eid")
              (fun _ => ROk "issuer") (fun _ _ _ _ => ROk ("issue", ["info"], "issuer")) (fun a => ROk a)
              (fun _ => ROk ["out"]) (fun _ => RErr "no audit info")
              t0 "bob" "ABC" 10 "issuer" "issue" ["info"] "issuer" "issue" eq_refl eq_refl eq_refl eq_refl
              (or_intror (conj (ex_intro _ ["out"] eq_refl) eq_refl))) as (H1 & _ & _ & _ & H5).
  split; [exact H1|]. apply H5; [constructor|exists "issue"; reflexivity].
Defined.

End RequestFacts.

(* ------------------------------------------------------------------ *)
(** ** Transfer preparation *)
Module PrepareTransferFacts.
Import token.
Import TokenFacts.
Import ResFacts.


(** X20: with a selector and defined recipients, [prepareTransfer]
    returns the selected ids and one output per value, plus a change output
    to a fresh recipient identity when the selected quantity exceeds the
    sum of the values; when the sum does not overflow and is covered, the
    output quantities sum to the selected quantity. *)
Theorem prepareTransfer_change env typ values owners sel ids insum :
  (length values <= length owners)%nat ->
  Forall (fun o => IsNone o = false) owners ->
  sel (outputSum values) typ = ROk (ids, Some insum) ->
  let outs := (fun '(i, v) => {| Owner := nth i owners ""; Type_ := typ; Quantity := v |})
                <$> zip (seq 0 (length values)) values in
  prepareTransfer env false typ values owners {| TokenIDs := []; Selector := Some sel |} =
    (if outputSum values <? insum then
       pseudonym ← wrap (GetRecipientIdentity env) "failed getting recipient identity for the rest";
       ROk (ids, outs ++ [{| Owner := pseudonym; Type_ := typ; Quantity := insum - outputSum values |}])
     else ROk (ids, outs)) /\
  (Forall (fun v => 0 <= v) values -> fold_right Z.add 0 values < 2 ^ 64 ->
   fold_right Z.add 0 values <= insum -> is_ok (GetRecipientIdentity env) = true ->
   exists outs', prepareTransfer env false typ values owners {| TokenIDs := []; Selector := Some sel |}
                   = ROk (ids, outs') /\
                 fold_right Z.add 0 (Quantity <$> outs') = insum).
Proof.
  intros Hlen Ho Hsel outs.
  assert (Hpt : prepareTransfer env false typ values owners {| TokenIDs := []; Selector := Some sel |} =
    (if outputSum values <? insum then
       pseudonym ← wrap (GetRecipientIdentity env) "failed getting recipient identity for the rest";
       ROk (ids, outs ++ [{| Owner := pseudonym; Type_ := typ; Quantity := insum - outputSum values |}])
     else ROk (ids, outs))).
  { unfold prepareTransfer. rewrite (owners_ok owners Ho). bind_red. cbn [TokenIDs Selector length Nat.eqb negb].
    bind_red. rewrite (outputs_ok owners typ values Hlen). bind_red.
    rewrite Hsel. cbn [wrap]. bind_red. unfold Cmp, NewQuantityFromUInt64. bind_red.
    destruct (Z.ltb_spec (outputSum values) insum).
    - destruct (Z.ltb_spec insum (outputSum values)); [lia|].
      destruct (Z.eqb_spec insum (outputSum values)); [lia|]. cbn [Z.eqb Pos.eqb].
      unfold Sub. bind_red. reflexivity.
    - destruct (Z.ltb_spec insum (outputSum values)); [reflexivity|].
      destruct (Z.eqb_spec insum (outputSum values)); [reflexivity|lia]. }
  split; [exact Hpt|].
  intros Hv Hs Hle Hrid.
  assert (Hq : fold_right Z.add 0 (Quantity <$> outs) = fold_right Z.add 0 values).
  { subst outs. clear -Hlen. generalize 0%nat as k. induction values as [|v values IH]; intros k; [reflexivity|].
    cbn [length seq zip fmap list_fmap fold_right Quantity]. rewrite IH; [reflexivity|]. cbn in Hlen. lia. }
  rewrite (outputSum_exact values Hv Hs) in Hpt.
  rewrite Hpt. destruct (Z.ltb_spec (fold_right Z.add 0 values) insum).
  - destruct (GetRecipientIdentity env) as [p| |]; [|discriminate|discriminate].
    cbn [wrap]. bind_red. eexists. split; [reflexivity|].
    assert (Hfr : forall a l, fold_right Z.add a l = a + fold_right Z.add 0 l)
      by (intros a l; induction l; cbn; lia).
    rewrite fmap_app, fold_right_app, Hfr, Hq. cbn. lia.
  - eexists. split; [reflexivity|]. rewrite Hq. lia.
Qed.
(** Witness for X20: 70 selected for an output of 65 gives a change of 5
    to "alice". *)
Lemma prepareTransfer_change_witness :
  prepareTransfer toy_env false "ABC" [65] ["bob"]
    {| TokenIDs := []; Selector := Some (fun _ _ => ROk ([toy_id 1], Some 70)) |} =
    ROk ([toy_id 1], [{| Owner := "bob"; Type_ := "ABC"; Quantity := 65 |};
                      {| Owner := "alice"; Type_ := "ABC"; Quantity := 5 |}]).
Proof.
  destruct (prepareTransfer_change toy_env "ABC" [65] ["bob"] (fun _ _ => ROk ([toy_id 1], Some 70))
              [toy_id 1] 70 ltac:(cbn; lia) ltac:(repeat constructor) eq_refl) as [H _].
  rewrite H. reflexivity.
Defined.

End PrepareTransferFacts.
